(** * Climate acquisition pipeline: retrieval, station assignment, imputation

    A shallow embedding of the acquisition core of
    [notebooks/01_data_acquisition_eda.py]: the retrying HTTP client
    ([_get_json]), the range downloader ([_fetch_range],
    [get_daily_climate_year]), the checkpoint ledger and its orchestrator
    ([_load_done], [build_and_save_climate_2017]), the station assigner
    ([get_aemet_stations], [_active_mask_for_year],
    [assign_nearest_station]) and the imputation cascade
    ([impute_station_climate_2017]); and, around that core, the header
    detection of the PANGAEA reader ([_detect_header_idx]), the coordinate
    parser ([_parse_aemet_dms]), the session pool ([_get_session]) and the
    climate aggregates ([build_climate_aggregates]).

    Conventions of the embedding:
    - floating point numbers are rationals ([Q]); [NaN], [None] and [NaT]
      are the absent case of an [option] or the cell [CNaN];
    - code that touches the network or the cache directory runs in the
      state-and-exception monad [M] over a [World];
    - a ledger file is the list of its lines, a cache file the records it
      holds (or the fact that it cannot be read);
    - [time.sleep], the jitter drawn from [random] and logging change no
      state the program reads back and are left out; so is the pooled
      session as far as the [World] goes: its rotation is modelled on its
      own ([_get_session]). *)

From Stdlib Require Import QArith Qabs Qround Lqa Ascii String.
From stdpp Require Import gmap strings list fin_maps pretty sorting.

Local Open Scope string_scope.
Local Open Scope list_scope.
Local Open Scope Z_scope.

#[local] Set Warnings "-clear-no-such-hyp".

(** ** Values *)

(** A [pd.Timestamp], to the second; compared field by field. *)
Record Timestamp := mkTimestamp {
  ts_year : Z; ts_month : Z; ts_day : Z;
  ts_hour : Z; ts_minute : Z; ts_second : Z }.

(** One cell of a data frame or one scalar of a JSON object. *)
Inductive Cell :=
| CNaN
| CNum (x : Q)
| CStr (s : string)
| CTime (t : Timestamp).

(** A record ([orient="records"]): column name to cell.  A column missing
    from a record reads as [CNaN]. *)
Abbreviation Row := (gmap string Cell).
Abbreviation DataFrame := (list (gmap string Cell)).

(** What [r.json()] can decode to.  Python's [None] is [JNull]. *)
Inductive JSON :=
| JNull
| JObject (o : Row)
| JArray (rows : list Row).

Inductive Exn :=
| RuntimeError
| ValueError
| KeyError
| TypeError
| AttributeError
| IndexError
| MissingSchema
| OtherError (msg : string).

Inductive Result (A : Type) :=
| Ok (a : A)
| Raise (e : Exn).
Arguments Ok {A} a.
Arguments Raise {A} e.

(** ** The world: remote archive, request log, cache directory *)

Inductive Body :=
| NoBody
| BadBody
| JsonBody (j : JSON).

(** What one [session.get] does: it raises a connection error, raises some
    other exception of the HTTP library, or hands back a response. *)
Inductive Outcome :=
| ConnectionError
| Raises (e : Exn)
| Response (status_code : Z) (content : Body).

Inductive CacheFile :=
| Corrupt
| Stored (df : DataFrame).

(** [remote] answers a GET from the requests seen so far and the URL asked
    for, so any deterministic archive (flaky, rate limited, with expiring
    short URLs) is an instance.  [requests] logs every GET, latest first.
    [done_file] and [fail_file] are the two ledgers, as their lines; [None]
    when the file does not exist. *)
Record World := mkWorld {
  remote : list string → string → Outcome;
  requests : list string;
  cache_files : gmap string CacheFile;
  done_file : option (list string);
  fail_file : option (list string) }.

Definition set_requests (rs : list string) (w : World) : World :=
  mkWorld (remote w) rs (cache_files w) (done_file w) (fail_file w).
Definition set_cache_files (fs : gmap string CacheFile) (w : World) : World :=
  mkWorld (remote w) (requests w) fs (done_file w) (fail_file w).
Definition set_done_file (ls : option (list string)) (w : World) : World :=
  mkWorld (remote w) (requests w) (cache_files w) ls (fail_file w).
Definition set_fail_file (ls : option (list string)) (w : World) : World :=
  mkWorld (remote w) (requests w) (cache_files w) (done_file w) ls.

(** ** The monad *)

Definition M (A : Type) : Type := World → Result A * World.

Definition ret {A} (a : A) : M A := fun w => (Ok a, w).
Definition raise {A} (e : Exn) : M A := fun w => (Raise e, w).
Definition bind {A B} (c : M A) (k : A → M B) : M B :=
  fun w => match c w with
           | (Ok a, w1) => k a w1
           | (Raise e, w1) => (Raise e, w1)
           end.
(** [try: c  except Exception as e: h e] *)
Definition try_except {A} (c : M A) (h : Exn → M A) : M A :=
  fun w => match c w with
           | (Ok a, w1) => (Ok a, w1)
           | (Raise e, w1) => h e w1
           end.

Notation "x <- c ;; k" := (bind c (fun x => k))
  (at level 100, c at next level, right associativity).

(** ** HttpRetryClient: [_get_json] *)

Definition session_get (url : string) (w : World) : Outcome * World :=
  (remote w (requests w) url, set_requests (url :: requests w) w).

Definition body_is_empty (b : Body) : bool :=
  match b with NoBody => true | _ => false end.

(** [r.raise_for_status()] raises for 4xx and 5xx. *)
Definition raise_for_status (sc : Z) : bool := (400 <=? sc) && (sc <? 600).

(** [400 <= sc < 500 and sc != 429] *)
Definition client_error_not_429 (sc : Z) : bool :=
  (400 <=? sc) && (sc <? 500) && negb (sc =? 429).

(** The loop [for i in range(1, tries+1)] with [attempts] iterations left;
    falling out of the loop, or [break], reaches the final [raise]. *)
Fixpoint _get_json_from (url : string) (attempts : nat) : M JSON :=
  match attempts with
  | O => raise RuntimeError
  | S rest => fun w =>
      let '(o, w1) := session_get url w in
      match o with
      | Response sc body =>
          if (sc =? 204) || body_is_empty body then (Ok JNull, w1)
          else if raise_for_status sc then
            if client_error_not_429 sc then (Raise RuntimeError, w1)
            else _get_json_from url rest w1
          else match body with
               | JsonBody j => (Ok j, w1)
               | _ => _get_json_from url rest w1
               end
      | ConnectionError => _get_json_from url rest w1
      | Raises e => (Raise e, w1)
      end
  end.

Definition _get_json (url : string) (tries : nat) : M JSON :=
  _get_json_from url tries.

(** ** External collaborators

    Parsers and numerics of pandas and numpy that the acquisition core calls
    but whose results it only passes on or compares.  Nothing is assumed
    about them. *)
Class Externals := {
  (** [pd.to_numeric(s, errors="coerce")] on one string; [None] is NaN. *)
  to_numeric : string → option Q;
  (** [pd.to_datetime(x, errors="coerce", format="mixed")] on one cell;
      [None] is NaT. *)
  to_datetime : Cell → option Timestamp;
  (** [_parse_aemet_dms]: a coordinate in decimal degrees, or NaN. *)
  _parse_aemet_dms : Cell → option Q;
  (** [astype(str)] on one cell. *)
  astype_str : Cell → string;
  (** The haversine formula of [assign_nearest_station], in kilometres:
      profile latitude and longitude, station latitude and longitude. *)
  haversine_km : Q → Q → Q → Q → Q }.

(** ** Strings *)

(** The ASCII characters [str.strip] removes. *)
Definition is_space (a : ascii) : bool :=
  let n := nat_of_ascii a in
  ((9 <=? n) && (n <=? 13) || (28 <=? n) && (n <=? 32))%nat.

Fixpoint lstrip (s : string) : string :=
  match s with
  | String a s' => if is_space a then lstrip s' else s
  | EmptyString => EmptyString
  end.

Definition strip (s : string) : string :=
  String.rev (lstrip (String.rev (lstrip s))).

Definition lower_ascii (a : ascii) : ascii :=
  let n := nat_of_ascii a in
  if ((65 <=? n) && (n <=? 90))%nat then ascii_of_nat (n + 32) else a.

Fixpoint lower (s : string) : string :=
  match s with
  | String a s' => String (lower_ascii a) (lower s')
  | EmptyString => EmptyString
  end.

(** [s.replace(",", ".")] *)
Fixpoint comma_to_dot (s : string) : string :=
  match s with
  | String a s' =>
      String (if Ascii.eqb a ","%char then "."%char else a) (comma_to_dot s')
  | EmptyString => EmptyString
  end.

(** ** Data frames *)

Definition cell_at (r : Row) (c : string) : Cell := default CNaN (r !! c).

Definition columns (df : DataFrame) : gset string := ⋃ (dom <$> df).

(** [df.empty]: no rows or no columns. *)
Definition df_empty (df : DataFrame) : bool :=
  match df with
  | [] => true
  | _ => bool_decide (columns df = ∅)
  end.

Definition cell_of_time (t : option Timestamp) : Cell :=
  match t with Some t => CTime t | None => CNaN end.
Definition month_of_time (t : option Timestamp) : Cell :=
  match t with Some t => CNum (inject_Z (ts_month t)) | None => CNaN end.
Definition cell_of_number (x : option Q) : Cell :=
  match x with Some x => CNum x | None => CNaN end.

Definition key_columns : list string :=
  ["indicativo"; "nombre"; "provincia"; "fecha"; "month"].

(** [df["fecha"] = pd.to_datetime(df["fecha"], ...)] and
    [df["month"] = df["fecha"].dt.month], on one record. *)
Definition parse_fecha `{Externals} (r : Row) : Row :=
  let t := to_datetime (cell_at r "fecha") in
  <["month" := month_of_time t]> (<["fecha" := cell_of_time t]> r).

(** One cell of a numeric column [col]: [astype(str)], [strip], the
    trace-precipitation mark, decimal comma, [to_numeric].  A float prints
    and parses back to itself; ["nan"], ["None"] and a printed timestamp
    coerce to NaN. *)
Definition clean_numeric `{Externals} (col : string) (c : Cell) : Cell :=
  match c with
  | CStr s =>
      let s := strip s in
      let s := if String.prefix "prec" (lower col)
               then (if bool_decide (s = "Ip") || bool_decide (s = "ip") then "0" else s)
               else s in
      cell_of_number (to_numeric (comma_to_dot s))
  | CNum x => CNum x
  | CNaN => CNaN
  | CTime _ => CNaN
  end.

Definition clean_cell `{Externals} (col : string) (c : Cell) : Cell :=
  if bool_decide (col ∈ key_columns) then c else clean_numeric col c.

Definition _clean_daily_payload `{Externals} (df : DataFrame) : DataFrame :=
  if df_empty df then df
  else
    let df1 := if bool_decide ("fecha" ∈ columns df) then parse_fecha <$> df else df in
    (map_imap (λ col c, Some (clean_cell col c))) <$> df1.

(** ** RangeDownloader: [_fetch_range] *)

Definition _range_url (station_id start end_ : string) : string :=
  "https://opendata.aemet.es/opendata/api/valores/climatologicos/diarios/"
  +:+ "datos/fechaini/" +:+ start +:+ "T00:00:00UTC/fechafin/" +:+ end_
  +:+ "T23:59:59UTC/estacion/" +:+ station_id.

(** Truth value of a decoded payload: [None], [{}] and [[]] are false. *)
Definition truthy (j : JSON) : bool :=
  match j with
  | JNull => false
  | JObject o => negb (bool_decide (dom o = ∅))
  | JArray rows => match rows with [] => false | _ => true end
  end.

Definition cell_truthy (c : Cell) : bool :=
  match c with
  | CNaN => false
  | CNum x => negb (Qeq_bool x 0)
  | CStr s => negb (bool_decide (s = ""))
  | CTime _ => true
  end.

(** ["datos" in meta]: a key of an object; never an element of a list of
    records. *)
Definition has_datos (meta : JSON) : bool :=
  match meta with
  | JObject o => bool_decide (is_Some (o !! "datos"))
  | _ => false
  end.

(** [meta.get("datos")]: only objects have [get]. *)
Definition meta_get_datos (meta : JSON) : Result Cell :=
  match meta with
  | JObject o => Ok (cell_at o "datos")
  | _ => Raise AttributeError
  end.

(** [pd.DataFrame(payload)]: a list of records, or nothing; an object of
    scalars is refused. *)
Definition data_frame_of (payload : JSON) : Result DataFrame :=
  match payload with
  | JNull => Ok []
  | JArray rows => Ok rows
  | JObject o => if bool_decide (dom o = ∅) then Ok [] else Raise ValueError
  end.

(** A GET of whatever [meta["datos"]] holds: the HTTP library refuses
    anything that is not a string before it reaches the network. *)
Definition _get_json_at (url : Cell) (tries : nat) : M JSON :=
  match url with
  | CStr u => _get_json u tries
  | _ => raise MissingSchema
  end.

Definition lift {A} (r : Result A) : M A := fun w => (r, w).

(** The [try] body of the loop of [_fetch_range]: the cleaned frame, or
    [None] when the payload is empty. *)
Definition fetch_short `{Externals} (short : Cell) : M (option DataFrame) :=
  payload <- _get_json_at short 6 ;;
  if truthy payload
  then (df <- lift (data_frame_of payload) ;;
        ret (Some (_clean_daily_payload df)))
  else ret None.

(** The [except] handler of that loop: fetch the metadata again and take
    its short URL. *)
Definition refresh_short (meta_url : string) : M Cell :=
  meta <- _get_json meta_url 5 ;;
  lift (meta_get_datos meta).

(** The loop [for k in range(meta_tries)] of [_fetch_range], [k] iterations
    left.  The [try] body returns the frame, or goes round again on an
    empty payload; any exception refreshes the short URL first. *)
Fixpoint _fetch_range_from `{Externals} (meta_url : string) (short : Cell)
    (k : nat) : M DataFrame :=
  match k with
  | O => ret []
  | S k' => fun w =>
      match fetch_short short w with
      | (Ok (Some df), w1) => (Ok df, w1)
      | (Ok None, w1) => _fetch_range_from meta_url short k' w1
      | (Raise _, w1) =>
          (short' <- refresh_short meta_url ;;
           _fetch_range_from meta_url short' k') w1
      end
  end.

Definition _fetch_range `{Externals} (stid start end_ : string)
    (meta_tries : nat) : M DataFrame :=
  let meta_url := _range_url stid start end_ in
  meta <- _get_json meta_url 5 ;;
  if negb (truthy meta) || negb (has_datos meta) then ret []
  else
    short <- lift (meta_get_datos meta) ;;
    if negb (cell_truthy short) then ret []
    else _fetch_range_from meta_url short meta_tries.

(** ** RangeDownloader: [get_daily_climate_year] *)

(** [calendar.monthrange(year, month)[1]] *)
Definition isleap (year : Z) : bool :=
  (year mod 4 =? 0) && (negb (year mod 100 =? 0) || (year mod 400 =? 0)).

Definition _last_day_of_month (year month : Z) : Z :=
  if month =? 2 then (if isleap year then 29 else 28)
  else if (month =? 4) || (month =? 6) || (month =? 9) || (month =? 11) then 30
  else 31.

(** [f"{n:02d}"] for the months and days formatted here (never negative). *)
Definition fmt02 (n : Z) : string :=
  if n <? 10 then "0" +:+ pretty n else pretty n.

Definition whole_year (year : Z) : list (string * string) :=
  [(pretty year +:+ "-01-01", pretty year +:+ "-12-31")].
Definition halves (year : Z) : list (string * string) :=
  [(pretty year +:+ "-01-01", pretty year +:+ "-06-30");
   (pretty year +:+ "-07-01", pretty year +:+ "-12-31")].
Definition quarters (year : Z) : list (string * string) :=
  [(pretty year +:+ "-01-01", pretty year +:+ "-03-31");
   (pretty year +:+ "-04-01", pretty year +:+ "-06-30");
   (pretty year +:+ "-07-01", pretty year +:+ "-09-30");
   (pretty year +:+ "-10-01", pretty year +:+ "-12-31")].
Definition months (year : Z) : list (string * string) :=
  (λ m, (pretty year +:+ "-" +:+ fmt02 m +:+ "-01",
         pretty year +:+ "-" +:+ fmt02 m +:+ "-"
           +:+ fmt02 (_last_day_of_month year m))) <$> seqZ 1 12.

(** The table [ranges]: year, semesters, quarters, months. *)
Definition ranges (year : Z) : list (list (string * string)) :=
  [whole_year year; halves year; quarters year; months year].

Definition cache_name (stid : string) (year : Z) : string :=
  "climate_" +:+ stid +:+ "_" +:+ pretty year +:+ ".json".

(** [df.to_json(cache_file, orient="records")] *)
Definition to_json (name : string) (df : DataFrame) : M unit :=
  fun w => (Ok tt, set_cache_files (<[name := Stored df]> (cache_files w)) w).

(** The inner loop [for (start, end) in rr] over one level.  [frames]
    collects the non-empty results; [got_any] of the source is true exactly
    when [frames] is not empty, the two being set together.  An exception
    of [_fetch_range] counts as an empty result. *)
Fixpoint fetch_level `{Externals} (stid : string) (rr : list (string * string))
    (frames : list DataFrame) : M (list DataFrame) :=
  match rr with
  | [] => ret frames
  | (start, end_) :: rest =>
      df <- try_except (_fetch_range stid start end_ 3) (fun _ => ret []) ;;
      fetch_level stid rest (if df_empty df then frames else frames ++ [df])
  end.

(** The outer loop [for level, rr in enumerate(ranges)]: each level starts
    from no frames; the loop breaks after the first level with any. *)
Fixpoint fetch_levels `{Externals} (stid : string)
    (levels : list (list (string * string))) : M (list DataFrame) :=
  match levels with
  | [] => ret []
  | rr :: rest =>
      frames <- fetch_level stid rr [] ;;
      match frames with
      | [] => fetch_levels stid rest
      | _ => ret frames
      end
  end.

(** [get_daily_climate_year] past the cache check. *)
Definition download_year `{Externals} (stid : string) (year : Z) : M DataFrame :=
  frames <- fetch_levels stid (ranges year) ;;
  match frames with
  | [] => ret []
  | _ =>
      let out := concat frames in
      _ <- (if df_empty out then ret tt else to_json (cache_name stid year) out) ;;
      ret out
  end.

(** An unreadable cache file only logs a warning. *)
Definition get_daily_climate_year `{Externals} (stid : string) (year : Z)
    : M DataFrame :=
  fun w =>
    match cache_files w !! cache_name stid year with
    | Some (Stored df) => (Ok (_clean_daily_payload df), w)
    | Some Corrupt | None => download_year stid year w
    end.

(** ** CheckpointLedger and the orchestrator *)

(** [set(x.strip() for x in lines if x.strip())] *)
Definition ledger_ids (lines : list string) : gset string :=
  list_to_set (filter (λ x, x ≠ "") (strip <$> lines)).

Definition _load_done : M (gset string) :=
  fun w => (Ok (match done_file w with
                | Some lines => ledger_ids lines
                | None => ∅
                end), w).

(** Opening in append mode creates the file; each write adds one line. *)
Definition _mark_done (stid : string) : M unit :=
  fun w => (Ok tt, set_done_file (Some (default [] (done_file w) ++ [stid])) w).

Definition _mark_fail (stid : string) : M unit :=
  fun w => (Ok tt, set_fail_file (Some (default [] (fail_file w) ++ [stid])) w).

(** [pd.unique]: first occurrences, in order. *)
Fixpoint pd_unique_from (seen : list string) (l : list string) : list string :=
  match l with
  | [] => []
  | x :: l' =>
      if bool_decide (x ∈ seen) then pd_unique_from seen l'
      else x :: pd_unique_from (x :: seen) l'
  end.
Definition pd_unique (l : list string) : list string := pd_unique_from [] l.

(** [perfiles] as the orchestrator reads it: profile id and assigned
    station, [None] where the merge left NaN. *)
Definition unique_stations (perfiles : list (string * option string)) : list string :=
  pd_unique (omap snd perfiles).

(** [df["nearest_station"] = stid] *)
Definition with_station (stid : string) (df : DataFrame) : DataFrame :=
  (λ r, <["nearest_station" := CStr stid]> r) <$> df.

(** One round of [for stid in unique_stations]. *)
Definition process_station `{Externals} (done : gset string) (stid : string)
    (station_frames : list DataFrame) : M (list DataFrame) :=
  if bool_decide (stid ∈ done) then ret station_frames
  else
    try_except
      (df <- get_daily_climate_year stid 2017 ;;
       let df := if df_empty df then [] else df in
       _ <- _mark_done stid ;;
       ret (station_frames ++ [with_station stid df]))
      (fun _ => _ <- _mark_fail stid ;; ret station_frames).

Fixpoint process_stations `{Externals} (done : gset string) (stids : list string)
    (station_frames : list DataFrame) : M (list DataFrame) :=
  match stids with
  | [] => ret station_frames
  | stid :: rest =>
      station_frames <- process_station done stid station_frames ;;
      process_stations done rest station_frames
  end.

(** Returns [clima_station]; the CSV artefacts derived from it are not
    modelled. *)
Definition build_and_save_climate_2017 `{Externals}
    (perfiles : list (string * option string)) : M DataFrame :=
  done <- _load_done ;;
  station_frames <- process_stations done (unique_stations perfiles) [] ;;
  ret (concat station_frames).

(** ** Station inventory: [get_aemet_stations] *)

Fixpoint lex_leb (a b : list Z) : bool :=
  match a, b with
  | x :: a', y :: b' => (x <? y) || ((x =? y) && lex_leb a' b')
  | _, _ => true
  end.

Definition ts_fields (t : Timestamp) : list Z :=
  [ts_year t; ts_month t; ts_day t; ts_hour t; ts_minute t; ts_second t].

(** [t <= u] on timestamps. *)
Definition ts_leb (t u : Timestamp) : bool := lex_leb (ts_fields t) (ts_fields u).

(** The inventory columns that later stages read, at their dtypes:
    [lat] and [lon] are floats with NaN, the two dates are datetimes with
    NaT. *)
Record Station := mkStation {
  indicativo : string;
  nombre : string;
  provincia : string;
  lat : option Q;
  lon : option Q;
  fechaAlta : option Timestamp;
  fechaBaja : option Timestamp }.

(** [alta_ok & baja_ok] for the window [y0 .. y1]. *)
Definition active_between (y0 y1 : Timestamp) (s : Station) : bool :=
  let alta_ok := match fechaAlta s with None => true | Some t => ts_leb t y1 end in
  let baja_ok := match fechaBaja s with None => true | Some t => ts_leb y0 t end in
  alta_ok && baja_ok.

(** [series.between(lo, hi)]: false on NaN. *)
Definition between (lo hi : Q) (x : option Q) : bool :=
  match x with
  | Some x => Qle_bool lo x && Qle_bool x hi
  | None => false
  end.

Definition inventory_url : string :=
  "https://opendata.aemet.es/opendata/api/valores/climatologicos/inventarioestaciones/todasestaciones".

Definition stations_cache : string := "stations.json".

(** [meta["datos"]] *)
Definition meta_index_datos (meta : JSON) : Result Cell :=
  match meta with
  | JObject o => match o !! "datos" with Some c => Ok c | None => Raise KeyError end
  | _ => Raise TypeError
  end.

(** The inner [_load] of [get_aemet_stations]. *)
Definition _load : M DataFrame :=
  meta <- _get_json inventory_url 5 ;;
  short <- lift (meta_index_datos meta) ;;
  payload <- _get_json_at short 6 ;;
  df <- lift (data_frame_of payload) ;;
  _ <- to_json stations_cache df ;;
  ret df.

Definition column_text `{Externals} (cols : gset string) (r : Row) (c : string) : string :=
  if bool_decide (c ∈ cols) then astype_str (cell_at r c) else "".

Definition column_time `{Externals} (cols : gset string) (r : Row) (c : string)
    : option Timestamp :=
  if bool_decide (c ∈ cols) then to_datetime (cell_at r c) else None.

Definition station_of_row `{Externals} (cols : gset string) (r : Row) : Station :=
  {| indicativo := column_text cols r "indicativo";
     nombre := column_text cols r "nombre";
     provincia := column_text cols r "provincia";
     lat := _parse_aemet_dms (cell_at r "latitud");
     lon := _parse_aemet_dms (cell_at r "longitud");
     fechaAlta := column_time cols r "fechaAlta";
     fechaBaja := column_time cols r "fechaBaja" |}.

Definition coords_in_range (s : Station) : bool :=
  between (-90) 90 (lat s) && between (-180) 180 (lon s).

Definition y0_2017 : Timestamp := mkTimestamp 2017 1 1 0 0 0.
Definition y1_2017 : Timestamp := mkTimestamp 2017 12 31 23 59 59.

(** Coordinates parsed and range-checked, validity dates parsed, stations
    active in 2017 kept.  The first pass supplies a missing date column as
    NaT; the reload pass ([dates_required]) indexes both date columns. *)
Definition parse_inventory `{Externals} (dates_required : bool) (df : DataFrame)
    : Result (list Station) :=
  let cols := columns df in
  if negb (bool_decide ("latitud" ∈ cols)) || negb (bool_decide ("longitud" ∈ cols))
  then Raise KeyError
  else if dates_required
          && (negb (bool_decide ("fechaAlta" ∈ cols))
              || negb (bool_decide ("fechaBaja" ∈ cols)))
  then Raise KeyError
  else Ok (filter (λ s, active_between y0_2017 y1_2017 s = true)
             (filter (λ s, coords_in_range s = true) (station_of_row cols <$> df))).

Definition read_stations_cache : M DataFrame :=
  fun w =>
    match cache_files w !! stations_cache with
    | Some (Stored df) => (Ok df, w)
    | Some Corrupt => (Raise ValueError, w)
    | None => _load w
    end.

Definition get_aemet_stations `{Externals} : M (list Station) :=
  df <- read_stations_cache ;;
  st <- lift (parse_inventory false df) ;;
  match st with
  | [] =>
      df <- _load ;;
      st <- lift (parse_inventory true df) ;;
      match st with
      | [] => raise RuntimeError
      | _ => ret st
      end
  | _ => ret st
  end.

(** ** StationAssigner: [assign_nearest_station] *)

Definition year_start (year : Z) : Timestamp := mkTimestamp year 1 1 0 0 0.
Definition year_end (year : Z) : Timestamp := mkTimestamp year 12 31 23 59 59.

(** The dates of a [Station] are parsed already, and [_ensure_datetime]
    leaves datetime columns as they are. *)
Definition _active_mask_for_year (stations : list Station) (year : Z) : list bool :=
  active_between (year_start year) (year_end year) <$> stations.

(** A profile as the assigner reads it, its coordinates already through
    [pd.to_numeric(..., errors="coerce")]: [None] is NaN. *)
Record Profile := mkProfile {
  pf_profile_id : string;
  pf_lat : option Q;
  pf_lon : option Q }.

(** One row of the table [assign_nearest_station] returns. *)
Record Assignment := mkAssignment {
  profile_id : string;
  nearest_station : string;
  station_name : string;
  station_provincia : string;
  distance_km : Q;
  station_active_2017 : bool;
  station_rank_used : nat }.

(** [dropna(subset=["lat","lon"])] *)
Definition has_coords (la lo : option Q) : bool :=
  bool_decide (is_Some la) && bool_decide (is_Some lo).

Definition by_distance (a b : nat * Q) : Prop := (a.2 <= b.2)%Q.

#[local] Instance by_distance_dec : RelDecision by_distance :=
  λ a b, decide (Qnum a.2 * QDen b.2 ≤ Qnum b.2 * QDen a.2)%Z.

(** [np.argsort] of one row of distances: the station indices in
    ascending order of distance.  Equal distances stay in index order
    here; numpy promises no order among them, and nothing below uses
    one. *)
Definition argsort (d : list Q) : list nat :=
  fst <$> merge_sort by_distance (imap (λ i x, (i, x)) d).

Definition np_any (l : list bool) : bool := existsb id l.

(** [np.argmax] of a boolean array: the first [True], 0 if there is none. *)
Definition np_argmax (l : list bool) : nat :=
  match list_find (λ b, b = true) l with
  | Some (k, _) => k
  | None => 0%nat
  end.

Definition index {A} (l : list A) (i : nat) : Result A :=
  match l !! i with
  | Some x => Ok x
  | None => Raise IndexError
  end.

Definition rbind {A B} (r : Result A) (k : A → Result B) : Result B :=
  match r with
  | Ok a => k a
  | Raise e => Raise e
  end.

Notation "x <-? c ;; k" := (rbind c (fun x => k))
  (at level 100, c at next level, right associativity).

Fixpoint result_map {A B} (f : A → Result B) (l : list A) : Result (list B) :=
  match l with
  | [] => Ok []
  | x :: l' => y <-? f x ;; ys <-? result_map f l' ;; Ok (y :: ys)
  end.

(** One row of [dist_km]: the profile against every station of [st].
    [st] went through [dropna], so the coordinates are there. *)
Definition distances `{Externals} (st : list Station) (p : Profile) : list Q :=
  (λ s, haversine_km (default 0%Q (pf_lat p)) (default 0%Q (pf_lon p))
                     (default 0%Q (lat s)) (default 0%Q (lon s))) <$> st.

(** One round of [for i in range(order.shape[0])], with the output row it
    leads to. *)
Definition assign_profile `{Externals} (st : list Station) (active_mask : list bool)
    (p : Profile) : Result Assignment :=
  let dist_km := distances st p in
  let ord_i := argsort dist_km in
  active_ord <-? result_map (index active_mask) ord_i ;;
  if np_any active_ord then
    let k := np_argmax active_ord in
    j <-? index ord_i k ;;
    d <-? index dist_km j ;;
    s <-? index st j ;;
    Ok (mkAssignment (pf_profile_id p) (indicativo s) (nombre s) (provincia s)
          d true (k + 1))
  else
    j <-? index ord_i 0%nat ;;
    d <-? index dist_km j ;;
    s <-? index st j ;;
    Ok (mkAssignment (pf_profile_id p) (indicativo s) (nombre s) (provincia s)
          d false 1).

Definition assign_nearest_station `{Externals} (perfiles : list Profile)
    (stations : list Station) (year : Z) : Result (list Assignment) :=
  let pfv := filter (λ p, has_coords (pf_lat p) (pf_lon p) = true) perfiles in
  match pfv with
  | [] => Raise ValueError
  | _ =>
      let st := filter (λ s, has_coords (lat s) (lon s) = true) stations in
      match st with
      | [] => Raise ValueError
      | _ =>
          let active_mask := _active_mask_for_year st year in
          result_map (assign_profile st active_mask) pfv
      end
  end.

(** ** ImputationCascade: [impute_station_climate_2017] *)

(** One daily record of [clima_station]: its station, its month (NaN when
    the date did not parse) and its numeric measurements.  A measurement
    missing from [cr_values] is null. *)
Record ClimaRow := mkClimaRow {
  cr_station : string;
  cr_month : option Z;
  cr_values : gmap string Q }.

(** [num_cols] lists the numeric columns; a column may be null on every
    row. *)
Record ClimaFrame := mkClimaFrame {
  num_cols : list string;
  cf_rows : list ClimaRow }.

#[local] Instance Qle_dec : RelDecision Qle :=
  λ x y, decide (Qnum x * QDen y ≤ Qnum y * QDen x)%Z.

(** [median] of a column with nulls skipped: the middle value, or the mean
    of the two middle values; NaN when nothing is left. *)
Definition median (xs : list Q) : option Q :=
  let s := merge_sort Qle xs in
  let n := length s in
  match n with
  | O => None
  | _ =>
      if Nat.odd n then s !! (n / 2)%nat
      else
        a ← s !! (n / 2 - 1)%nat;
        b ← s !! (n / 2)%nat;
        Some ((a + b) / 2)%Q
  end.

(** The non-null values of column [c]. *)
Definition col_values (c : string) (rows : list ClimaRow) : list Q :=
  omap (λ r, cr_values r !! c) rows.

(** [groupby(["nearest_station","month"])[c].transform("median")] at row
    [r]: rows with a null month belong to no group. *)
Definition station_month_median (rows : list ClimaRow) (r : ClimaRow) (c : string)
    : option Q :=
  match cr_month r with
  | None => None
  | Some m =>
      median (col_values c
        (filter (λ r', cr_station r' = cr_station r ∧ cr_month r' = Some m) rows))
  end.

(** [groupby(["nearest_station"])[c].transform("median")] at row [r]. *)
Definition station_median (rows : list ClimaRow) (r : ClimaRow) (c : string)
    : option Q :=
  median (col_values c (filter (λ r', cr_station r' = cr_station r) rows)).

(** [df[num_cols].median()] at column [c]. *)
Definition global_median (rows : list ClimaRow) (c : string) : option Q :=
  median (col_values c rows).

(** [df[c] = df[c].fillna(fill[c])] for one column of one row. *)
Definition fill_value (fill : string → option Q) (c : string) (vals : gmap string Q)
    : gmap string Q :=
  match vals !! c with
  | Some _ => vals
  | None => match fill c with Some v => <[c := v]> vals | None => vals end
  end.

(** The loop [for c in num_cols: df[c] = df[c].fillna(fill[c])]. *)
Definition fillna (cols : list string) (fill : ClimaRow → string → option Q)
    (rows : list ClimaRow) : list ClimaRow :=
  (λ r, mkClimaRow (cr_station r) (cr_month r)
          (foldr (fill_value (fill r)) (cr_values r) cols)) <$> rows.

(** The frame after step 1 and after step 2. *)
Definition impute_station_month (df : ClimaFrame) : list ClimaRow :=
  fillna (num_cols df) (station_month_median (cf_rows df)) (cf_rows df).
Definition impute_station (df : ClimaFrame) : list ClimaRow :=
  let rows1 := impute_station_month df in
  fillna (num_cols df) (station_median rows1) rows1.

Definition impute_station_climate_2017 (df : ClimaFrame) : ClimaFrame :=
  match cf_rows df with
  | [] => mkClimaFrame [] []
  | _ =>
      let rows2 := impute_station df in
      let med_global := global_median rows2 in
      mkClimaFrame (num_cols df) (fillna (num_cols df) (λ _, med_global) rows2)
  end.

(** The value of column [c] at row [i], null or not. *)
Definition value_at (rows : list ClimaRow) (i : nat) (c : string) : option Q :=
  r ← rows !! i; cr_values r !! c.

(** ** Vocabulary of the retry policy *)

(** The world after [n] more GETs of [url], and what the archive answers
    to the [k]-th of them (counting from 0). *)
Definition after_gets (url : string) (n : nat) (w : World) : World :=
  set_requests (repeat url n ++ requests w) w.
Definition outcome_at (w : World) (url : string) (k : nat) : Outcome :=
  remote w (repeat url k ++ requests w) url.

(** A response that [_get_json] takes for "no content": status 204, or
    any status with an empty body. *)
Definition bodyless (o : Outcome) : bool :=
  match o with
  | Response sc body => (sc =? 204) || body_is_empty body
  | _ => false
  end.

Definition transient_status (sc : Z) : bool :=
  (sc =? 429) || (sc =? 500) || (sc =? 502) || (sc =? 503) || (sc =? 504).

(** A transient failure as the retry policy names them: a connection reset,
    a malformed body under a good status, or HTTP 429/500/502/503/504. *)
Definition named_transient (o : Outcome) : bool :=
  match o with
  | ConnectionError => true
  | Raises _ => false
  | Response sc body =>
      transient_status sc
      || (negb (raise_for_status sc) && match body with BadBody => true | _ => false end)
  end.

(** A permanent failure as the retry policy names them: any 4xx but 429. *)
Definition named_permanent (o : Outcome) : bool :=
  match o with
  | Response sc _ => client_error_not_429 sc
  | _ => false
  end.

(** A success carrying the payload [j]. *)
Definition success_with (j : JSON) (o : Outcome) : Prop :=
  ∃ sc, o = Response sc (JsonBody j) ∧ sc ≠ 204 ∧ raise_for_status sc = false.

(** What one attempt of the loop of [_get_json] does with an outcome. *)
Inductive Step :=
| Return (j : JSON)
| Retry
| StopWith (e : Exn).

Definition step_of (o : Outcome) : Step :=
  match o with
  | Response sc body =>
      if (sc =? 204) || body_is_empty body then Return JNull
      else if raise_for_status sc then
        if client_error_not_429 sc then StopWith RuntimeError else Retry
      else match body with JsonBody j => Return j | _ => Retry end
  | ConnectionError => Retry
  | Raises e => StopWith e
  end.

(** The retry policy as the specification words it, with failures told
    apart by status alone. *)
Definition retry_policy_as_stated : Prop :=
  ∀ (url : string) (tries : nat) (w : World),
    (∀ n j, (1 ≤ n ≤ tries)%nat →
       (∀ i, (i < n - 1)%nat → named_transient (outcome_at w url i) = true) →
       success_with j (outcome_at w url (n - 1)) →
       (_get_json url tries w).1 = Ok j)
    ∧ ((∀ i, (i < tries)%nat → named_transient (outcome_at w url i) = true) →
       (_get_json url tries w).1 = Raise RuntimeError)
    ∧ (∀ k, (k < tries)%nat →
       (∀ i, (i < k)%nat → named_transient (outcome_at w url i) = true) →
       named_permanent (outcome_at w url k) = true →
       (_get_json url tries w).1 = Raise RuntimeError).

(** ** Vocabulary of the downloader and the ledger *)

(** [w'] is [w] after some GETs and nothing else: the cache directory, the
    ledgers and the archive are as they were. *)
Definition gets_only (w w' : World) : Prop :=
  ∃ l, w' = set_requests (l ++ requests w) w.

(** The same, the first of the GETs being [url]. *)
Definition gets_from (url : string) (w w' : World) : Prop :=
  ∃ l, w' = set_requests (l ++ url :: requests w) w.

Definition GetsOnly {A} (c : M A) : Prop := ∀ w, gets_only w (c w).2.

(** What one sub-range yields from [w]: the frame of [_fetch_range], or
    the empty frame when it raises, and the world it leaves. *)
Definition sub_range_result `{Externals} (stid : string) (range : string * string)
    (w : World) : DataFrame * World :=
  match _fetch_range stid range.1 range.2 3 w with
  | (Ok df, w') => (df, w')
  | (Raise _, w') => ([], w')
  end.

(** What one level of the partition yields from [w]: the non-empty frames
    of its sub-ranges, and the world they leave. *)
Definition level_result `{Externals} (stid : string) (rr : list (string * string))
    (w : World) : list DataFrame * World :=
  match fetch_level stid rr [] w with
  | (Ok frames, w') => (frames, w')
  | (Raise _, w') => ([], w')
  end.

(** The four levels of [year] tried one after the other from [w], whatever
    they yield. *)
Definition all_levels `{Externals} (stid : string) (year : Z) (w : World)
    : list (list DataFrame * World) :=
  let r1 := level_result stid (whole_year year) w in
  let r2 := level_result stid (halves year) r1.2 in
  let r3 := level_result stid (quarters year) r2.2 in
  let r4 := level_result stid (months year) r3.2 in
  [r1; r2; r3; r4].

(** No sub-range of any level yields a record. *)
Definition no_data_at_any_level `{Externals} (stid : string) (year : Z) (w : World)
    : Prop :=
  Forall (λ r, r.1 = []) (all_levels stid year w).

(** The cache contract as the specification words it: a hit hands back the
    stored content itself. *)
Definition cache_hit_as_stated : Prop :=
  ∀ (E : Externals) (stid : string) (year : Z) (w : World) (df : DataFrame),
    cache_files w !! cache_name stid year = Some (Stored df) →
    get_daily_climate_year stid year w = (Ok df, w).

(** The cell of column [c] in the first record of a returned frame. *)
Definition first_cell (r : Result DataFrame) (c : string) : Cell :=
  match r with
  | Ok (row :: _) => cell_at row c
  | _ => CNaN
  end.

(** The lines of a ledger file, none when it does not exist. *)
Definition lines (f : option (list string)) : list string := default [] f.

(** ** Vocabulary of the assigner *)

Definition active_in_year (year : Z) (s : Station) : bool :=
  active_between (year_start year) (year_end year) s.

(** [order] lists every index of [d] once, distances not decreasing. *)
Definition ascending_order (d : list Q) (order : list nat) : Prop :=
  order ≡ₚ seq 0 (length d)
  ∧ ∀ a b ja jb xa xb,
      (a ≤ b)%nat → order !! a = Some ja → order !! b = Some jb →
      d !! ja = Some xa → d !! jb = Some xb → (xa <= xb)%Q.

(** [a] names station [s], at index [j] of [st], for profile [p]. *)
Definition names_station `{Externals} (st : list Station) (p : Profile) (j : nat)
    (s : Station) (a : Assignment) : Prop :=
  st !! j = Some s
  ∧ profile_id a = pf_profile_id p
  ∧ nearest_station a = indicativo s
  ∧ station_name a = nombre s
  ∧ station_provincia a = provincia s
  ∧ distances st p !! j = Some (distance_km a).

(** The assignment the algorithm owes profile [p] over the stations [st]:
    the first station active in [year] along the ascending order, with its
    1-based place in that order; or, none being active, the head of the
    order, which is a nearest station, flagged inactive with rank 1. *)
Definition chosen_for `{Externals} (st : list Station) (year : Z) (p : Profile)
    (a : Assignment) : Prop :=
  let order := argsort (distances st p) in
  (∃ k j s,
     order !! k = Some j ∧ names_station st p j s a
     ∧ active_in_year year s = true
     ∧ (∀ k' j' s', (k' < k)%nat → order !! k' = Some j' → st !! j' = Some s' →
          active_in_year year s' = false)
     ∧ station_rank_used a = S k
     ∧ station_active_2017 a = true)
  ∨ ((∀ s, s ∈ st → active_in_year year s = false)
     ∧ ∃ j s,
         order !! 0%nat = Some j ∧ names_station st p j s a
         ∧ (∀ x, x ∈ distances st p → (distance_km a <= x)%Q)
         ∧ station_rank_used a = 1%nat
         ∧ station_active_2017 a = false).

(** Total coverage as the specification words it: any non-empty station
    list will do. *)
Definition total_coverage_as_stated : Prop :=
  ∀ (E : Externals) (perfiles : list Profile) (stations : list Station) (year : Z)
    (p : Profile),
    p ∈ perfiles → has_coords (pf_lat p) (pf_lon p) = true →
    stations ≠ [] →
    ∃ out, assign_nearest_station perfiles stations year = Ok out.

(** ** Vocabulary of the imputation *)

(** The cascade as the specification words it: each level's median taken
    over the non-null values of the input. *)
Definition cascade_from_input (df : ClimaFrame) (i : nat) (c : string) : option Q :=
  r ← cf_rows df !! i;
  match cr_values r !! c with
  | Some v => Some v
  | None =>
      match station_month_median (cf_rows df) r c with
      | Some m => Some m
      | None =>
          match station_median (cf_rows df) r c with
          | Some m => Some m
          | None => global_median (cf_rows df) c
          end
      end
  end.

(** The cascade as the code runs it: the station median is taken after
    step 1 and the global median after step 2, imputed values included. *)
Definition cascade_in_sequence (df : ClimaFrame) (i : nat) (c : string) : option Q :=
  r ← cf_rows df !! i;
  match cr_values r !! c with
  | Some v => Some v
  | None =>
      match station_month_median (cf_rows df) r c with
      | Some m => Some m
      | None =>
          match station_median (impute_station_month df) r c with
          | Some m => Some m
          | None => global_median (impute_station df) c
          end
      end
  end.

(** The cascade property as the specification words it. *)
Definition cascade_as_stated : Prop :=
  ∀ (df : ClimaFrame) (i : nat) (c : string),
    c ∈ num_cols df →
    value_at (cf_rows (impute_station_climate_2017 df)) i c = cascade_from_input df i c.

(** ** A sample instance of the external collaborators

    Small stand-ins, enough to run the pipeline on the worked examples:
    plain decimal literals, ISO dates, coordinates in decimal degrees, and
    a taxicab distance at 111 km per degree.  No property below depends on
    them. *)

Fixpoint digits_value (acc : N) (s : string) : option N :=
  match s with
  | EmptyString => Some acc
  | String a s' =>
      let n := N_of_ascii a in
      if ((48 <=? n) && (n <=? 57))%N then digits_value (acc * 10 + (n - 48))%N s'
      else None
  end.

Definition parse_digits (s : string) : option N :=
  match s with
  | EmptyString => None
  | _ => digits_value 0%N s
  end.

(** [s] up to the first [sep], and what follows it if there is one. *)
Fixpoint split_once (sep : ascii) (s : string) : string * option string :=
  match s with
  | EmptyString => (EmptyString, None)
  | String a s' =>
      if Ascii.eqb a sep then (EmptyString, Some s')
      else let '(l, r) := split_once sep s' in (String a l, r)
  end.

Definition sample_to_numeric (s : string) : option Q :=
  let '(neg, body) :=
    match s with
    | String "-"%char r => (true, r)
    | _ => (false, s)
    end in
  let '(int_part, frac_part) := split_once "."%char body in
  i ← parse_digits int_part;
  x ← match frac_part with
      | None => Some (inject_Z (Z.of_N i))
      | Some f =>
          d ← parse_digits f;
          Some (Qred (Qmake (Z.of_N (i * 10 ^ N.of_nat (String.length f) + d))
                            (Pos.of_nat (10 ^ String.length f))))
      end;
  Some (if neg : bool then Qopp x else x).

Definition sample_to_datetime (c : Cell) : option Timestamp :=
  match c with
  | CTime t => Some t
  | CStr s =>
      let '(y, rest) := split_once "-"%char s in
      rest ← rest;
      let '(m, d) := split_once "-"%char rest in
      d ← d;
      y ← parse_digits y; m ← parse_digits m; d ← parse_digits d;
      Some (mkTimestamp (Z.of_N y) (Z.of_N m) (Z.of_N d) 0 0 0)
  | _ => None
  end.

Definition sample_parse_dms (c : Cell) : option Q :=
  match c with
  | CNum x => Some x
  | CStr s => sample_to_numeric s
  | _ => None
  end.

Definition sample_astype_str (c : Cell) : string :=
  match c with
  | CStr s => s
  | CNum x => pretty (Qfloor x)
  | CNaN => "nan"
  | CTime t => pretty (ts_year t)
  end.

Definition sample_distance (plat plon slat slon : Q) : Q :=
  (111 * (Qabs (plat - slat) + Qabs (plon - slon)))%Q.

Definition sample_externals : Externals :=
  {| to_numeric := sample_to_numeric;
     to_datetime := sample_to_datetime;
     _parse_aemet_dms := sample_parse_dms;
     astype_str := sample_astype_str;
     haversine_km := sample_distance |}.

(** ** Sample archives and cache directories *)

Definition fresh_world (r : list string → string → Outcome) : World :=
  mkWorld r [] ∅ None None.

Definition one_record : Row := {[ "fecha" := CStr "2017-03-01"; "prec" := CStr "Ip" ]}.

(** Answers 503 without a body once, then 200 with a payload. *)
Definition bodyless_503_then_ok : World :=
  fresh_world (λ log _,
    match log with
    | [] => Response 503 NoBody
    | _ => Response 200 (JsonBody (JArray [one_record]))
    end).

(** Answers 404 without a body. *)
Definition bodyless_404 : World :=
  fresh_world (λ _ _, Response 404 NoBody).

(** Resets the connection twice, then answers 200 with a payload. *)
Definition flaky_then_ok : World :=
  fresh_world (λ log _,
    match log with
    | [] | [_] => ConnectionError
    | _ => Response 200 (JsonBody (JArray [one_record]))
    end).

(** Answers 503 with an error page, always. *)
Definition always_503 : World :=
  fresh_world (λ _ _, Response 503 BadBody).

(** Answers 404 with an error page, always. *)
Definition always_404 : World :=
  fresh_world (λ _ _, Response 404 BadBody).

(** Answers 204, always. *)
Definition always_204 : World :=
  fresh_world (λ _ _, Response 204 NoBody).

(** A first run against an archive that has nothing at all. *)
Definition nothing_anywhere : World := fresh_world (λ _ _, Response 204 NoBody).

(** An archive with a gap: station "3195" has nothing for the whole year
    nor for the first semester of 2017, and one record for the second. *)
Definition second_semester_only : World :=
  fresh_world (λ _ url,
    if bool_decide (url = _range_url "3195" "2017-07-01" "2017-12-31")
    then Response 200 (JsonBody (JObject {[ "datos" := CStr "https://opendata.aemet.es/sh/1" ]}))
    else if bool_decide (url = "https://opendata.aemet.es/sh/1")
    then Response 200 (JsonBody (JArray [one_record]))
    else Response 204 NoBody).

(** A cache directory holding the raw payload [one_record] for station
    "3195" and 2017, in front of an archive that is down. *)
Definition raw_cache_hit : World :=
  mkWorld (λ _ _, ConnectionError) []
    {[ "climate_3195_2017.json" := Stored [one_record] ]} None None.

(** An unreadable cache file for the same key, in front of the archive
    [second_semester_only]. *)
Definition corrupt_cache : World :=
  set_cache_files {[ "climate_3195_2017.json" := Corrupt ]} second_semester_only.

(** Two profiles on station "3195", one on "0016A", one left unassigned. *)
Definition sample_perfiles : list (string * option string) :=
  [("P1", Some "3195"); ("P2", Some "0016A"); ("P3", Some "3195"); ("P4", None)].

(** A restart: "3195" is in the done ledger, "0016A" only in the failed
    one; the archive has nothing. *)
Definition restart_world : World :=
  mkWorld (λ _ _, Response 204 NoBody) [] ∅ (Some ["3195"]) (Some ["0016A"]).

(** A cached inventory of two stations, one closed before 2017. *)
Definition inventory_cached : World :=
  mkWorld (λ _ _, ConnectionError) []
    {[ "stations.json" :=
         Stored [ {[ "indicativo" := CStr "S"; "nombre" := CStr "Sur";
                     "provincia" := CStr "MADRID";
                     "latitud" := CStr "40.0"; "longitud" := CStr "-3.0";
                     "fechaAlta" := CStr "1990-01-01" ]};
                  {[ "indicativo" := CStr "T"; "nombre" := CStr "Torre";
                     "provincia" := CStr "MADRID";
                     "latitud" := CStr "40.005"; "longitud" := CStr "-3.005";
                     "fechaAlta" := CStr "1990-01-01";
                     "fechaBaja" := CStr "2016-12-31" ]} ] ]}
    None None.

(** ** Sample stations, profiles and climate frames *)

Definition station_S : Station :=
  mkStation "S" "Sur" "MADRID" (Some 40%Q) (Some (-3)%Q)
    (Some (mkTimestamp 1990 1 1 0 0 0)) None.

(** Nearer to [profile_P] than [station_S], but closed on 2016-12-31. *)
Definition station_T : Station :=
  mkStation "T" "Torre" "MADRID" (Some (40005 # 1000)%Q) (Some (-3005 # 1000)%Q)
    (Some (mkTimestamp 1990 1 1 0 0 0)) (Some (mkTimestamp 2016 12 31 0 0 0)).

(** A station whose coordinates did not parse. *)
Definition station_nowhere : Station :=
  mkStation "N" "Nada" "MADRID" None None None None.

Definition profile_P : Profile :=
  mkProfile "P" (Some (4001 # 100)%Q) (Some (-301 # 100)%Q).

(** Station "A": January has 0 and two nulls, February has 10 and 20, and
    the one March day is null. *)
Definition skewed_station : ClimaFrame :=
  mkClimaFrame ["tmed"]
    [ mkClimaRow "A" (Some 1) {[ "tmed" := 0%Q ]};
      mkClimaRow "A" (Some 1) ∅;
      mkClimaRow "A" (Some 1) ∅;
      mkClimaRow "A" (Some 2) {[ "tmed" := 10%Q ]};
      mkClimaRow "A" (Some 2) {[ "tmed" := 20%Q ]};
      mkClimaRow "A" (Some 3) ∅ ].

(** The scenario of the specification: three nulls and a 10 for station
    "A" in March, and a station "B" whose values put the global median
    at 5. *)
Definition march_scenario : ClimaFrame :=
  mkClimaFrame ["tmed"]
    [ mkClimaRow "A" (Some 3) ∅;
      mkClimaRow "A" (Some 3) ∅;
      mkClimaRow "A" (Some 3) {[ "tmed" := 10%Q ]};
      mkClimaRow "A" (Some 3) ∅;
      mkClimaRow "B" (Some 4) {[ "tmed" := 4%Q ]};
      mkClimaRow "B" (Some 4) {[ "tmed" := 5%Q ]};
      mkClimaRow "B" (Some 4) {[ "tmed" := 5%Q ]};
      mkClimaRow "B" (Some 4) {[ "tmed" := 1%Q ]} ].

(** ** The pooled session: [_get_session]

    [_new_session] builds a fresh [requests.Session]; only its identity
    matters here, so a session is named by its order of creation.  The
    module starts with [_SESSION = None] and [_SESSION_USES = 0]. *)
Record SessionPool := mkSessionPool {
  _SESSION : option nat;
  _SESSION_USES : nat;
  sessions_created : nat }.

Definition pool_at_import : SessionPool := mkSessionPool None 0 0.

Definition _new_session (p : SessionPool) : nat * SessionPool :=
  (sessions_created p,
   mkSessionPool (_SESSION p) (_SESSION_USES p) (S (sessions_created p))).

(** [if _SESSION is None or _SESSION_USES >= 25: ...; _SESSION_USES += 1] *)
Definition _get_session (p : SessionPool) : nat * SessionPool :=
  let rotate :=
    let '(s, p1) := _new_session p in
    mkSessionPool (Some s) 0 (sessions_created p1) in
  let p1 :=
    match _SESSION p with
    | None => rotate
    | Some _ => if (25 <=? _SESSION_USES p)%nat then rotate else p
    end in
  (default 0%nat (_SESSION p1),
   mkSessionPool (_SESSION p1) (S (_SESSION_USES p1)) (sessions_created p1)).

(** The sessions handed out by [n] calls in a row. *)
Fixpoint session_calls (n : nat) (p : SessionPool) : list nat :=
  match n with
  | O => []
  | S n' => let '(s, p1) := _get_session p in s :: session_calls n' p1
  end.

(** Resets the connection once, then times out while reading: an
    exception that is neither a connection error nor an HTTP error. *)
Definition reset_then_timeout : World :=
  fresh_world (λ log _,
    match log with
    | [] => ConnectionError
    | _ => Raises (OtherError "ReadTimeout")
    end).

(** ** Vocabulary of the request budget *)

(** [w'] is [w] after at most [n] more GETs, whatever else was written. *)
Definition spends (n : nat) (w w' : World) : Prop :=
  ∃ l, requests w' = l ++ requests w ∧ (length l ≤ n)%nat.

Definition Spends {A} (n : nat) (c : M A) : Prop := ∀ w, spends n w (c w).2.

(** The sub-ranges of the four levels of a year: 1 + 2 + 4 + 12. *)
Definition sub_ranges_per_year : nat := 19.

(** The GETs one sub-range can cost: 5 for the metadata, and in each of
    the 3 rounds 6 for the short URL and 5 for a refresh. *)
Definition gets_per_sub_range : nat := 5 + 3 * (6 + 5).

(** ** Header detection: [_detect_header_idx]

    The file is the list of its lines.  Lines are taken as ASCII text:
    [lower] folds the letters A to Z only. *)

Definition HDR_KEYWORDS : list string :=
  ["latitude"; "longitude"; "lcc"; "description"; "corine"; "sample id";
   "depth"; "horizon"].

(** [s.count(a)] for one character. *)
Fixpoint count_char (a : ascii) (s : string) : Z :=
  match s with
  | EmptyString => 0
  | String b s' => (if Ascii.eqb a b then 1 else 0) + count_char a s'
  end.

(** [kw in s] *)
Definition contains (kw s : string) : bool :=
  match String.index 0 kw s with
  | Some _ => true
  | None => false
  end.

(** [raw.startswith("/")]: a PANGAEA comment. *)
Definition is_comment (raw : string) : bool := String.prefix "/" raw.

(** [raw.count("\t")] *)
Definition tabs_of (raw : string) : Z := count_char "009"%char raw.

(** [sum(kw in low for kw in HDR_KEYWORDS)] *)
Definition header_score (raw : string) : Z :=
  Z.of_nat (length (filter (λ kw, contains kw (lower raw) = true) HDR_KEYWORDS)).

Record Best := mkBest {
  best_idx : option nat;
  best_tabs : Z;
  best_score : Z }.

(** The body of the first loop. *)
Definition header_step (b : Best) (i : nat) (raw : string) : Best :=
  if is_comment raw then b
  else
    let tabs := tabs_of raw in
    if tabs <? 5 then b
    else
      let score := header_score raw in
      if (3 <=? score)
         && ((best_tabs b <? tabs) || ((tabs =? best_tabs b) && (best_score b <? score)))
      then mkBest (Some i) tabs score
      else b.

(** The body of the fallback loop. *)
Definition fallback_step (b : Best) (i : nat) (raw : string) : Best :=
  if is_comment raw then b
  else
    let tabs := tabs_of raw in
    if best_tabs b <? tabs then mkBest (Some i) tabs (best_score b) else b.

(** [for i, raw in enumerate(lines): b = step(b, i, raw)], counting from [i]. *)
Fixpoint scan_lines (step : Best → nat → string → Best) (i : nat)
    (lines : list string) (b : Best) : Best :=
  match lines with
  | [] => b
  | raw :: rest => scan_lines step (S i) rest (step b i raw)
  end.

Definition _detect_header_idx (lines : list string) : nat :=
  let head := take 1000 lines in
  let b := scan_lines header_step 0 head (mkBest None (-1) (-1)) in
  match best_idx b with
  | Some i => i
  | None =>
      let b := scan_lines fallback_step 0 head b in
      match best_idx b with
      | Some i => i
      | None => 0%nat
      end
  end.

(** A line the first loop accepts as a header: no comment, at least five
    tabs, at least three keywords. *)
Definition header_candidate (raw : string) : bool :=
  negb (is_comment raw) && (5 <=? tabs_of raw) && (3 <=? header_score raw).

(** [b] beats [a]: more tabs, or as many tabs and a higher score. *)
Definition better_header (a b : string) : Prop :=
  tabs_of a < tabs_of b ∨ (tabs_of a = tabs_of b ∧ header_score a < header_score b).

(** A line of tab-separated cells. *)
Definition tab_line (cells : list string) : string :=
  String.concat (String "009"%char EmptyString) cells.

(** A small PANGAEA file: a comment, a short line, two header-like lines
    and a data line. *)
Definition sample_tab_file : list string :=
  [ "/* DATA DESCRIPTION:";
    tab_line ["Citation:"; "Rodriguez"];
    tab_line ["Latitude"; "Longitude"; "Depth"; "a"; "b"; "c"];
    tab_line ["Sample ID"; "Latitude"; "Longitude"; "Depth"; "Horizon"; "x"];
    tab_line ["1"; "40.1"; "-3.2"; "0.1"; "A"; "9"] ].

(** ** Vocabulary of the year table *)

(** The sub-range from the first day of month [a] to the last day of month
    [b] of [year]. *)
Definition month_span (year a b : Z) : string * string :=
  (pretty year +:+ "-" +:+ fmt02 a +:+ "-01",
   pretty year +:+ "-" +:+ fmt02 b +:+ "-" +:+ fmt02 (_last_day_of_month year b)).

(** ** The coordinate parser: [_parse_aemet_dms]

    The parser as the source writes it, where the acquisition core above
    takes it as a collaborator.  Text is a string of bytes (UTF-8), and
    letters, digits and white space are the ASCII ones.  [float] applied
    to free text is left to Python: it is a parameter that raises, returns
    NaN or an infinity, or returns a number.  Applied to a run of digits it
    is the number the digits write. *)
Module Dms.

Inductive PyFloat :=
| FloatError
| NonFinite
| Finite (x : Q).

Definition upper_ascii (a : ascii) : ascii :=
  let n := nat_of_ascii a in
  if ((97 <=? n) && (n <=? 122))%nat then ascii_of_nat (n - 32) else a.

Fixpoint upper (s : string) : string :=
  match s with
  | String a s' => String (upper_ascii a) (upper s')
  | EmptyString => EmptyString
  end.

Definition is_digit (a : ascii) : bool :=
  let n := nat_of_ascii a in ((48 <=? n) && (n <=? 57))%nat.

(** [s.replace(old, new)] for a non-empty [old]: occurrences are found
    from the left and do not overlap; [skip] counts the characters of an
    occurrence still to pass over. *)
Fixpoint replace_from (old new : string) (skip : nat) (s : string) : string :=
  match s with
  | EmptyString => EmptyString
  | String c s' =>
      match skip with
      | S k => replace_from old new k s'
      | O =>
          if String.prefix old s
          then new +:+ replace_from old new (String.length old - 1) s'
          else String c (replace_from old new 0 s')
      end
  end.

Definition replace (old new s : string) : string := replace_from old new 0 s.

(** [re.sub(r"\D", "", t)] *)
Fixpoint only_digits (s : string) : string :=
  match s with
  | EmptyString => EmptyString
  | String c s' => if is_digit c then String c (only_digits s') else only_digits s'
  end.

(** The number a run of digits writes. *)
Fixpoint digits_N (acc : N) (s : string) : N :=
  match s with
  | EmptyString => acc
  | String c s' => digits_N (acc * 10 + (N_of_ascii c - 48)) s'
  end.

Definition float_of_digits (s : string) : Q := inject_Z (Z.of_N (digits_N 0 s)).

(** [t[-1]] and [t[:-1]] *)
Definition last_char (t : string) : option ascii :=
  match String.rev t with
  | String c _ => Some c
  | EmptyString => None
  end.
Definition drop_last (t : string) : string :=
  match String.rev t with
  | String _ r => String.rev r
  | EmptyString => EmptyString
  end.

(** [t[-1] in "NSEW"] *)
Definition is_hemisphere (c : ascii) : bool :=
  Ascii.eqb c "N" || Ascii.eqb c "S" || Ascii.eqb c "E" || Ascii.eqb c "W".

(** The hemisphere letter that ends [t], and [t] without it. *)
Definition split_hemisphere (t : string) : option ascii * string :=
  match last_char t with
  | Some c => if is_hemisphere c then (Some c, strip (drop_last t)) else (None, t)
  | None => (None, t)
  end.

(** The degree, prime and double prime signs, typographic or plain. *)
Definition degree_signs : list string :=
  [ String "194" (String "186" EmptyString);
    String "194" (String "176" EmptyString);
    String "226" (String "128" (String "153" EmptyString));
    "'";
    String "226" (String "128" (String "179" EmptyString));
    String "034" EmptyString ].

Definition normalise (t : string) : string :=
  strip (replace "  " " " (foldl (λ acc sign, replace sign " " acc) t degree_signs)).

(** The sign the hemisphere gives, and the range check that ends each of
    the three ways through the parser. *)
Definition with_hemisphere (hem : option ascii) (val : Q) : Q :=
  match hem with
  | Some h =>
      if Ascii.eqb h "S" || Ascii.eqb h "W" then (- Qabs val)%Q
      else if Ascii.eqb h "N" || Ascii.eqb h "E" then Qabs val
      else val
  | None => val
  end.

Definition in_range (hem : option ascii) (val : Q) : option Q :=
  let val := with_hemisphere hem val in
  if Qle_bool (-180) val && Qle_bool val 180 then Some val else None.

(** Degrees, minutes and seconds written without separators: DDMM,
    DDDMM, DDMMSS, DDDMMSS. *)
Definition compact_value (od : string) : Q :=
  let L := String.length od in
  if (6 <=? L)%nat
  then (float_of_digits (String.substring 0 (L - 4) od)
        + float_of_digits (String.substring (L - 4) 2 od) / 60
        + float_of_digits (String.substring (L - 2) 2 od) / 3600)%Q
  else (float_of_digits (String.substring 0 (L - 2) od)
        + float_of_digits (String.substring (L - 2) 2 od) / 60
        + 0 / 3600)%Q.

(** The matcher of [_DNUM = [-+]?\d+(?:[.,]\d+)?], one character at a
    time: what of a number has been read so far. *)
Inductive Scan :=
| Idle
| Signed (sign : ascii)
| IntPart (acc : string)
| AfterSep (acc : string) (sep : ascii)
| FracPart (acc : string).

Definition is_sign (c : ascii) : bool := Ascii.eqb c "-" || Ascii.eqb c "+".
Definition is_sep (c : ascii) : bool := Ascii.eqb c "." || Ascii.eqb c ",".

Definition snoc (s : string) (c : ascii) : string := s +:+ String c EmptyString.

(** A match starts at [c], or does not. *)
Definition restart (c : ascii) : Scan :=
  if is_digit c then IntPart (String c EmptyString)
  else if is_sign c then Signed c
  else Idle.

(** [_DNUM.findall(s)], continued from the state [st]. *)
Fixpoint findall_from (st : Scan) (s : string) : list string :=
  match s with
  | EmptyString =>
      match st with
      | IntPart acc | AfterSep acc _ | FracPart acc => [acc]
      | Idle | Signed _ => []
      end
  | String c s' =>
      match st with
      | Idle => findall_from (restart c) s'
      | Signed sign =>
          if is_digit c
          then findall_from (IntPart (String sign (String c EmptyString))) s'
          else findall_from (restart c) s'
      | IntPart acc =>
          if is_digit c then findall_from (IntPart (snoc acc c)) s'
          else if is_sep c then findall_from (AfterSep acc c) s'
          else acc :: findall_from (restart c) s'
      | AfterSep acc sep =>
          if is_digit c then findall_from (FracPart (snoc (snoc acc sep) c)) s'
          else acc :: findall_from (restart c) s'
      | FracPart acc =>
          if is_digit c then findall_from (FracPart (snoc acc c)) s'
          else acc :: findall_from (restart c) s'
      end
  end.

Definition findall (s : string) : list string := findall_from Idle s.

(** [float(num.replace(",", "."))] on a match of [_DNUM]. *)
Definition float_of_match (num : string) : Q :=
  let '(negative, body) :=
    match num with
    | String "-" r => (true, r)
    | String "+" r => (false, r)
    | _ => (false, num)
    end in
  let '(int_part, frac_part) := split_once "."%char (comma_to_dot body) in
  let x :=
    match frac_part with
    | None => float_of_digits int_part
    | Some f =>
        (float_of_digits int_part
         + float_of_digits f / inject_Z (10 ^ Z.of_nat (String.length f)))%Q
    end in
  if negative : bool then (- x)%Q else x.

Section Parser.
Context `{Externals}.
(** [float(s)] on free text. *)
Variable float : string → PyFloat.

(** [str(s)] *)
Definition py_str (s : Cell) : string :=
  match s with
  | CStr s => s
  | _ => astype_str s
  end.

Definition _parse_aemet_dms (s : Cell) : option Q :=
  match s with
  | CNaN => None
  | _ =>
      let t := upper (strip (py_str s)) in
      if bool_decide (t = "") then None
      else
        let '(hem, t) := split_hemisphere t in
        let t_norm := normalise t in
        let od := only_digits t in
        if negb (bool_decide (od = ""))
           && bool_decide (replace " " "" t_norm = od)
           && (4 <=? String.length od)%nat
        then in_range hem (compact_value od)
        else
          match float (comma_to_dot t_norm) with
          | Finite val => in_range hem val
          | NonFinite => None
          | FloatError =>
              match findall t_norm with
              | [] => None
              | deg :: rest =>
                  let minu := match rest with
                              | m :: _ => float_of_match m
                              | [] => 0%Q
                              end in
                  let sec := match rest with
                             | _ :: s :: _ => float_of_match s
                             | _ => 0%Q
                             end in
                  in_range hem (float_of_match deg + minu / 60 + sec / 3600)%Q
              end
          end
  end.

End Parser.

(** A stand-in for [float] on free text: plain decimal literals. *)
Definition sample_float (s : string) : PyFloat :=
  match sample_to_numeric s with
  | Some x => Finite x
  | None => FloatError
  end.

End Dms.

(** ** Vocabulary of the coordinate parser *)

(** Every character of [s] satisfies [P]. *)
Fixpoint string_all (P : ascii → bool) (s : string) : bool :=
  match s with
  | EmptyString => true
  | String c s' => P c && string_all P s'
  end.

(** The hemisphere letter [_parse_aemet_dms] finds at the end of [s]. *)
Definition hemisphere_of `{Externals} (s : Cell) : option ascii :=
  (Dms.split_hemisphere (Dms.upper (strip (Dms.py_str s)))).1.

(** ** Climate aggregates: [build_climate_aggregates]

    The frame of daily records by profile, as [main] hands it over: a
    [profile_id] on every row (a string, after [astype(str)]) and numeric
    measurements, a missing one being null.  [pf_columns] lists the
    columns of the frame besides [profile_id]. *)
Record ProfileDay := mkProfileDay {
  pd_profile_id : string;
  pd_values : gmap string Q }.

Record ProfileFrame := mkProfileFrame {
  pf_columns : list string;
  pf_rows : list ProfileDay }.

(** One row of the aggregated table; a value missing from [ag_values] is
    NaN. *)
Record AggRow := mkAggRow {
  ag_profile_id : string;
  ag_values : gmap string Q }.

Record AggFrame := mkAggFrame {
  ag_columns : list string;
  ag_rows : list AggRow }.

Inductive AggFun :=
| AggMean
| AggSum
| AggCountPositive.

Definition Qsum (xs : list Q) : Q := foldr Qplus 0%Q xs.

(** ["mean"]: nulls are skipped; NaN for a group without values. *)
Definition mean (xs : list Q) : option Q :=
  match xs with
  | [] => None
  | _ => Some (Qsum xs / inject_Z (Z.of_nat (length xs)))%Q
  end.

(** [(s > 0).sum()]: a null is not greater than 0. *)
Definition count_positive (xs : list Q) : nat :=
  length (filter (λ x, Qle_bool x 0 = false) xs).

(** One aggregation on the non-null values of a group; ["sum"] of none
    is 0. *)
Definition agg_apply (f : AggFun) (xs : list Q) : option Q :=
  match f with
  | AggMean => mean xs
  | AggSum => Some (Qsum xs)
  | AggCountPositive => Some (inject_Z (Z.of_nat (count_positive xs)))
  end.

(** The dictionary [aggs]: output column, input column, aggregation. *)
Definition named_aggs (cols : list string) : list (string * (string * AggFun)) :=
  (if bool_decide ("tmed" ∈ cols) then [("tmed_mean_2017", ("tmed", AggMean))] else [])
  ++ (if bool_decide ("tmax" ∈ cols) then [("tmax_mean_2017", ("tmax", AggMean))] else [])
  ++ (if bool_decide ("tmin" ∈ cols) then [("tmin_mean_2017", ("tmin", AggMean))] else [])
  ++ (if bool_decide ("prec" ∈ cols)
      then [("prec_sum_2017", ("prec", AggSum));
            ("n_dias_lluvia", ("prec", AggCountPositive))]
      else []).

(** The non-null values of column [c] in the group of profile [id]. *)
Definition group_values (rows : list ProfileDay) (id c : string) : list Q :=
  omap (λ r, pd_values r !! c) (filter (λ r, pd_profile_id r = id) rows).

(** The keys of [groupby("profile_id")]: each once, in ascending order. *)
Definition group_keys (rows : list ProfileDay) : list string :=
  merge_sort String.le (remove_dups (pd_profile_id <$> rows)).

Definition aggregate_group (rows : list ProfileDay)
    (aggs : list (string * (string * AggFun))) (id : string) : AggRow :=
  mkAggRow id
    (foldr (λ a m, match agg_apply a.2.2 (group_values rows id a.2.1) with
                   | Some v => <[a.1 := v]> m
                   | None => m
                   end) ∅ aggs).

(** [groupby(...).agg()] without any aggregation is refused. *)
Definition build_climate_aggregates (climate_df : ProfileFrame) : Result AggFrame :=
  match pf_rows climate_df with
  | [] =>
      Ok (mkAggFrame ["profile_id"; "tmed_mean_2017"; "tmax_mean_2017";
                      "tmin_mean_2017"; "prec_sum_2017"; "n_dias_lluvia"] [])
  | _ =>
      match named_aggs (pf_columns climate_df) with
      | [] => Raise TypeError
      | aggs =>
          Ok (mkAggFrame ("profile_id" :: aggs.*1)
                (aggregate_group (pf_rows climate_df) aggs
                   <$> group_keys (pf_rows climate_df)))
      end
  end.

(** Two profiles: "P1" with a dry and a wet day and one day without a
    reading, "P2" with a trace of rain. *)
Definition sample_climate_df : ProfileFrame :=
  mkProfileFrame ["fecha"; "tmed"; "prec"]
    [ mkProfileDay "P2" {[ "tmed" := 11%Q; "prec" := (1 # 10)%Q ]};
      mkProfileDay "P1" {[ "tmed" := 10%Q; "prec" := 0%Q ]};
      mkProfileDay "P1" {[ "tmed" := 14%Q; "prec" := 5%Q ]};
      mkProfileDay "P1" {[ "tmed" := 12%Q ]} ].

(** * Properties *)

(** ** HttpRetryClient *)

Lemma after_gets_0 url w : after_gets url 0 w = w.
Proof. by destruct w. Qed.

Lemma repeat_middle {A} (x : A) n l : repeat x n ++ x :: l = x :: repeat x n ++ l.
Proof. induction n as [|n IH]; simpl; [done|]. by rewrite IH. Qed.

Lemma after_gets_S url n w :
  after_gets url n (set_requests (url :: requests w) w) = after_gets url (S n) w.
Proof. unfold after_gets, set_requests; simpl. by rewrite repeat_middle. Qed.

Lemma outcome_at_S url k w :
  outcome_at (set_requests (url :: requests w) w) url k = outcome_at w url (S k).
Proof.
  unfold outcome_at; simpl. by rewrite repeat_middle.
Qed.

(** One attempt: the loop does what [step_of] says of the outcome. *)
Lemma _get_json_from_step url rest w :
  _get_json_from url (S rest) w =
  match step_of (outcome_at w url 0) with
  | Return j => (Ok j, after_gets url 1 w)
  | Retry => _get_json_from url rest (after_gets url 1 w)
  | StopWith e => (Raise e, after_gets url 1 w)
  end.
Proof.
  unfold outcome_at, after_gets; simpl.
  destruct (remote w (requests w) url) as [|e|sc body]; simpl; try done.
  destruct ((sc =? 204) || body_is_empty body); [done|].
  destruct (raise_for_status sc).
  - by destruct (client_error_not_429 sc).
  - by destruct body.
Qed.

(** [k] attempts that all end in a retry use up [k] GETs and [k] tries. *)
Lemma _get_json_from_retries url k rest w :
  (∀ i, (i < k)%nat → step_of (outcome_at w url i) = Retry) →
  _get_json_from url (k + rest) w = _get_json_from url rest (after_gets url k w).
Proof.
  revert w. induction k as [|k IH]; intros w Hk.
  - by rewrite after_gets_0.
  - change (S k + rest)%nat with (S (k + rest)).
    rewrite _get_json_from_step, (Hk 0%nat) by lia.
    change (after_gets url 1 w) with (set_requests (url :: requests w) w).
    rewrite IH, after_gets_S; [done|].
    intros i Hi. rewrite outcome_at_S. apply Hk. lia.
Qed.

Lemma step_of_transient o :
  named_transient o = true → bodyless o = false → step_of o = Retry.
Proof.
  destruct o as [|e|sc body]; simpl; try done.
  intros Ht Hb. rewrite Hb.
  unfold transient_status, raise_for_status, client_error_not_429 in *.
  destruct body; simpl in *;
    repeat case_match; try done; lia.
Qed.

Lemma step_of_permanent o :
  named_permanent o = true → bodyless o = false → step_of o = StopWith RuntimeError.
Proof.
  destruct o as [|e|sc body]; simpl; try done.
  intros Hp Hb. rewrite Hb, Hp.
  unfold raise_for_status, client_error_not_429 in *.
  repeat case_match; try done; lia.
Qed.

Lemma step_of_success j o : success_with j o → step_of o = Return j.
Proof.
  intros (sc & -> & Hsc & Hok); simpl. rewrite Hok.
  by destruct (Z.eqb_spec sc 204).
Qed.

Lemma step_of_bodyless o : bodyless o = true → step_of o = Return JNull.
Proof. destruct o as [|e|sc body]; simpl; try done. by intros ->. Qed.

Lemma _get_json_bodyless url tries w k :
  (k < tries)%nat →
  (∀ i, (i < k)%nat → step_of (outcome_at w url i) = Retry) →
  bodyless (outcome_at w url k) = true →
  _get_json url tries w = (Ok JNull, after_gets url (S k) w).
Proof.
  intros Hk Hretry Hb. unfold _get_json.
  replace tries with (k + S (tries - S k))%nat by lia.
  rewrite _get_json_from_retries by done.
  rewrite _get_json_from_step.
  assert (outcome_at (after_gets url k w) url 0 = outcome_at w url k) as -> by done.
  by rewrite step_of_bodyless.
Qed.

(** C8.  A 204 status, or a response without a body, makes [_get_json]
    return [None] as a result, not as a failure: whenever the attempts
    before it were retried and attempt [k] (within [tries]) gets such a
    response, the call returns [Ok JNull], raises nothing, and has issued
    exactly [k + 1] GETs, so none of the remaining tries is used. *)
Theorem get_json_no_content (url : string) (tries : nat) (w : World) (k : nat) :
  (k < tries)%nat →
  (∀ i, (i < k)%nat → step_of (outcome_at w url i) = Retry) →
  bodyless (outcome_at w url k) = true →
  _get_json url tries w = (Ok JNull, after_gets url (S k) w).
Proof. apply _get_json_bodyless. Qed.

Lemma get_json_no_content_witness :
  _get_json "https://opendata.aemet.es/x" 5 always_204
  = (Ok JNull, after_gets "https://opendata.aemet.es/x" 1 always_204).
Proof.
  apply (get_json_no_content _ 5 always_204 0); [lia | intros; lia | reflexivity].
Defined.

Lemma transient_retries url w n :
  (∀ i, (i < n)%nat →
     named_transient (outcome_at w url i) = true
     ∧ bodyless (outcome_at w url i) = false) →
  ∀ i, (i < n)%nat → step_of (outcome_at w url i) = Retry.
Proof. intros H i Hi. destruct (H i Hi). by apply step_of_transient. Qed.

Lemma outcome_at_after_gets url k w :
  outcome_at (after_gets url k w) url 0 = outcome_at w url k.
Proof. done. Qed.

(** C4, as the code has it.  With a transient failure being a connection
    reset, a malformed body under a good status, or HTTP
    429/500/502/503/504, and a permanent one any other 4xx, each of them
    carrying a body (a response without a body is no failure at all: it is
    answered with [None]):
    - [n - 1] transient failures and then a success, [n <= tries], return
      the payload of the success after [n] GETs;
    - [tries] transient failures in a row raise the error after [tries]
      GETs;
    - a permanent failure at attempt [k] raises the error after [k + 1]
      GETs, leaving the remaining tries unused. *)
Theorem get_json_retry_policy (url : string) (tries : nat) (w : World) :
  (∀ n j, (1 ≤ n ≤ tries)%nat →
     (∀ i, (i < n - 1)%nat →
        named_transient (outcome_at w url i) = true
        ∧ bodyless (outcome_at w url i) = false) →
     success_with j (outcome_at w url (n - 1)) →
     _get_json url tries w = (Ok j, after_gets url n w))
  ∧ ((∀ i, (i < tries)%nat →
        named_transient (outcome_at w url i) = true
        ∧ bodyless (outcome_at w url i) = false) →
     _get_json url tries w = (Raise RuntimeError, after_gets url tries w))
  ∧ (∀ k, (k < tries)%nat →
     (∀ i, (i < k)%nat →
        named_transient (outcome_at w url i) = true
        ∧ bodyless (outcome_at w url i) = false) →
     named_permanent (outcome_at w url k) = true →
     bodyless (outcome_at w url k) = false →
     _get_json url tries w = (Raise RuntimeError, after_gets url (S k) w)).
Proof.
  unfold _get_json. split; [|split].
  - intros n j Hn Hfail Hok.
    replace tries with ((n - 1) + S (tries - n))%nat by lia.
    rewrite _get_json_from_retries by eauto using transient_retries.
    rewrite _get_json_from_step, outcome_at_after_gets, (step_of_success j) by done.
    by replace n with (S (n - 1)) at 2 by lia.
  - intros Hfail.
    replace tries with (tries + 0)%nat at 1 by lia.
    by rewrite _get_json_from_retries by eauto using transient_retries.
  - intros k Hk Hfail Hperm Hbody.
    replace tries with (k + S (tries - S k))%nat by lia.
    rewrite _get_json_from_retries by eauto using transient_retries.
    by rewrite _get_json_from_step, outcome_at_after_gets, step_of_permanent.
Qed.

Lemma get_json_retry_policy_witness :
  _get_json "u" 5 flaky_then_ok
    = (Ok (JArray [one_record]), after_gets "u" 3 flaky_then_ok)
  ∧ _get_json "u" 5 always_503 = (Raise RuntimeError, after_gets "u" 5 always_503)
  ∧ _get_json "u" 5 always_404 = (Raise RuntimeError, after_gets "u" 1 always_404).
Proof.
  split; [|split].
  - apply (proj1 (get_json_retry_policy "u" 5 flaky_then_ok) 3%nat); [lia| |].
    + intros i Hi.
      destruct i as [|[|i]]; [by vm_compute|by vm_compute|lia].
    + exists 200. by vm_compute.
  - apply (proj1 (proj2 (get_json_retry_policy "u" 5 always_503))).
    intros i _. by vm_compute.
  - apply (proj2 (proj2 (get_json_retry_policy "u" 5 always_404)) 0%nat);
      [lia|intros; lia|by vm_compute|by vm_compute].
Defined.

(** C4 as stated does not hold: a 503 without a body counts as a transient
    failure there, yet [_get_json] answers it with [None] at once and never
    reaches the success that follows. *)
Lemma get_json_retry_policy_as_stated_fails : ¬ retry_policy_as_stated.
Proof.
  intros H.
  destruct (H "u" 5%nat bodyless_503_then_ok) as (Hok & _ & _).
  specialize (Hok 2%nat (JArray [one_record])).
  assert (_get_json "u" 5 bodyless_503_then_ok
          = (Ok JNull, after_gets "u" 1 bodyless_503_then_ok)) as Hcode.
  { apply (_get_json_bodyless _ 5 _ 0); [lia|intros; lia|done]. }
  rewrite Hcode in Hok. simpl in Hok.
  assert (@Ok JSON JNull = Ok (JArray [one_record])) as Habs; [|discriminate].
  apply Hok; [lia| |].
  - intros i Hi. by replace i with 0%nat by lia.
  - exists 200. by vm_compute.
Qed.

(** Likewise a 404 without a body is no error to [_get_json]. *)
Example bodyless_404_returns_none :
  _get_json "u" 5 bodyless_404 = (Ok JNull, after_gets "u" 1 bodyless_404).
Proof. reflexivity. Qed.

(** ** The request log only grows *)

Lemma gets_only_refl w : gets_only w w.
Proof. exists []. by destruct w. Qed.

Lemma gets_only_trans w1 w2 w3 : gets_only w1 w2 → gets_only w2 w3 → gets_only w1 w3.
Proof.
  intros [l1 ->] [l2 ->]. exists (l2 ++ l1).
  unfold set_requests; simpl. by rewrite app_assoc.
Qed.

Lemma gets_from_trans url w1 w2 w3 :
  gets_from url w1 w2 → gets_only w2 w3 → gets_from url w1 w3.
Proof.
  intros [l1 ->] [l2 ->]. exists (l2 ++ l1).
  unfold set_requests; simpl. by rewrite app_assoc.
Qed.

Lemma gets_only_cache w w' : gets_only w w' → cache_files w' = cache_files w.
Proof. by intros [l ->]. Qed.
Lemma gets_only_suffix w w' : gets_only w w' → requests w `suffix_of` requests w'.
Proof. intros [l ->]. by exists l. Qed.

Lemma GetsOnly_ret {A} (a : A) : GetsOnly (ret a).
Proof. intros w. apply gets_only_refl. Qed.
Lemma GetsOnly_raise {A} e : GetsOnly (@raise A e).
Proof. intros w. apply gets_only_refl. Qed.
Lemma GetsOnly_lift {A} (r : Result A) : GetsOnly (lift r).
Proof. intros w. apply gets_only_refl. Qed.

Lemma GetsOnly_bind {A B} (c : M A) (k : A → M B) :
  GetsOnly c → (∀ a, GetsOnly (k a)) → GetsOnly (bind c k).
Proof.
  intros Hc Hk w. unfold bind. specialize (Hc w).
  destruct (c w) as [[a|e] w1]; simpl in *; [|done].
  eapply gets_only_trans; [done|apply Hk].
Qed.

Lemma gets_from_bind {A B} url (c : M A) (k : A → M B) w :
  (∀ w, gets_from url w (c w).2) → (∀ a, GetsOnly (k a)) →
  gets_from url w (bind c k w).2.
Proof.
  intros Hc Hk. unfold bind. specialize (Hc w).
  destruct (c w) as [[a|e] w1]; simpl in *; [|done].
  eapply gets_from_trans; [done|apply Hk].
Qed.

Lemma GetsOnly_try_except {A} (c : M A) (h : Exn → M A) :
  GetsOnly c → (∀ e, GetsOnly (h e)) → GetsOnly (try_except c h).
Proof.
  intros Hc Hh w. unfold try_except. specialize (Hc w).
  destruct (c w) as [[a|e] w1]; simpl in *; [done|].
  eapply gets_only_trans; [done|apply Hh].
Qed.

Lemma GetsOnly_get_json_from url n : GetsOnly (_get_json_from url n).
Proof.
  induction n as [|n IH]; intros w; [apply gets_only_refl|].
  rewrite _get_json_from_step.
  assert (gets_only w (after_gets url 1 w)) as Hw by by exists [url].
  destruct (step_of _); simpl; try done.
  eapply gets_only_trans; [done|apply IH].
Qed.

(** With a try to spend, [_get_json] starts with a GET of its URL. *)
Lemma gets_from_get_json url n w : gets_from url w (_get_json url (S n) w).2.
Proof.
  unfold _get_json. rewrite _get_json_from_step.
  assert (gets_from url w (after_gets url 1 w)) as Hw by by exists [].
  destruct (step_of _); simpl; try done.
  eapply gets_from_trans; [done|apply GetsOnly_get_json_from].
Qed.

Lemma GetsOnly_get_json url n : GetsOnly (_get_json url n).
Proof. apply GetsOnly_get_json_from. Qed.

Lemma GetsOnly_get_json_at c n : GetsOnly (_get_json_at c n).
Proof.
  destruct c; simpl; auto using GetsOnly_raise, GetsOnly_get_json.
Qed.

Create HintDb gets.
#[local] Hint Resolve GetsOnly_ret GetsOnly_raise GetsOnly_lift GetsOnly_bind
  GetsOnly_try_except GetsOnly_get_json GetsOnly_get_json_at : gets.

Section Downloader.
Context `{Externals}.

Lemma GetsOnly_fetch_short short : GetsOnly (fetch_short short).
Proof.
  apply GetsOnly_bind; [auto with gets|]. intros payload.
  destruct (truthy payload); auto with gets.
Qed.

Lemma GetsOnly_refresh_short meta_url : GetsOnly (refresh_short meta_url).
Proof. apply GetsOnly_bind; auto with gets. Qed.

Lemma _fetch_range_from_S meta_url short k w :
  _fetch_range_from meta_url short (S k) w =
  match fetch_short short w with
  | (Ok (Some df), w1) => (Ok df, w1)
  | (Ok None, w1) => _fetch_range_from meta_url short k w1
  | (Raise _, w1) =>
      (short' <- refresh_short meta_url ;; _fetch_range_from meta_url short' k) w1
  end.
Proof. done. Qed.

Lemma GetsOnly_fetch_range_from meta_url short k :
  GetsOnly (_fetch_range_from meta_url short k).
Proof.
  revert short. induction k as [|k IH]; intros short; [apply GetsOnly_ret|].
  intros w. rewrite _fetch_range_from_S.
  pose proof (GetsOnly_fetch_short short w) as Hbody.
  destruct (fetch_short short w) as [[[df|]|e] w1]; simpl in Hbody; [done| |].
  - eapply gets_only_trans; [done|apply IH].
  - eapply gets_only_trans; [done|].
    apply GetsOnly_bind; [apply GetsOnly_refresh_short|]. intros short'. apply IH.
Qed.

Lemma GetsOnly_fetch_range stid start end_ k :
  GetsOnly (_fetch_range stid start end_ k).
Proof.
  unfold _fetch_range. apply GetsOnly_bind; [auto with gets|]. intros meta.
  destruct (negb (truthy meta) || negb (has_datos meta)); [auto with gets|].
  apply GetsOnly_bind; [auto with gets|]. intros short.
  destruct (negb (cell_truthy short)); [auto with gets|].
  apply GetsOnly_fetch_range_from.
Qed.

(** Every sub-range starts with a GET of its metadata URL. *)
Lemma gets_from_fetch_range stid start end_ k w :
  gets_from (_range_url stid start end_) w (_fetch_range stid start end_ k w).2.
Proof.
  unfold _fetch_range. apply gets_from_bind.
  - intros w'. apply gets_from_get_json.
  - intros meta.
    destruct (negb (truthy meta) || negb (has_datos meta)); [auto with gets|].
    apply GetsOnly_bind; [auto with gets|]. intros short.
    destruct (negb (cell_truthy short)); [auto with gets|].
    apply GetsOnly_fetch_range_from.
Qed.

Lemma GetsOnly_fetch_level stid rr frames : GetsOnly (fetch_level stid rr frames).
Proof.
  revert frames. induction rr as [|[start end_] rr IH]; intros frames; simpl.
  - apply GetsOnly_ret.
  - apply GetsOnly_bind; [|intros df; apply IH].
    apply GetsOnly_try_except; auto using GetsOnly_fetch_range with gets.
Qed.

End Downloader.

(** ** RangeDownloader *)

Lemma columns_app (df1 df2 : DataFrame) : columns (df1 ++ df2) = columns df1 ∪ columns df2.
Proof. unfold columns. by rewrite fmap_app, union_list_app_L. Qed.

Lemma df_empty_app (df1 df2 : DataFrame) :
  df_empty (df1 ++ df2) = df_empty df1 && df_empty df2.
Proof.
  destruct df1 as [|r1 df1]; [done|].
  destruct df2 as [|r2 df2].
  { rewrite app_nil_r. by rewrite andb_true_r. }
  change (df_empty ((r1 :: df1) ++ r2 :: df2))
    with (bool_decide (columns ((r1 :: df1) ++ r2 :: df2) = ∅)).
  change (df_empty (r1 :: df1)) with (bool_decide (columns (r1 :: df1) = ∅)).
  change (df_empty (r2 :: df2)) with (bool_decide (columns (r2 :: df2) = ∅)).
  rewrite columns_app.
  rewrite <- bool_decide_and. apply bool_decide_ext. set_solver.
Qed.

Lemma df_empty_concat (frames : list DataFrame) :
  frames ≠ [] → Forall (λ df, df_empty df = false) frames →
  df_empty (concat frames) = false.
Proof.
  intros Hne Hall. destruct Hall as [|df frames Hdf Hall]; [done|].
  simpl. by rewrite df_empty_app, Hdf.
Qed.

Section RangeDownloader.
Context `{Externals}.

Lemma fetch_level_ok stid rr frames w :
  ∃ fs w', fetch_level stid rr frames w = (Ok fs, w').
Proof.
  revert frames w. induction rr as [|[start end_] rr IH]; intros frames w; simpl.
  - by eexists _, _.
  - unfold bind at 1, try_except.
    destruct (_fetch_range stid start end_ 3 w) as [[df|e] w1]; apply IH.
Qed.

Lemma fetch_level_nonempty stid rr frames w fs w' :
  Forall (λ df, df_empty df = false) frames →
  fetch_level stid rr frames w = (Ok fs, w') →
  Forall (λ df, df_empty df = false) fs.
Proof.
  revert frames w. induction rr as [|[start end_] rr IH]; intros frames w Hall; simpl.
  - unfold ret. by intros [= <- <-].
  - unfold bind at 1, try_except.
    destruct (_fetch_range stid start end_ 3 w) as [[df|e] w1]; unfold ret.
    + destruct (df_empty df) eqn:Hdf; apply IH; [done|].
      apply Forall_app; split; [done|]. by constructor.
    + apply IH. done.
Qed.

Lemma level_result_eq stid rr w :
  fetch_level stid rr [] w = (Ok (level_result stid rr w).1, (level_result stid rr w).2).
Proof.
  unfold level_result. by destruct (fetch_level_ok stid rr [] w) as (fs & w' & ->).
Qed.

Lemma fetch_level_cons stid start end_ rest frames :
  fetch_level stid ((start, end_) :: rest) frames =
  (df <- try_except (_fetch_range stid start end_ 3) (fun _ => ret []) ;;
   fetch_level stid rest (if df_empty df then frames else frames ++ [df])).
Proof. done. Qed.

Lemma fetch_level_frames stid rr frames w fs w' :
  fetch_level stid rr [] w = (Ok fs, w') →
  fetch_level stid rr frames w = (Ok (frames ++ fs), w').
Proof.
  revert frames w fs w'.
  induction rr as [|[start end_] rr IH]; intros frames w fs w'.
  - simpl. unfold ret. intros [= <- <-]. by rewrite app_nil_r.
  - rewrite !fetch_level_cons. unfold bind, try_except.
    destruct (_fetch_range stid start end_ 3 w) as [[df|e] w1]; unfold ret.
    + destruct (fetch_level_ok stid rr [] w1) as (fs0 & w0 & Hrest).
      rewrite (IH _ _ _ _ Hrest). intros [= <- <-].
      rewrite (IH _ _ _ _ Hrest).
      destruct (df_empty df); [done|]. by rewrite <- app_assoc.
    + intros Hrest. by rewrite (IH _ _ _ _ Hrest).
Qed.

(** A level asks for every one of its sub-ranges, in order, whatever the
    earlier ones returned, and keeps the frames that are not empty. *)
Lemma level_result_cons stid range rest w :
  level_result stid (range :: rest) w =
  let r := sub_range_result stid range w in
  let l := level_result stid rest r.2 in
  (if df_empty r.1 then l.1 else r.1 :: l.1, l.2).
Proof.
  destruct range as [start end_]. unfold sub_range_result, level_result at 1.
  rewrite fetch_level_cons. unfold bind, try_except. simpl.
  destruct (_fetch_range stid start end_ 3 w) as [[df|e] w1]; unfold ret; simpl.
  - rewrite (fetch_level_frames stid rest _ w1 _ _ (level_result_eq stid rest w1)).
    by destruct (df_empty df).
  - by rewrite (level_result_eq stid rest w1).
Qed.

Lemma level_result_nil stid w : level_result stid [] w = ([], w).
Proof. done. Qed.

Lemma level_result_nonempty stid rr w :
  Forall (λ df, df_empty df = false) (level_result stid rr w).1.
Proof.
  eapply (fetch_level_nonempty stid rr [] w); [constructor|apply level_result_eq].
Qed.

Lemma level_result_gets_only stid rr w : gets_only w (level_result stid rr w).2.
Proof.
  pose proof (GetsOnly_fetch_level stid rr [] w) as Hg.
  by rewrite level_result_eq in Hg.
Qed.

Lemma fetch_levels_cons stid rr rest w :
  fetch_levels stid (rr :: rest) w =
  match (level_result stid rr w).1 with
  | [] => fetch_levels stid rest (level_result stid rr w).2
  | _ => (Ok (level_result stid rr w).1, (level_result stid rr w).2)
  end.
Proof.
  simpl. unfold bind. rewrite level_result_eq.
  by destruct (level_result stid rr w).1.
Qed.

Lemma get_daily_climate_year_miss stid year w :
  (∀ df, cache_files w !! cache_name stid year ≠ Some (Stored df)) →
  get_daily_climate_year stid year w = download_year stid year w.
Proof.
  intros Hmiss. unfold get_daily_climate_year.
  destruct (cache_files w !! cache_name stid year) as [[|df]|] eqn:Hc; try done.
  by destruct (Hmiss df).
Qed.

(** [download_year] once the level that ends the loop is known. *)
Lemma download_year_frames stid year frames w1 w :
  fetch_levels stid (ranges year) w = (Ok frames, w1) →
  Forall (λ df, df_empty df = false) frames →
  download_year stid year w =
  match frames with
  | [] => (Ok [], w1)
  | _ => (Ok (concat frames),
          set_cache_files (<[cache_name stid year := Stored (concat frames)]>
                             (cache_files w1)) w1)
  end.
Proof.
  intros Hl Hall. unfold download_year, bind. rewrite Hl.
  destruct frames as [|f fs]; [done|].
  by rewrite df_empty_concat.
Qed.

End RangeDownloader.

Section YearLevels.
Context `{Externals}.

(** The outer loop on the table of [year]: the level it ends on. *)
Lemma fetch_levels_ranges stid year w :
  let r1 := level_result stid (whole_year year) w in
  let r2 := level_result stid (halves year) r1.2 in
  let r3 := level_result stid (quarters year) r2.2 in
  let r4 := level_result stid (months year) r3.2 in
  ∃ frames w1,
    fetch_levels stid (ranges year) w = (Ok frames, w1)
    ∧ Forall (λ df, df_empty df = false) frames
    ∧ ((r1.1 ≠ [] ∧ frames = r1.1 ∧ w1 = r1.2)
       ∨ (r1.1 = [] ∧ r2.1 ≠ [] ∧ frames = r2.1 ∧ w1 = r2.2)
       ∨ (r1.1 = [] ∧ r2.1 = [] ∧ r3.1 ≠ [] ∧ frames = r3.1 ∧ w1 = r3.2)
       ∨ (r1.1 = [] ∧ r2.1 = [] ∧ r3.1 = [] ∧ frames = r4.1 ∧ w1 = r4.2)).
Proof.
  intros r1 r2 r3 r4.
  assert (Forall (λ df, df_empty df = false) r1.1) as Hn1
    by apply level_result_nonempty.
  assert (Forall (λ df, df_empty df = false) r2.1) as Hn2
    by apply level_result_nonempty.
  assert (Forall (λ df, df_empty df = false) r3.1) as Hn3
    by apply level_result_nonempty.
  assert (Forall (λ df, df_empty df = false) r4.1) as Hn4
    by apply level_result_nonempty.
  unfold ranges. rewrite fetch_levels_cons. fold r1.
  destruct r1.1 as [|f1 fs1] eqn:E1;
    [|by eexists _, _; split_and!; [done..|left]].
  rewrite fetch_levels_cons. fold r2.
  destruct r2.1 as [|f2 fs2] eqn:E2;
    [|by eexists _, _; split_and!; [done..|right; left]].
  rewrite fetch_levels_cons. fold r3.
  destruct r3.1 as [|f3 fs3] eqn:E3;
    [|by eexists _, _; split_and!; [done..|right; right; left]].
  rewrite fetch_levels_cons. fold r4.
  eexists _, _; split_and!; [|apply Hn4|by right; right; right].
  by destruct r4.1.
Qed.

(** A level starts with a GET of the metadata URL of its first sub-range. *)
Lemma gets_from_level_result stid start end_ rest w :
  gets_from (_range_url stid start end_) w
    (level_result stid ((start, end_) :: rest) w).2.
Proof.
  pose proof (level_result_eq stid ((start, end_) :: rest) w) as Heq.
  rewrite fetch_level_cons in Heq.
  pose proof (gets_from_bind (_range_url stid start end_)
    (try_except (_fetch_range stid start end_ 3) (fun _ => ret []))
    (λ df, fetch_level stid rest (if df_empty df then [] else [] ++ [df])) w)
    as Hg.
  rewrite Heq in Hg. apply Hg.
  - intros w2. unfold try_except.
    pose proof (gets_from_fetch_range stid start end_ 3 w2) as Hf.
    by destruct (_fetch_range _ _ _ 3 w2) as [[df|e] w3].
  - intros df. apply GetsOnly_fetch_level.
Qed.

(** The download never raises, starts with a GET of the whole-year URL,
    and touches neither ledger. *)
Lemma download_year_total stid year w :
  ∃ df w' l,
    download_year stid year w = (Ok df, w')
    ∧ requests w' =
        l ++ _range_url stid (pretty year +:+ "-01-01") (pretty year +:+ "-12-31")
          :: requests w
    ∧ done_file w' = done_file w ∧ fail_file w' = fail_file w.
Proof.
  destruct (fetch_levels_ranges stid year w) as (frames & w1 & Hl & Hn & Hcases).
  assert (gets_from (_range_url stid (pretty year +:+ "-01-01")
                       (pretty year +:+ "-12-31")) w w1) as [l ->].
  { pose proof (gets_from_level_result stid (pretty year +:+ "-01-01")
                  (pretty year +:+ "-12-31") [] w) as H1.
    fold (whole_year year) in H1.
    destruct Hcases as [(_ & _ & ->)|[(_ & _ & _ & ->)|[(_ & _ & _ & _ & ->)
      |(_ & _ & _ & _ & ->)]]]; [done|..].
    - eapply gets_from_trans; [exact H1|apply level_result_gets_only].
    - eapply gets_from_trans; [|apply level_result_gets_only].
      eapply gets_from_trans; [exact H1|apply level_result_gets_only].
    - eapply gets_from_trans; [|apply level_result_gets_only].
      eapply gets_from_trans; [|apply level_result_gets_only].
      eapply gets_from_trans; [exact H1|apply level_result_gets_only]. }
  rewrite (download_year_frames stid year frames _ w Hl Hn).
  destruct frames; by eexists _, _, l.
Qed.

End YearLevels.

Example ranges_2017_sizes : length <$> ranges 2017 = [1; 2; 4; 12]%nat.
Proof. reflexivity. Qed.

Example months_2016_february :
  months 2016 !! 1%nat = Some ("2016-02-01", "2016-02-29").
Proof. by vm_compute. Qed.



(** C6, as the code has it.  When the cache file of (station, year) holds
    records, [get_daily_climate_year] issues no GET and changes nothing:
    it returns the stored records passed through [_clean_daily_payload].
    When the file is missing or unreadable, nothing is raised: the call is
    the download, which begins with a GET for the whole year. *)
Theorem cache_hit_short_circuits `{Externals} (stid : string) (year : Z)
    (w : World) :
  (∀ df, cache_files w !! cache_name stid year = Some (Stored df) →
     get_daily_climate_year stid year w = (Ok (_clean_daily_payload df), w))
  ∧ (cache_files w !! cache_name stid year = None
     ∨ cache_files w !! cache_name stid year = Some Corrupt →
     get_daily_climate_year stid year w = download_year stid year w
     ∧ ∃ df w' l,
         get_daily_climate_year stid year w = (Ok df, w')
         ∧ requests w' =
             l ++ _range_url stid (pretty year +:+ "-01-01")
                    (pretty year +:+ "-12-31") :: requests w).
Proof.
  split.
  - intros df Hhit. unfold get_daily_climate_year. by rewrite Hhit.
  - intros Hmiss.
    assert (get_daily_climate_year stid year w = download_year stid year w) as ->.
    { apply get_daily_climate_year_miss. intros df. by destruct Hmiss as [-> | ->]. }
    split; [done|].
    destruct (download_year_total stid year w) as (df & w' & l & Hd & Hr & _).
    by exists df, w', l.
Qed.

Lemma cache_hit_short_circuits_witness :
  get_daily_climate_year (H := sample_externals) "3195" 2017 raw_cache_hit
    = (Ok (_clean_daily_payload (H := sample_externals) [one_record]), raw_cache_hit)
  ∧ get_daily_climate_year (H := sample_externals) "3195" 2017 corrupt_cache
    = download_year (H := sample_externals) "3195" 2017 corrupt_cache.
Proof.
  split.
  - apply (cache_hit_short_circuits (H := sample_externals) "3195" 2017 raw_cache_hit).
    vm_compute. reflexivity.
  - apply (cache_hit_short_circuits (H := sample_externals) "3195" 2017 corrupt_cache).
    right. vm_compute. reflexivity.
Defined.

(** What comes back on that hit: the date parsed, the month derived and
    the trace-precipitation mark turned into 0. *)
Example raw_cache_hit_cleaned :
  _clean_daily_payload (H := sample_externals) [one_record]
  = [ {[ "fecha" := CTime (mkTimestamp 2017 3 1 0 0 0);
         "month" := CNum 3;
         "prec" := CNum 0 ]} ].
Proof. vm_compute. reflexivity. Qed.

(** C6 as stated does not hold: a cache file of raw records is valid JSON,
    and the call returns it cleaned, not as stored. *)
Lemma cache_hit_as_stated_fails : ¬ cache_hit_as_stated.
Proof.
  intros Hclaim.
  specialize (Hclaim sample_externals "3195" 2017 raw_cache_hit [one_record]).
  assert (first_cell (get_daily_climate_year (H := sample_externals) "3195" 2017
                        raw_cache_hit).1 "prec"
          = first_cell (Ok [one_record]) "prec") as Habs.
  { rewrite Hclaim; [done|]. vm_compute. reflexivity. }
  vm_compute in Habs. discriminate Habs.
Qed.

(** ** CheckpointLedger and the orchestrator *)

Lemma ledger_ids_app ls stid :
  ledger_ids (ls ++ [stid]) =
  ledger_ids ls ∪ (if bool_decide (strip stid = "") then ∅ else {[ strip stid ]}).
Proof.
  unfold ledger_ids. rewrite fmap_app, filter_app, list_to_set_app_L. f_equal.
  simpl. rewrite filter_cons, filter_nil.
  case_bool_decide; case_decide; try done; simpl; set_solver.
Qed.

Lemma elem_of_pd_unique_from seen l x :
  x ∈ pd_unique_from seen l ↔ x ∈ l ∧ x ∉ seen.
Proof.
  revert seen. induction l as [|y l IH]; intros seen; simpl.
  - set_solver.
  - case_bool_decide as Hy.
    + rewrite IH. set_solver.
    + rewrite elem_of_cons, IH. destruct (decide (x = y)); set_solver.
Qed.

Lemma elem_of_unique_stations perfiles stid :
  stid ∈ unique_stations perfiles ↔ ∃ pid, (pid, Some stid) ∈ perfiles.
Proof.
  unfold unique_stations, pd_unique. rewrite elem_of_pd_unique_from.
  rewrite list_elem_of_omap. split.
  - intros [([pid o] & Hin & Ho) _]. simpl in Ho. subst o. by exists pid.
  - intros [pid Hin]. split; [|set_solver]. by exists (pid, Some stid).
Qed.

Section Orchestrator.
Context `{Externals}.

(** [get_daily_climate_year] raises nothing and leaves both ledgers alone. *)
Lemma get_daily_climate_year_total stid year w :
  ∃ df w', get_daily_climate_year stid year w = (Ok df, w')
           ∧ done_file w' = done_file w ∧ fail_file w' = fail_file w.
Proof.
  unfold get_daily_climate_year.
  destruct (cache_files w !! cache_name stid year) as [[|df]|];
    [|by eexists _, _|];
    destruct (download_year_total stid year w) as (df' & w' & l & -> & _ & ? & ?);
    by eexists _, _.
Qed.

Lemma process_station_done done stid station_frames w :
  stid ∈ done → process_station done stid station_frames w = (Ok station_frames, w).
Proof. intros Hin. unfold process_station. by rewrite bool_decide_eq_true_2. Qed.

Lemma process_station_todo done stid station_frames w :
  stid ∉ done →
  ∃ df w1,
    get_daily_climate_year stid 2017 w = (Ok df, w1)
    ∧ process_station done stid station_frames w =
      (Ok (station_frames ++ [with_station stid (if df_empty df then [] else df)]),
       set_done_file (Some (lines (done_file w) ++ [stid])) w1).
Proof.
  intros Hnot. unfold process_station. rewrite bool_decide_eq_false_2 by done.
  destruct (get_daily_climate_year_total stid 2017 w) as (df & w1 & Hg & Hd & Hf).
  exists df, w1. split; [done|].
  unfold try_except, bind. rewrite Hg. unfold _mark_done, ret, lines. by rewrite Hd.
Qed.

Lemma process_stations_ledgers done stids station_frames w :
  ∃ frames' w',
    process_stations done stids station_frames w = (Ok frames', w')
    ∧ lines (done_file w') = lines (done_file w) ++ filter (λ s, s ∉ done) stids
    ∧ fail_file w' = fail_file w.
Proof.
  revert station_frames w. induction stids as [|stid stids IH]; intros fr w.
  - eexists _, _. split; [done|]. by rewrite filter_nil, app_nil_r.
  - simpl. unfold bind at 1. destruct (decide (stid ∈ done)) as [Hin|Hnot].
    + rewrite process_station_done by done.
      destruct (IH fr w) as (fr' & w' & -> & Hd & Hf).
      eexists _, _. split; [done|]. by rewrite filter_cons_False by auto.
    + destruct (process_station_todo done stid fr w Hnot) as (df & w1 & Hg & ->).
      destruct (get_daily_climate_year_total stid 2017 w)
        as (df' & w1' & Hg' & Hd1 & Hf1).
      rewrite Hg in Hg'. injection Hg' as <- <-.
      destruct (IH (fr ++ [with_station stid (if df_empty df then [] else df)])
                   (set_done_file (Some (lines (done_file w) ++ [stid])) w1))
        as (fr' & w' & -> & Hd & Hf).
      eexists _, _. split; [done|]. rewrite Hd, Hf. simpl.
      rewrite filter_cons_True by done. split; [|done].
      by rewrite <- app_assoc.
Qed.

End Orchestrator.

Lemma load_done_eq w : _load_done w = (Ok (ledger_ids (lines (done_file w))), w).
Proof. unfold _load_done, lines. by destruct (done_file w). Qed.


(** On the sample restart, "3195" is passed over and "0016A", failed
    before, is attempted and this time marked done. *)
Example restart_run :
  let out := build_and_save_climate_2017 (H := sample_externals) sample_perfiles
               restart_world in
  done_file out.2 = Some ["3195"; "0016A"]
  ∧ fail_file out.2 = Some ["0016A"]
  ∧ existsb (String.eqb (_range_url "3195" "2017-01-01" "2017-12-31"))
      (requests out.2) = false
  ∧ existsb (String.eqb (_range_url "0016A" "2017-01-01" "2017-12-31"))
      (requests out.2) = true.
Proof. split_and!; vm_compute; reflexivity. Qed.

Section EmptyYear.
Context `{Externals}.

Lemma download_year_no_data stid year w :
  no_data_at_any_level stid year w →
  ∃ w', download_year stid year w = (Ok [], w') ∧ gets_only w w'.
Proof.
  unfold no_data_at_any_level, all_levels. cbv zeta. intros Hall.
  apply Forall_cons in Hall as [E1 Hall]. apply Forall_cons in Hall as [E2 Hall].
  apply Forall_cons in Hall as [E3 Hall]. apply Forall_cons in Hall as [E4 _].
  destruct (fetch_levels_ranges stid year w) as (frames & w1 & Hl & Hn & Hcases).
  destruct Hcases as [(? & _)|[(_ & ? & _)|[(_ & _ & ? & _)|(_ & _ & _ & -> & ->)]]];
    try done.
  rewrite (download_year_frames stid year _ _ w Hl Hn), E4.
  eexists; split; [done|].
  repeat (eapply gets_only_trans; [|apply level_result_gets_only]).
  apply gets_only_refl.
Qed.


End EmptyYear.

Lemma nothing_anywhere_no_data :
  no_data_at_any_level (H := sample_externals) "3195" 2017 nothing_anywhere.
Proof. repeat constructor; vm_compute; reflexivity. Qed.


(** ** StationAssigner *)

#[local] Instance by_distance_trans : Transitive by_distance.
Proof. intros a b c. unfold by_distance. apply Qle_trans. Qed.

#[local] Instance by_distance_total : Total by_distance.
Proof.
  intros a b. unfold by_distance.
  destruct (Qlt_le_dec a.2 b.2) as [Hlt|Hle]; [left; by apply Qlt_le_weak|by right].
Qed.

Lemma StronglySorted_lookup {A} (R : relation A) l i j x y :
  StronglySorted R l → (i < j)%nat → l !! i = Some x → l !! j = Some y → R x y.
Proof.
  intros Hs. revert i j. induction Hs as [|z l Hs IH Hall]; intros i j Hij Hi Hj.
  - done.
  - destruct j as [|j]; [lia|]. destruct i as [|i]; simpl in *.
    + injection Hi as ->. rewrite Forall_forall in Hall. apply Hall.
      by eapply list_elem_of_lookup_2.
    + apply (IH i j); [lia|done..].
Qed.

Lemma argsort_perm d : argsort d ≡ₚ seq 0 (length d).
Proof.
  unfold argsort. rewrite merge_sort_Permutation.
  rewrite fmap_imap. rewrite (imap_ext _ (λ j _, j)); [|done].
  by rewrite imap_seq_0, list_fmap_id.
Qed.

Lemma argsort_length d : length (argsort d) = length d.
Proof. by rewrite argsort_perm, length_seq. Qed.

Lemma argsort_lookup d k j :
  argsort d !! k = Some j →
  ∃ x, d !! j = Some x
       ∧ merge_sort by_distance (imap (λ i x, (i, x)) d) !! k = Some (j, x).
Proof.
  unfold argsort. rewrite list_lookup_fmap.
  destruct (merge_sort _ _ !! k) as [[j' x]|] eqn:Hk; [|done].
  intros [= ->]. exists x. split; [|done].
  apply list_elem_of_lookup_2 in Hk. rewrite merge_sort_Permutation in Hk.
  apply elem_of_lookup_imap in Hk as (i & y & [= -> ->] & Hy). done.
Qed.

Lemma argsort_in_range d k j : argsort d !! k = Some j → (j < length d)%nat.
Proof. intros (x & Hx & _)%argsort_lookup. by eapply lookup_lt_Some. Qed.

(** Distances do not decrease along [argsort]. *)
Lemma argsort_ascending d a b ja jb xa xb :
  (a ≤ b)%nat → argsort d !! a = Some ja → argsort d !! b = Some jb →
  d !! ja = Some xa → d !! jb = Some xb → (xa <= xb)%Q.
Proof.
  intros Hab (xa' & Hxa & Ha)%argsort_lookup (xb' & Hxb & Hb)%argsort_lookup Hda Hdb.
  assert (xa' = xa) as -> by congruence. assert (xb' = xb) as -> by congruence.
  destruct (decide (a = b)) as [->|Hne].
  - assert (xa = xb) as -> by congruence. apply Qle_refl.
  - change (by_distance (ja, xa) (jb, xb)).
    eapply (StronglySorted_lookup by_distance _ a b); [|lia|exact Ha|exact Hb].
    apply StronglySorted_merge_sort; apply _.
Qed.

(** The head of [argsort] is a nearest station. *)
Lemma argsort_head_nearest d j xj x :
  argsort d !! 0%nat = Some j → d !! j = Some xj → x ∈ d → (xj <= x)%Q.
Proof.
  intros Hj Hxj [i Hi]%list_elem_of_lookup.
  assert (i ∈ argsort d) as [k Hk]%list_elem_of_lookup.
  { rewrite argsort_perm, elem_of_seq. apply lookup_lt_Some in Hi. lia. }
  eapply (argsort_ascending d 0 k j i); [lia|done..].
Qed.

Lemma result_map_index {A} (l : list A) (d : A) (js : list nat) :
  (∀ j, j ∈ js → (j < length l)%nat) →
  result_map (index l) js = Ok ((λ j, default d (l !! j)) <$> js).
Proof.
  induction js as [|j js IH]; intros Hjs; [done|]. simpl.
  destruct (lookup_lt_is_Some_2 l j) as [x Hx]; [apply Hjs; left|].
  unfold index at 1. rewrite Hx. simpl.
  rewrite IH by (intros j' Hj'; apply Hjs; by right). done.
Qed.

Lemma result_map_Forall2 {A B} (f : A → Result B) (P : A → B → Prop) l :
  (∀ x, x ∈ l → ∃ y, f x = Ok y ∧ P x y) →
  ∃ ys, result_map f l = Ok ys ∧ Forall2 P l ys.
Proof.
  induction l as [|x l IH]; intros Hf; simpl.
  - exists []. by split.
  - destruct (Hf x) as (y & -> & Hy); [left|].
    destruct IH as (ys & -> & Hys); [intros x' Hx'; apply Hf; by right|].
    exists (y :: ys). split; [done|by constructor].
Qed.

Lemma result_map_Forall {A B} (f : A → Result B) (P : B → Prop) l ys :
  (∀ x y, x ∈ l → f x = Ok y → P y) →
  result_map f l = Ok ys → Forall P ys.
Proof.
  revert ys. induction l as [|x l IH]; intros ys Hf; simpl.
  - intros [= <-]. constructor.
  - destruct (f x) as [y|e] eqn:Hx; [|done]. simpl.
    destruct (result_map f l) as [ys'|e] eqn:Hl; [|done]. simpl.
    intros [= <-]. constructor.
    + eapply Hf; [left|done].
    + apply IH; [|done]. intros x' y' Hx'. apply Hf. by right.
Qed.

Lemma np_any_true l : np_any l = true ↔ true ∈ l.
Proof.
  unfold np_any. rewrite existsb_exists. split.
  - intros (b & Hin & Hb). unfold id in Hb. subst b. by apply list_elem_of_In.
  - intros Hin. exists true. split; [by apply list_elem_of_In|done].
Qed.

Lemma np_argmax_first l :
  true ∈ l →
  l !! np_argmax l = Some true
  ∧ ∀ k b, (k < np_argmax l)%nat → l !! k = Some b → b = false.
Proof.
  intros Hin. unfold np_argmax.
  destruct (list_find_elem_of (λ b, b = true) l true Hin eq_refl) as [[k b] Hk].
  rewrite Hk. apply list_find_Some in Hk as (Hb & -> & Hmin).
  split; [done|]. intros k' b' Hk' Hb'.
  specialize (Hmin k' b' Hb' Hk'). by destruct b'.
Qed.

Section Assigner.
Context `{Externals}.

Lemma length_distances st p : length (distances st p) = length st.
Proof. unfold distances. by rewrite length_fmap. Qed.

Lemma lookup_active_mask st year j :
  _active_mask_for_year st year !! j = active_in_year year <$> st !! j.
Proof. unfold _active_mask_for_year. by rewrite list_lookup_fmap. Qed.

(** The mask read along the order: where the loop of the assigner looks
    for its first [True]. *)
Lemma active_ord_eq st year p :
  result_map (index (_active_mask_for_year st year)) (argsort (distances st p))
  = Ok ((λ j, default false (_active_mask_for_year st year !! j))
          <$> argsort (distances st p)).
Proof.
  apply result_map_index. intros j [k Hk]%list_elem_of_lookup.
  apply argsort_in_range in Hk. rewrite length_distances in Hk.
  unfold _active_mask_for_year. by rewrite length_fmap.
Qed.

Lemma active_ord_lookup st year p k b :
  ((λ j, default false (_active_mask_for_year st year !! j))
     <$> argsort (distances st p)) !! k = Some b →
  ∃ j s, argsort (distances st p) !! k = Some j ∧ st !! j = Some s
         ∧ b = active_in_year year s.
Proof.
  rewrite list_lookup_fmap.
  destruct (argsort (distances st p) !! k) as [j|] eqn:Hk; [|done].
  simpl. intros [= <-].
  pose proof (argsort_in_range _ _ _ Hk) as Hj. rewrite length_distances in Hj.
  destruct (lookup_lt_is_Some_2 st j Hj) as [s Hs].
  exists j, s. split_and!; [done..|].
  by rewrite lookup_active_mask, Hs.
Qed.

Lemma index_Some {A} (l : list A) i x : l !! i = Some x → index l i = Ok x.
Proof. unfold index. by intros ->. Qed.

Lemma lookup_distances st p j s :
  st !! j = Some s → ∃ x, distances st p !! j = Some x.
Proof. intros Hs. unfold distances. rewrite list_lookup_fmap, Hs. by eexists. Qed.

(** One profile: the row produced is the one owed. *)
Lemma assign_profile_chosen st year p :
  st ≠ [] →
  ∃ a, assign_profile st (_active_mask_for_year st year) p = Ok a
       ∧ chosen_for st year p a.
Proof.
  intros Hst. unfold assign_profile. rewrite active_ord_eq. simpl.
  set (order := argsort (distances st p)).
  set (active_ord := (λ j, default false (_active_mask_for_year st year !! j))
                       <$> order).
  destruct (np_any active_ord) eqn:Hany.
  - apply np_any_true in Hany.
    destruct (np_argmax_first active_ord Hany) as [Hk Hmin].
    set (k := np_argmax active_ord) in *.
    apply active_ord_lookup in Hk as (j & s & Hord & Hs & Hact).
    destruct (lookup_distances st p j s Hs) as [x Hx].
    fold order in Hord.
    rewrite (index_Some _ _ _ Hord). simpl.
    rewrite (index_Some _ _ _ Hx). simpl.
    rewrite (index_Some _ _ _ Hs). simpl.
    eexists. split; [done|]. left. exists k, j, s.
    split_and!; try done.
    + intros k' j' s' Hlt Hj' Hs'.
      apply (Hmin k' (active_in_year year s') Hlt).
      unfold active_ord, order. rewrite list_lookup_fmap, Hj'. simpl.
      by rewrite lookup_active_mask, Hs'.
    + simpl. lia.
  - assert (∀ b, b ∈ active_ord → b = false) as Hall.
    { intros [|] Hb; [|done]. apply np_any_true in Hb. congruence. }
    assert (∃ j, order !! 0%nat = Some j) as [j Hord].
    { apply lookup_lt_is_Some_2. unfold order.
      rewrite argsort_length, length_distances. destruct st; [done|simpl; lia]. }
    pose proof (argsort_in_range _ _ _ Hord) as Hj. rewrite length_distances in Hj.
    destruct (lookup_lt_is_Some_2 st j Hj) as [s Hs].
    destruct (lookup_distances st p j s Hs) as [x Hx].
    rewrite (index_Some _ _ _ Hord). simpl.
    rewrite (index_Some _ _ _ Hx). simpl.
    rewrite (index_Some _ _ _ Hs). simpl.
    eexists. split; [done|]. right. split.
    + intros s' [i Hi]%list_elem_of_lookup.
      apply Hall. unfold active_ord.
      assert (i ∈ order) as [k' Hk']%list_elem_of_lookup.
      { unfold order. rewrite argsort_perm, elem_of_seq, length_distances.
        apply lookup_lt_Some in Hi. lia. }
      apply list_elem_of_lookup. exists k'.
      rewrite list_lookup_fmap, Hk'. simpl. by rewrite lookup_active_mask, Hi.
    + exists j, s. split_and!; try done.
      intros y Hy. by apply (argsort_head_nearest (distances st p) j x y).
Qed.

End Assigner.

Lemma argsort_ascending_order d : ascending_order d (argsort d).
Proof. split; [apply argsort_perm|apply argsort_ascending]. Qed.

(** C1, as the code has it.  Stations without coordinates are dropped
    first.  For every station list that keeps at least one station, and
    every profile list with a profile that has coordinates,
    [assign_nearest_station] returns one assignment per profile with
    coordinates, in their order; each is for the first station active in
    [year] along the ascending order of distances, with its 1-based place
    in that order and the active flag set, or, when no kept station is
    active, for the head of that order, a nearest station, with the flag
    cleared and rank 1. *)
Theorem assign_first_active_or_nearest `{Externals} (perfiles : list Profile)
    (stations : list Station) (year : Z) :
  let pfv := filter (λ p, has_coords (pf_lat p) (pf_lon p) = true) perfiles in
  let st := filter (λ s, has_coords (lat s) (lon s) = true) stations in
  (∃ p, p ∈ perfiles ∧ has_coords (pf_lat p) (pf_lon p) = true) →
  (∃ s, s ∈ stations ∧ has_coords (lat s) (lon s) = true) →
  ∃ out,
    assign_nearest_station perfiles stations year = Ok out
    ∧ Forall2 (chosen_for st year) pfv out
    ∧ Forall (λ p, ascending_order (distances st p) (argsort (distances st p))) pfv.
Proof.
  intros pfv st (p & Hp & Hpc) (s & Hs & Hsc).
  assert (pfv ≠ []) as Hpfv.
  { intros Hnil. assert (p ∈ pfv) as Hin by by apply list_elem_of_filter.
    rewrite Hnil in Hin. by apply not_elem_of_nil in Hin. }
  assert (st ≠ []) as Hst.
  { intros Hnil. assert (s ∈ st) as Hin by by apply list_elem_of_filter.
    rewrite Hnil in Hin. by apply not_elem_of_nil in Hin. }
  unfold assign_nearest_station. fold pfv st.
  destruct pfv as [|p0 pfv'] eqn:Epfv; [done|].
  destruct st as [|s0 st'] eqn:Est; [done|].
  destruct (result_map_Forall2
              (assign_profile (s0 :: st') (_active_mask_for_year (s0 :: st') year))
              (chosen_for (s0 :: st') year) (p0 :: pfv')) as (out & Hout & Hall).
  { intros q _. by apply assign_profile_chosen. }
  exists out. split_and!; [done..|].
  apply Forall_forall. intros q _. apply argsort_ascending_order.
Qed.

Lemma assign_first_active_or_nearest_witness :
  ∃ out,
    assign_nearest_station (H := sample_externals) [profile_P]
      [station_T; station_nowhere; station_S] 2017 = Ok out
    ∧ Forall2 (chosen_for (H := sample_externals) [station_T; station_S] 2017)
        [profile_P] out
    ∧ Forall (λ p, ascending_order
                     (distances (H := sample_externals) [station_T; station_S] p)
                     (argsort (distances (H := sample_externals)
                                 [station_T; station_S] p)))
        [profile_P].
Proof.
  apply (assign_first_active_or_nearest (H := sample_externals) [profile_P]
           [station_T; station_nowhere; station_S] 2017).
  - exists profile_P. split; [apply list_elem_of_here|reflexivity].
  - exists station_T. split; [apply list_elem_of_here|reflexivity].
Defined.

(** The scenario of the specification: T is nearer but closed, so S is
    chosen at rank 2 and flagged active. *)
Example nearer_station_closed :
  ∃ a,
    assign_nearest_station (H := sample_externals) [profile_P]
      [station_S; station_T] 2017 = Ok [a]
    ∧ nearest_station a = "S"
    ∧ station_rank_used a = 2%nat
    ∧ station_active_2017 a = true
    ∧ (distance_km a == 222 # 100)%Q.
Proof. eexists. split_and!; [vm_compute; reflexivity|done..]. Qed.

(** C1 as stated does not hold: a station list that is not empty, but has
    no station with coordinates, is refused with [ValueError]. *)
Lemma total_coverage_as_stated_fails : ¬ total_coverage_as_stated.
Proof.
  intros Hclaim.
  destruct (Hclaim sample_externals [profile_P] [station_nowhere] 2017 profile_P)
    as [out Hout]; [apply list_elem_of_here|reflexivity|discriminate|].
  vm_compute in Hout. discriminate Hout.
Qed.

(** ** The inventory feeds the assigner only stations active in 2017 *)

Section Inventory.
Context `{Externals}.

Lemma parse_inventory_active dates_required df st :
  parse_inventory dates_required df = Ok st →
  Forall (λ s, active_in_year 2017 s = true) st.
Proof.
  unfold parse_inventory.
  destruct (negb _ || negb _); [done|].
  destruct (dates_required && _); [done|].
  intros [= <-]. apply Forall_forall. intros s Hs.
  by apply list_elem_of_filter in Hs as [Hact _].
Qed.

Lemma get_aemet_stations_active w stations w' :
  get_aemet_stations w = (Ok stations, w') →
  Forall (λ s, active_in_year 2017 s = true) stations.
Proof.
  unfold get_aemet_stations, bind, lift, ret, raise.
  destruct (read_stations_cache w) as [[df|e] w1]; [|done].
  destruct (parse_inventory false df) as [st|e] eqn:Hst; [|done].
  destruct st as [|s st].
  - destruct (_load w1) as [[df2|e] w2]; [|done].
    destruct (parse_inventory true df2) as [st2|e] eqn:Hst2; [|done].
    destruct st2 as [|s2 st2]; [done|].
    intros [= <- <-]. by eapply parse_inventory_active.
  - intros [= <- <-]. by eapply parse_inventory_active.
Qed.

Lemma assign_profile_all_active st year p a :
  st ≠ [] →
  Forall (λ s, active_in_year year s = true) st →
  assign_profile st (_active_mask_for_year st year) p = Ok a →
  station_active_2017 a = true ∧ station_rank_used a = 1%nat.
Proof.
  intros Hst Hall Ha.
  destruct (assign_profile_chosen st year p Hst) as (a' & Ha' & Hchosen).
  rewrite Ha in Ha'. injection Ha' as <-.
  rewrite Forall_forall in Hall.
  destruct Hchosen as [(k & j & s & Hk & _ & _ & Hmin & Hrank & Hflag)
                      |(Hnone & _)].
  - split; [done|]. rewrite Hrank.
    destruct k as [|k]; [done|]. exfalso.
    destruct (lookup_lt_is_Some_2 (argsort (distances st p)) 0) as [j' Hj'].
    { apply lookup_lt_Some in Hk. lia. }
    pose proof (argsort_in_range _ _ _ Hj') as Hlt.
    rewrite length_distances in Hlt.
    destruct (lookup_lt_is_Some_2 st j' Hlt) as [s' Hs'].
    assert (active_in_year year s' = false) as Hoff
      by (apply (Hmin 0%nat j' s'); [lia|done..]).
    rewrite Hall in Hoff; [done|]. by eapply list_elem_of_lookup_2.
  - destruct st as [|s st]; [done|].
    assert (active_in_year year s = false) as Hoff by (apply Hnone; left).
    rewrite Hall in Hoff; [done|left].
Qed.

Lemma assign_all_active perfiles stations year out :
  Forall (λ s, active_in_year year s = true) stations →
  assign_nearest_station perfiles stations year = Ok out →
  Forall (λ a, station_active_2017 a = true ∧ station_rank_used a = 1%nat) out.
Proof.
  intros Hall. unfold assign_nearest_station.
  destruct (filter _ perfiles) as [|p0 pfv]; [done|].
  destruct (filter _ stations) as [|s0 st] eqn:Est; [done|].
  apply result_map_Forall. intros p a _.
  apply assign_profile_all_active; [done|].
  rewrite <- Est. apply Forall_forall. intros s [_ Hs]%list_elem_of_filter.
  rewrite Forall_forall in Hall. by apply Hall.
Qed.

(** C9.  Whatever inventory [get_aemet_stations] returns holds only
    stations active in 2017; so [assign_nearest_station], run on it for
    2017, never takes its inactive fallback: every assignment has the
    active flag set and rank 1. *)
Theorem inventory_never_needs_fallback (w w' : World) (stations : list Station)
    (perfiles : list Profile) (out : list Assignment) :
  get_aemet_stations w = (Ok stations, w') →
  assign_nearest_station perfiles stations 2017 = Ok out →
  Forall (λ s, active_in_year 2017 s = true) stations
  ∧ Forall (λ a, station_active_2017 a = true ∧ station_rank_used a = 1%nat) out.
Proof.
  intros Hinv Hassign.
  pose proof (get_aemet_stations_active w stations w' Hinv) as Hall.
  split; [done|]. by eapply assign_all_active.
Qed.

End Inventory.

Lemma inventory_never_needs_fallback_witness :
  Forall (λ s, active_in_year 2017 s = true) [station_S]
  ∧ Forall (λ a, station_active_2017 a = true ∧ station_rank_used a = 1%nat)
      [mkAssignment "P" "S" "Sur" "MADRID" (22200 # 10000)%Q true 1].
Proof.
  apply (inventory_never_needs_fallback (H := sample_externals)
           inventory_cached inventory_cached [station_S] [profile_P]);
    vm_compute; reflexivity.
Defined.

(** ** ImputationCascade *)

Lemma median_None xs : median xs = None ↔ xs = [].
Proof.
  unfold median.
  pose proof (Permutation_length (merge_sort_Permutation Qle xs)) as Hlen.
  set (s := merge_sort Qle xs) in *.
  destruct xs as [|x xs]; [done|].
  - change (length (x :: xs)) with (S (length xs)) in Hlen.
    rewrite Hlen. split; [|done]. intros Hnone. exfalso.
    set (n := S (length xs)) in *.
    assert (n / 2 < n)%nat as Hhalf by (apply Nat.div_lt; lia).
    destruct (lookup_lt_is_Some_2 s (n / 2)) as [b Hb]; [lia|].
    destruct (lookup_lt_is_Some_2 s (n / 2 - 1)) as [a Ha]; [lia|].
    rewrite Hb, Ha in Hnone. simpl in Hnone. by destruct (Nat.odd n).
Qed.

Lemma median_is_Some xs : xs ≠ [] → is_Some (median xs).
Proof.
  intros Hne. destruct (median xs) eqn:Hm; [done|].
  by apply median_None in Hm.
Qed.

Lemma col_values_nil c rows :
  (∀ r, r ∈ rows → cr_values r !! c = None) → col_values c rows = [].
Proof.
  intros Hnull. unfold col_values.
  destruct (omap _ rows) as [|v vs] eqn:Hv; [done|].
  assert (v ∈ omap (λ r, cr_values r !! c) rows) as Hin by (rewrite Hv; left).
  apply list_elem_of_omap in Hin as (r & Hr & Hrv).
  by rewrite Hnull in Hrv.
Qed.

Lemma col_values_elem c rows r v :
  r ∈ rows → cr_values r !! c = Some v → v ∈ col_values c rows.
Proof. intros Hr Hv. apply list_elem_of_omap. by exists r. Qed.

Lemma global_median_is_Some c rows r v :
  r ∈ rows → cr_values r !! c = Some v → is_Some (global_median rows c).
Proof.
  intros Hr Hv. apply median_is_Some. intros Hnil.
  pose proof (col_values_elem c rows r v Hr Hv) as Hin.
  rewrite Hnil in Hin. by apply not_elem_of_nil in Hin.
Qed.

Lemma fill_value_lookup fill c' vals c :
  fill_value fill c' vals !! c =
  match vals !! c with
  | Some v => Some v
  | None => if bool_decide (c = c') then fill c else None
  end.
Proof.
  unfold fill_value. case_bool_decide as Hc.
  - subst c'. destruct (vals !! c) as [v|] eqn:Hv; [by rewrite Hv|].
    destruct (fill c) as [m|]; [by rewrite lookup_insert_eq|done].
  - destruct (vals !! c') as [v'|]; [by destruct (vals !! c)|].
    destruct (fill c') as [m|]; [|by destruct (vals !! c)].
    rewrite lookup_insert_ne by done. by destruct (vals !! c).
Qed.

Lemma fill_values_lookup fill cols vals c :
  foldr (fill_value fill) vals cols !! c =
  match vals !! c with
  | Some v => Some v
  | None => if bool_decide (c ∈ cols) then fill c else None
  end.
Proof.
  induction cols as [|c' cols IH]; simpl.
  - by destruct (vals !! c).
  - rewrite fill_value_lookup, IH.
    destruct (vals !! c) as [v|]; [done|].
    destruct (decide (c = c')) as [->|Hne].
    + rewrite (bool_decide_eq_true_2 (c' = c')) by done.
      rewrite (bool_decide_eq_true_2 (c' ∈ c' :: cols)) by left.
      by destruct (bool_decide (c' ∈ cols)), (fill c').
    + rewrite (bool_decide_eq_false_2 (c = c')) by done.
      destruct (decide (c ∈ cols)) as [Hin|Hnin].
      * rewrite (bool_decide_eq_true_2 (c ∈ cols)) by done.
        rewrite (bool_decide_eq_true_2 (c ∈ c' :: cols)) by by right.
        by destruct (fill c).
      * rewrite (bool_decide_eq_false_2 (c ∈ cols)) by done.
        rewrite (bool_decide_eq_false_2 (c ∈ c' :: cols)); [done|].
        intros [?|?]%elem_of_cons; done.
Qed.

(** A pass of [fillna], read at one row and one column. *)
Lemma value_at_fillna cols fill rows i c :
  value_at (fillna cols fill rows) i c =
  r ← rows !! i;
  match cr_values r !! c with
  | Some v => Some v
  | None => if bool_decide (c ∈ cols) then fill r c else None
  end.
Proof.
  unfold value_at, fillna. rewrite list_lookup_fmap.
  destruct (rows !! i) as [r|]; [|done]. simpl. apply fill_values_lookup.
Qed.

Lemma length_fillna cols fill rows : length (fillna cols fill rows) = length rows.
Proof. unfold fillna. by rewrite length_fmap. Qed.

Lemma station_median_same_station rows r r' c :
  cr_station r' = cr_station r → station_median rows r' c = station_median rows r c.
Proof. unfold station_median. by intros ->. Qed.

Lemma value_at_Some_elem rows i c v :
  value_at rows i c = Some v → ∃ r, r ∈ rows ∧ cr_values r !! c = Some v.
Proof.
  unfold value_at. destruct (rows !! i) as [r|] eqn:Hr; [|done]. simpl.
  intros Hv. exists r. split; [by eapply list_elem_of_lookup_2|done].
Qed.

Lemma value_at_lookup rows i r c :
  rows !! i = Some r → value_at rows i c = cr_values r !! c.
Proof. unfold value_at. by intros ->. Qed.

Lemma value_at_fillna_row cols fill rows i r c :
  rows !! i = Some r → c ∈ cols →
  value_at (fillna cols fill rows) i c =
  match value_at rows i c with
  | Some v => Some v
  | None => fill r c
  end.
Proof.
  intros Hr Hc. rewrite value_at_fillna, (value_at_lookup rows i r c Hr), Hr. simpl.
  by rewrite bool_decide_eq_true_2.
Qed.

Lemma fillna_lookup cols fill rows i r :
  rows !! i = Some r →
  ∃ r', fillna cols fill rows !! i = Some r' ∧ cr_station r' = cr_station r
        ∧ cr_month r' = cr_month r.
Proof.
  intros Hr. unfold fillna. rewrite list_lookup_fmap, Hr. simpl. by eexists.
Qed.

Lemma all_null_elem rows c :
  (∀ i, value_at rows i c = None) → ∀ r, r ∈ rows → cr_values r !! c = None.
Proof.
  intros Hnull r [i Hi]%list_elem_of_lookup.
  by rewrite <- (value_at_lookup rows i r c Hi).
Qed.

Lemma medians_of_null_column rows c :
  (∀ r, r ∈ rows → cr_values r !! c = None) →
  (∀ r, station_month_median rows r c = None)
  ∧ (∀ r, station_median rows r c = None)
  ∧ global_median rows c = None.
Proof.
  intros Hnull. split_and!.
  - intros r. unfold station_month_median. destruct (cr_month r) as [m|]; [|done].
    apply median_None, col_values_nil.
    intros r' [_ Hr']%list_elem_of_filter. by apply Hnull.
  - intros r. apply median_None, col_values_nil.
    intros r' [_ Hr']%list_elem_of_filter. by apply Hnull.
  - by apply median_None, col_values_nil.
Qed.

Lemma fillna_null_column cols fill rows c :
  (∀ i, value_at rows i c = None) → (∀ r, fill r c = None) →
  ∀ i, value_at (fillna cols fill rows) i c = None.
Proof.
  intros Hnull Hfill i. rewrite value_at_fillna.
  destruct (rows !! i) as [r|] eqn:Hr; [|done]. simpl.
  rewrite <- (value_at_lookup rows i r c Hr), Hnull, Hfill.
  by destruct (bool_decide _).
Qed.

Lemma fillna_keeps_values cols fill rows i c v :
  value_at rows i c = Some v → value_at (fillna cols fill rows) i c = Some v.
Proof.
  intros Hv. rewrite value_at_fillna. unfold value_at in Hv.
  destruct (rows !! i) as [r|]; [|done]. simpl in *. by rewrite Hv.
Qed.

(** The three passes, read at one row and one numeric column. *)
Lemma impute_value_at df i c :
  c ∈ num_cols df →
  value_at (cf_rows (impute_station_climate_2017 df)) i c = cascade_in_sequence df i c.
Proof.
  intros Hc. unfold cascade_in_sequence.
  destruct (cf_rows df !! i) as [r|] eqn:Hr.
  2:{ simpl. unfold impute_station_climate_2017.
      destruct (cf_rows df) as [|r0 rows] eqn:Hrows; [done|]. simpl.
      rewrite value_at_fillna.
      assert (impute_station df !! i = None) as ->; [|done].
      apply lookup_ge_None. unfold impute_station, impute_station_month.
      rewrite !length_fillna, Hrows. by apply lookup_ge_None. }
  simpl.
  assert (impute_station_climate_2017 df
          = mkClimaFrame (num_cols df)
              (fillna (num_cols df) (λ _, global_median (impute_station df))
                 (impute_station df))) as ->.
  { unfold impute_station_climate_2017. by destruct (cf_rows df). }
  simpl.
  destruct (fillna_lookup (num_cols df) (station_month_median (cf_rows df))
              (cf_rows df) i r Hr) as (r1 & Hr1 & Hs1 & _).
  fold (impute_station_month df) in Hr1.
  destruct (fillna_lookup (num_cols df) (station_median (impute_station_month df))
              (impute_station_month df) i r1 Hr1) as (r2 & Hr2 & _ & _).
  change (fillna (num_cols df) (station_median (impute_station_month df))
            (impute_station_month df)) with (impute_station df) in Hr2.
  rewrite (value_at_fillna_row _ _ _ i r2 c Hr2 Hc).
  unfold impute_station at 1.
  rewrite (value_at_fillna_row _ _ _ i r1 c Hr1 Hc).
  unfold impute_station_month at 1.
  rewrite (value_at_fillna_row _ _ _ i r c Hr Hc).
  rewrite (value_at_lookup _ i r c Hr).
  rewrite (station_median_same_station _ r r1 c Hs1).
  destruct (cr_values r !! c) as [v|]; [done|].
  destruct (station_month_median (cf_rows df) r c) as [m|]; [done|].
  by destruct (station_median (impute_station_month df) r c).
Qed.

(** C3, as the code has it.  At every row and numeric column the output
    holds the input value when there is one; otherwise the median of the
    input's non-null values of the same station and month; otherwise the
    median of the same station's values as they stand after that first
    step, imputed values included; otherwise the median of the whole
    column as it stands after the second step. *)
Theorem impute_cascade_in_sequence (df : ClimaFrame) (i : nat) (c : string) :
  c ∈ num_cols df →
  value_at (cf_rows (impute_station_climate_2017 df)) i c = cascade_in_sequence df i c.
Proof. apply impute_value_at. Qed.

Lemma impute_cascade_in_sequence_witness :
  value_at (cf_rows (impute_station_climate_2017 skewed_station)) 5 "tmed"
  = cascade_in_sequence skewed_station 5 "tmed".
Proof.
  apply (impute_cascade_in_sequence skewed_station 5 "tmed").
  apply list_elem_of_here.
Defined.

(** The scenario of the specification: the three nulls of station "A" in
    March take the station-month median 10, not the global median 5. *)
Example march_nulls_take_station_month_median :
  global_median (cf_rows march_scenario) "tmed" = Some 5%Q
  ∧ (λ i, value_at (cf_rows (impute_station_climate_2017 march_scenario)) i "tmed")
      <$> [0; 1; 2; 3]%nat
    = [Some 10%Q; Some 10%Q; Some 10%Q; Some 10%Q].
Proof. split; vm_compute; reflexivity. Qed.

(** C3 as stated does not hold: on [skewed_station] the March null gets
    0, the station median once January is filled in, where the medians of
    the input alone would give 10. *)
Lemma cascade_as_stated_fails : ¬ cascade_as_stated.
Proof.
  intros Hclaim.
  specialize (Hclaim skewed_station 5%nat "tmed" (list_elem_of_here _ _)).
  vm_compute in Hclaim. discriminate Hclaim.
Qed.

(** C2.  For every numeric column [c]: the output has as many rows as the
    input; when some row of the input has a value in [c], every row of the
    output has one; a value present in the input is the same in the
    output; and when no row of the input has a value in [c], no row of the
    output has one (nothing is raised: the function is total). *)
Theorem impute_completes (df : ClimaFrame) (c : string) :
  c ∈ num_cols df →
  let out := cf_rows (impute_station_climate_2017 df) in
  length out = length (cf_rows df)
  ∧ ((∃ i v, value_at (cf_rows df) i c = Some v) →
     ∀ i, (i < length out)%nat → is_Some (value_at out i c))
  ∧ (∀ i v, value_at (cf_rows df) i c = Some v → value_at out i c = Some v)
  ∧ ((∀ i, value_at (cf_rows df) i c = None) → ∀ i, value_at out i c = None).
Proof.
  intros Hc out.
  assert (length out = length (cf_rows df)) as Hlen.
  { unfold out, impute_station_climate_2017.
    destruct (cf_rows df) as [|r0 rows] eqn:Hrows; [done|]. simpl.
    unfold impute_station, impute_station_month.
    by rewrite !length_fillna, Hrows. }
  split_and!; [done|..].
  - intros (i0 & v0 & Hv0) i Hi. unfold out. rewrite impute_value_at by done.
    unfold cascade_in_sequence.
    destruct (lookup_lt_is_Some_2 (cf_rows df) i) as [r Hr]; [lia|].
    rewrite Hr. simpl.
    destruct (cr_values r !! c) as [v|]; [done|].
    destruct (station_month_median (cf_rows df) r c) as [m|]; [done|].
    destruct (station_median (impute_station_month df) r c) as [m|]; [done|].
    assert (value_at (impute_station df) i0 c = Some v0) as Hkept.
    { unfold impute_station, impute_station_month.
      by do 2 apply fillna_keeps_values. }
    apply value_at_Some_elem in Hkept as (r2 & Hr2 & Hv2).
    by eapply global_median_is_Some.
  - intros i v Hv. unfold out. rewrite impute_value_at by done.
    unfold cascade_in_sequence. unfold value_at in Hv.
    destruct (cf_rows df !! i) as [r|]; [|done]. simpl in *. by rewrite Hv.
  - intros Hnull i. unfold out, impute_station_climate_2017.
    destruct (cf_rows df) as [|r0 rows] eqn:Hrows; [done|]. simpl.
    rewrite <- Hrows in *.
    destruct (medians_of_null_column (cf_rows df) c (all_null_elem _ _ Hnull))
      as (Hm1 & _ & _).
    assert (∀ i, value_at (impute_station_month df) i c = None) as Hnull1.
    { by apply fillna_null_column. }
    destruct (medians_of_null_column _ c (all_null_elem _ _ Hnull1))
      as (_ & Hm2 & _).
    assert (∀ i, value_at (impute_station df) i c = None) as Hnull2.
    { by apply fillna_null_column. }
    destruct (medians_of_null_column _ c (all_null_elem _ _ Hnull2))
      as (_ & _ & Hm3).
    by apply fillna_null_column.
Qed.

Lemma impute_completes_witness :
  let out := cf_rows (impute_station_climate_2017 march_scenario) in
  length out = 8%nat
  ∧ (∀ i, (i < length out)%nat → is_Some (value_at out i "tmed"))
  ∧ value_at out 2 "tmed" = Some 10%Q.
Proof.
  intros out.
  destruct (impute_completes march_scenario "tmed" (list_elem_of_here _ _))
    as (Hlen & Hfull & Hkeep & _).
  split_and!; [exact Hlen| |].
  - apply Hfull. exists 2%nat, 10%Q. reflexivity.
  - apply Hkeep. reflexivity.
Defined.

(** * Further properties of the acquisition code *)

(** ** The retrying client *)

(** The loop of [_get_json] ends at the first attempt that does not ask
    for a retry, or when the attempts are used up. *)
Lemma _get_json_from_decides url tries w :
  (∃ k, (k < tries)%nat
        ∧ (∀ i, (i < k)%nat → step_of (outcome_at w url i) = Retry)
        ∧ ((∃ j, step_of (outcome_at w url k) = Return j
                 ∧ _get_json_from url tries w = (Ok j, after_gets url (S k) w))
           ∨ (∃ e, step_of (outcome_at w url k) = StopWith e
                   ∧ _get_json_from url tries w = (Raise e, after_gets url (S k) w))))
  ∨ ((∀ i, (i < tries)%nat → step_of (outcome_at w url i) = Retry)
     ∧ _get_json_from url tries w = (Raise RuntimeError, after_gets url tries w)).
Proof.
  revert w. induction tries as [|rest IH]; intros w.
  { right. split; [lia|]. by rewrite after_gets_0. }
  rewrite _get_json_from_step.
  destruct (step_of (outcome_at w url 0)) as [j| |e] eqn:Hstep.
  - left. exists 0%nat. split_and!; [lia|lia|]. left. by exists j.
  - assert (after_gets url 1 w = set_requests (url :: requests w) w) as Hone by done.
    assert (∀ i, outcome_at (after_gets url 1 w) url i = outcome_at w url (S i)) as Hshift.
    { intros i. rewrite Hone. apply outcome_at_S. }
    assert (∀ n, after_gets url n (after_gets url 1 w) = after_gets url (S n) w) as Hafter.
    { intros n. rewrite Hone. apply after_gets_S. }
    destruct (IH (after_gets url 1 w)) as [(k & Hk & Hretry & Hend)|[Hretry Hend]].
    + left. exists (S k). split_and!; [lia| |].
      * intros [|i] Hi; [done|]. rewrite <- Hshift. apply Hretry. lia.
      * destruct Hend as [(j & Hj & Hres)|(e & He & Hres)];
          rewrite Hshift in *; rewrite Hafter in Hres; [left|right]; eauto.
    + right. split.
      * intros [|i] Hi; [done|]. rewrite <- Hshift. apply Hretry. lia.
      * by rewrite Hafter in Hend.
  - left. exists 0%nat. split_and!; [lia|lia|]. right. by exists e.
Qed.

Lemma step_of_Return o j :
  step_of o = Return j → (bodyless o = true ∧ j = JNull) ∨ success_with j o.
Proof.
  destruct o as [|e|sc body]; simpl; [done|done|].
  destruct (sc =? 204) eqn:H204; simpl.
  { intros [= <-]. by left. }
  destruct (body_is_empty body) eqn:Hbody.
  { intros [= <-]. by left. }
  destruct (raise_for_status sc) eqn:Hrfs.
  { by destruct (client_error_not_429 sc). }
  destruct body as [| |j']; [done|done|]. intros [= <-]. right.
  exists sc. split_and!; [done| |done]. by apply Z.eqb_neq.
Qed.

(** X1.  [_get_json] spends at most [tries] GETs, and at least one when
    [tries] is positive; every one of them asks for [url], and nothing but
    the request log changes: the cache directory and the ledgers are as
    they were. *)
Theorem get_json_request_budget (url : string) (tries : nat) (w : World) :
  ∃ n, (n ≤ tries)%nat ∧ (0 < tries → 0 < n)%nat
       ∧ (_get_json url tries w).2 = after_gets url n w.
Proof.
  unfold _get_json.
  destruct (_get_json_from_decides url tries w)
    as [(k & Hk & _ & [(j & _ & ->)|(e & _ & ->)])|[_ ->]].
  - exists (S k). split_and!; [lia|lia|done].
  - exists (S k). split_and!; [lia|lia|done].
  - exists tries. split_and!; [lia|lia|done].
Qed.

(** X2.  A payload that [_get_json] returns is one the archive sent: when
    the call returns [j], some attempt [k] within [tries] received either a
    response without content (and [j] is [None]) or a good status with the
    body [j]; the attempts before it were all retried, and the call stopped
    right there, after [k + 1] GETs. *)
Theorem get_json_payload_from_archive (url : string) (tries : nat) (w : World)
    (j : JSON) :
  (_get_json url tries w).1 = Ok j →
  ∃ k, (k < tries)%nat
       ∧ (∀ i, (i < k)%nat → step_of (outcome_at w url i) = Retry)
       ∧ ((bodyless (outcome_at w url k) = true ∧ j = JNull)
          ∨ success_with j (outcome_at w url k))
       ∧ (_get_json url tries w).2 = after_gets url (S k) w.
Proof.
  unfold _get_json.
  destruct (_get_json_from_decides url tries w)
    as [(k & Hk & Hretry & [(j' & Hstep & ->)|(e & _ & ->)])|[_ ->]];
    simpl; [|done|done].
  intros [= <-]. exists k. split_and!; [done|done| |done].
  by apply step_of_Return.
Qed.

Lemma get_json_payload_from_archive_witness :
  ∃ k, (k < 5)%nat
       ∧ (∀ i, (i < k)%nat → step_of (outcome_at flaky_then_ok "u" i) = Retry)
       ∧ ((bodyless (outcome_at flaky_then_ok "u" k) = true
           ∧ JArray [one_record] = JNull)
          ∨ success_with (JArray [one_record]) (outcome_at flaky_then_ok "u" k))
       ∧ (_get_json "u" 5 flaky_then_ok).2 = after_gets "u" (S k) flaky_then_ok.
Proof.
  apply (get_json_payload_from_archive "u" 5 flaky_then_ok (JArray [one_record])).
  reflexivity.
Defined.

(** X3.  Only connection errors and HTTP errors are caught by the loop.
    When the attempts before [k] were retried and attempt [k] raises
    anything else (a read timeout, say), [_get_json] lets it through at
    once: the remaining attempts are not used. *)
Theorem get_json_other_exception_escapes (url : string) (tries : nat) (w : World)
    (k : nat) (e : Exn) :
  (k < tries)%nat →
  (∀ i, (i < k)%nat → step_of (outcome_at w url i) = Retry) →
  outcome_at w url k = Raises e →
  _get_json url tries w = (Raise e, after_gets url (S k) w).
Proof.
  intros Hk Hretry Hout. unfold _get_json.
  replace tries with (k + S (tries - S k))%nat by lia.
  rewrite _get_json_from_retries by done.
  rewrite _get_json_from_step, outcome_at_after_gets, Hout. by simpl.
Qed.

Lemma get_json_other_exception_escapes_witness :
  _get_json "u" 5 reset_then_timeout
  = (Raise (OtherError "ReadTimeout"), after_gets "u" 2 reset_then_timeout).
Proof.
  apply (get_json_other_exception_escapes "u" 5 reset_then_timeout 1).
  - lia.
  - intros [|i] Hi; [reflexivity|lia].
  - reflexivity.
Defined.

(** ** The session pool *)

Lemma session_calls_live g u n :
  (1 ≤ u ≤ 25)%nat →
  session_calls n (mkSessionPool (Some g) u (S g))
  = (λ k, g + (k + u) / 25)%nat <$> seq 0 n.
Proof.
  revert g u. induction n as [|n IH]; intros g u Hu; [done|].
  rewrite <- cons_seq, fmap_cons, <- fmap_S_seq, <- list_fmap_compose.
  cbn [session_calls].
  unfold _get_session, _new_session. cbn [_SESSION _SESSION_USES sessions_created].
  destruct (25 <=? u)%nat eqn:Hrot.
  - apply Nat.leb_le in Hrot. assert (u = 25%nat) as -> by lia.
    cbn [_SESSION _SESSION_USES sessions_created default]. rewrite IH by lia.
    f_equal; [unfold id; rewrite Nat.add_0_l, Nat.div_same by lia; lia|].
    apply list_fmap_ext. intros _ k _. cbn [compose].
    replace (S k + 25)%nat with (k + 1 + 1 * 25)%nat by lia.
    rewrite Nat.div_add by lia. lia.
  - apply Nat.leb_gt in Hrot.
    cbn [_SESSION _SESSION_USES sessions_created default]. rewrite IH by lia.
    f_equal.
    + rewrite Nat.div_small by lia. unfold id. lia.
    + apply list_fmap_ext. intros _ k _. cbn [compose]. do 2 f_equal. lia.
Qed.

(** X4.  The session is rotated every 25 requests: counting the calls of
    [_get_session] from 0 since the module was loaded, call [k] is served
    by session [k / 25].  So no session object carries more than 25 GETs,
    and a session is never taken up again once it was replaced. *)
Theorem session_rotates_every_25 (n : nat) :
  session_calls n pool_at_import = (λ k, k / 25)%nat <$> seq 0 n.
Proof.
  destruct n as [|n]; [done|].
  rewrite <- cons_seq, fmap_cons, <- fmap_S_seq, <- list_fmap_compose.
  cbn [session_calls].
  unfold _get_session, _new_session, pool_at_import.
  cbn [_SESSION _SESSION_USES sessions_created default].
  rewrite session_calls_live by lia. f_equal.
  apply list_fmap_ext. intros _ k _. cbn [compose]. by rewrite Nat.add_1_r.
Qed.

(** ** The request budget *)

Lemma spends_refl w : spends 0 w w.
Proof. by exists []. Qed.

Lemma spends_le n m w w' : (n ≤ m)%nat → spends n w w' → spends m w w'.
Proof. intros Hnm (l & Hl & Hlen). exists l. split; [done|lia]. Qed.

Lemma spends_trans n m w1 w2 w3 :
  spends n w1 w2 → spends m w2 w3 → spends (n + m) w1 w3.
Proof.
  intros (l1 & Hl1 & Hlen1) (l2 & Hl2 & Hlen2). exists (l2 ++ l1). split.
  - by rewrite Hl2, Hl1, app_assoc.
  - rewrite length_app. lia.
Qed.

Lemma Spends_le {A} n m (c : M A) : (n ≤ m)%nat → Spends n c → Spends m c.
Proof. intros Hnm Hc w. by eapply spends_le. Qed.

Lemma Spends_ret {A} (a : A) : Spends 0 (ret a).
Proof. intros w. apply spends_refl. Qed.
Lemma Spends_raise {A} e : Spends 0 (@raise A e).
Proof. intros w. apply spends_refl. Qed.
Lemma Spends_lift {A} (r : Result A) : Spends 0 (lift r).
Proof. intros w. apply spends_refl. Qed.

Lemma Spends_bind {A B} n m (c : M A) (k : A → M B) :
  Spends n c → (∀ a, Spends m (k a)) → Spends (n + m) (bind c k).
Proof.
  intros Hc Hk w. unfold bind. specialize (Hc w).
  destruct (c w) as [[a|e] w1]; simpl in *.
  - eapply spends_trans; [done|apply Hk].
  - eapply spends_le; [|done]. lia.
Qed.

Lemma Spends_try_except {A} n m (c : M A) (h : Exn → M A) :
  Spends n c → (∀ e, Spends m (h e)) → Spends (n + m) (try_except c h).
Proof.
  intros Hc Hh w. unfold try_except. specialize (Hc w).
  destruct (c w) as [[a|e] w1]; simpl in *.
  - eapply spends_le; [|done]. lia.
  - eapply spends_trans; [done|apply Hh].
Qed.

Lemma spends_after_gets url n w : spends n w (after_gets url n w).
Proof. exists (repeat url n). split; [done|]. by rewrite repeat_length. Qed.

Lemma Spends_get_json url tries : Spends tries (_get_json url tries).
Proof.
  intros w. unfold _get_json.
  destruct (_get_json_from_decides url tries w)
    as [(k & Hk & _ & [(j & _ & ->)|(e & _ & ->)])|[_ ->]]; simpl;
    try (eapply spends_le; [|apply spends_after_gets]; lia).
Qed.

Lemma Spends_get_json_at c tries : Spends tries (_get_json_at c tries).
Proof.
  destruct c; simpl; try (eapply Spends_le; [|apply Spends_raise]; lia).
  apply Spends_get_json.
Qed.

Section Budget.
Context `{Externals}.

Lemma Spends_fetch_short short : Spends 6 (fetch_short short).
Proof.
  change 6%nat with (6 + (0 + 0))%nat.
  apply Spends_bind; [apply Spends_get_json_at|]. intros payload.
  destruct (truthy payload).
  - apply Spends_bind; [apply Spends_lift|]. intros df. apply Spends_ret.
  - apply Spends_ret.
Qed.

Lemma Spends_refresh_short meta_url : Spends 5 (refresh_short meta_url).
Proof.
  change 5%nat with (5 + 0)%nat.
  apply Spends_bind; [apply Spends_get_json|]. intros meta. apply Spends_lift.
Qed.

Lemma Spends_fetch_range_from meta_url short k :
  Spends (k * (6 + 5)) (_fetch_range_from meta_url short k).
Proof.
  revert short. induction k as [|k IH]; intros short; [apply Spends_ret|].
  intros w. rewrite _fetch_range_from_S.
  pose proof (Spends_fetch_short short w) as Hbody.
  destruct (fetch_short short w) as [[[df|]|e] w1]; simpl in Hbody.
  - eapply spends_le; [|done]. lia.
  - eapply spends_le; [|eapply spends_trans; [done|apply IH]]. lia.
  - eapply spends_le; [|eapply spends_trans; [done|]].
    2:{ apply Spends_bind; [apply Spends_refresh_short|]. intros short'. apply IH. }
    lia.
Qed.

Lemma Spends_fetch_range stid start end_ k :
  Spends (5 + k * (6 + 5)) (_fetch_range stid start end_ k).
Proof.
  unfold _fetch_range. apply Spends_bind; [apply Spends_get_json|]. intros meta.
  destruct (negb (truthy meta) || negb (has_datos meta)).
  { eapply Spends_le; [|apply Spends_ret]. lia. }
  change (k * (6 + 5))%nat with (0 + k * (6 + 5))%nat.
  apply Spends_bind; [apply Spends_lift|]. intros short.
  destruct (negb (cell_truthy short)).
  { eapply Spends_le; [|apply Spends_ret]. lia. }
  apply Spends_fetch_range_from.
Qed.

Lemma Spends_fetch_level stid rr frames :
  Spends (length rr * gets_per_sub_range) (fetch_level stid rr frames).
Proof.
  revert frames. induction rr as [|[start end_] rr IH]; intros frames.
  - apply Spends_ret.
  - rewrite fetch_level_cons. cbn [length]. rewrite Nat.mul_succ_l, Nat.add_comm.
    apply Spends_bind; [|intros df; apply IH].
    change gets_per_sub_range with (5 + 3 * (6 + 5) + 0)%nat.
    apply Spends_try_except; [apply Spends_fetch_range|]. intros e. apply Spends_ret.
Qed.

Lemma Spends_fetch_levels stid levels :
  Spends (length (concat levels) * gets_per_sub_range) (fetch_levels stid levels).
Proof.
  induction levels as [|rr levels IH]; [apply Spends_ret|].
  intros w. rewrite fetch_levels_cons.
  pose proof (Spends_fetch_level stid rr [] w) as Hlevel.
  rewrite level_result_eq in Hlevel. simpl in Hlevel.
  cbn [concat]. rewrite length_app, Nat.mul_add_distr_r.
  destruct (level_result stid rr w).1.
  - eapply spends_trans; [done|apply IH].
  - eapply spends_le; [|done]. lia.
Qed.

Lemma length_ranges year : length (concat (ranges year)) = sub_ranges_per_year.
Proof.
  unfold ranges. cbn [concat]. rewrite !length_app.
  unfold months, whole_year, halves, quarters.
  rewrite length_fmap, length_seqZ. cbn [length]. reflexivity.
Qed.

Lemma Spends_download_year stid year :
  Spends (sub_ranges_per_year * gets_per_sub_range) (download_year stid year).
Proof.
  unfold download_year.
  rewrite <- (length_ranges year), <- (Nat.add_0_r (_ * _)).
  apply Spends_bind; [apply Spends_fetch_levels|]. intros frames.
  destruct frames as [|df frames]; [apply Spends_ret|].
  change 0%nat with (0 + 0)%nat.
  apply Spends_bind; [|intros _; apply Spends_ret].
  destruct (df_empty _); [apply Spends_ret|]. intros w. by exists [].
Qed.

Lemma Spends_get_daily_climate_year stid year :
  Spends (sub_ranges_per_year * gets_per_sub_range) (get_daily_climate_year stid year).
Proof.
  intros w. unfold get_daily_climate_year.
  destruct (cache_files w !! cache_name stid year) as [[|df]|];
    try apply Spends_download_year.
  eapply spends_le; [|apply spends_refl]. lia.
Qed.

Lemma Spends_process_station done stid station_frames :
  Spends (if bool_decide (stid ∈ done) then 0
          else sub_ranges_per_year * gets_per_sub_range)
    (process_station done stid station_frames).
Proof.
  unfold process_station. case_bool_decide; [apply Spends_ret|].
  replace (sub_ranges_per_year * gets_per_sub_range)%nat
    with (sub_ranges_per_year * gets_per_sub_range + (0 + 0) + (0 + 0))%nat by lia.
  apply Spends_try_except.
  - apply Spends_bind; [apply Spends_get_daily_climate_year|]. intros df.
    apply Spends_bind; [|intros _; apply Spends_ret]. intros w. by exists [].
  - intros e. apply Spends_bind; [|intros _; apply Spends_ret].
    intros w. by exists [].
Qed.

Lemma Spends_process_stations done stids station_frames :
  Spends (length (filter (λ stid, stid ∉ done) stids)
          * (sub_ranges_per_year * gets_per_sub_range))
    (process_stations done stids station_frames).
Proof.
  revert station_frames. induction stids as [|stid stids IH]; intros station_frames.
  - apply Spends_ret.
  - cbn [process_stations]. rewrite filter_cons.
    pose proof (Spends_process_station done stid station_frames) as Hone.
    destruct (decide (stid ∉ done)) as [Hnew|Hold].
    + rewrite bool_decide_eq_false_2 in Hone by done.
      cbn [length]. rewrite Nat.mul_succ_l, Nat.add_comm.
      apply Spends_bind; [done|]. intros frames. apply IH.
    + rewrite bool_decide_eq_true_2 in Hone by by apply dec_stable.
      change (length ?l * ?n)%nat with (0 + length l * n)%nat.
      apply Spends_bind; [done|]. intros frames. apply IH.
Qed.

End Budget.

(** X5.  One sub-range costs at most [5 + 11 * meta_tries] GETs: up to 5
    for the metadata, and in each round up to 6 for the short URL and up to
    5 for a refresh of the metadata.  The first of them asks for the
    metadata URL of the range.  With the [meta_tries = 3] of the year
    downloader that is at most 38 GETs. *)
Theorem fetch_range_request_budget `{Externals} (stid start end_ : string)
    (meta_tries : nat) (w : World) :
  ∃ l, requests (_fetch_range stid start end_ meta_tries w).2
       = l ++ _range_url stid start end_ :: requests w
       ∧ (length l < 5 + 11 * meta_tries)%nat.
Proof.
  destruct (gets_from_fetch_range stid start end_ meta_tries w) as [l Hl].
  destruct (Spends_fetch_range stid start end_ meta_tries w) as (l' & Hl' & Hlen).
  exists l. rewrite Hl in *. simpl in *. split; [done|].
  assert (l' = l ++ [_range_url stid start end_]) as ->.
  { apply (app_inv_tail (requests w)). by rewrite <- Hl', <- app_assoc. }
  rewrite length_app in Hlen. simpl in Hlen. lia.
Qed.

(** X6.  A year of one station costs at most 19 sub-ranges of 38 GETs,
    722 in all; a run of the orchestrator costs at most 722 GETs for each
    assigned station that the done ledger does not hold, and none for the
    others. *)
Theorem climate_request_budget `{Externals} (w : World) :
  (∀ stid year,
     ∃ l, requests (get_daily_climate_year stid year w).2 = l ++ requests w
          ∧ (length l ≤ 722)%nat)
  ∧ (∀ perfiles,
       let todo := filter (λ stid, stid ∉ ledger_ids (lines (done_file w)))
                     (unique_stations perfiles) in
       ∃ l, requests (build_and_save_climate_2017 perfiles w).2 = l ++ requests w
            ∧ (length l ≤ 722 * length todo)%nat).
Proof.
  assert (sub_ranges_per_year * gets_per_sub_range = 722)%nat as Hyear by reflexivity.
  split.
  - intros stid year.
    destruct (Spends_get_daily_climate_year stid year w) as (l & Hl & Hlen).
    exists l. split; [done|]. by rewrite <- Hyear.
  - intros perfiles todo.
    assert (build_and_save_climate_2017 perfiles w
            = (station_frames <- process_stations (ledger_ids (lines (done_file w)))
                                   (unique_stations perfiles) [] ;;
               ret (concat station_frames)) w) as ->.
    { unfold build_and_save_climate_2017. unfold bind at 1. by rewrite load_done_eq. }
    rewrite <- (Nat.add_0_r (length todo)), Nat.mul_add_distr_l, <- Hyear.
    rewrite (Nat.mul_comm _ (length todo)).
    apply (Spends_bind _ 0); [apply Spends_process_stations|].
    intros frames. apply Spends_ret.
Qed.

(** ** Cleaning a daily payload *)

Lemma elem_of_columns (df : DataFrame) c :
  c ∈ columns df ↔ ∃ r, r ∈ df ∧ is_Some (r !! c).
Proof.
  unfold columns. rewrite elem_of_union_list. split.
  - intros (X & [r [-> Hr]]%list_elem_of_fmap & Hc). exists r.
    split; [done|]. by apply elem_of_dom.
  - intros (r & Hr & Hc). exists (dom r). split; [|by apply elem_of_dom].
    apply list_elem_of_fmap. by exists r.
Qed.

Lemma df_empty_rows (df : DataFrame) r :
  df_empty df = true → r ∈ df → r = ∅.
Proof.
  intros He Hr. destruct df as [|r0 df]; [by apply elem_of_nil in Hr|].
  simpl in He. apply bool_decide_eq_true in He.
  apply map_empty. intros c. apply eq_None_not_Some. intros Hc.
  assert (c ∈ columns (r0 :: df)) as Hin by (apply elem_of_columns; eauto).
  rewrite He in Hin. by apply elem_of_empty in Hin.
Qed.

Lemma df_empty_false_columns (df : DataFrame) c :
  c ∈ columns df → df_empty df = false.
Proof.
  intros Hc. destruct df as [|r0 df].
  - apply elem_of_columns in Hc as (r & Hr & _). by apply elem_of_nil in Hr.
  - simpl. apply bool_decide_eq_false. intros He. rewrite He in Hc.
    by apply elem_of_empty in Hc.
Qed.

Section Cleaning.
Context `{Externals}.

(** The row of the output that answers row [r] of a non-empty input. *)
Lemma clean_daily_payload_rows df :
  df_empty df = false →
  _clean_daily_payload df
  = (λ r, map_imap (λ col c, Some (clean_cell col c))
            (if bool_decide ("fecha" ∈ columns df) then parse_fecha r else r)) <$> df.
Proof.
  intros He. unfold _clean_daily_payload. rewrite He.
  case_bool_decide; [|done]. by rewrite <- list_fmap_compose.
Qed.

Lemma lookup_clean_row (r : Row) c :
  map_imap (λ col c, Some (clean_cell col c)) r !! c = clean_cell c <$> r !! c.
Proof. rewrite map_lookup_imap. by destruct (r !! c). Qed.

Lemma clean_cell_key c x : c ∈ key_columns → clean_cell c x = x.
Proof. intros Hc. unfold clean_cell. by rewrite bool_decide_eq_true_2. Qed.

Lemma clean_cell_numeric c x :
  c ∉ key_columns → clean_cell c x = CNaN ∨ ∃ q, clean_cell c x = CNum q.
Proof.
  intros Hc. unfold clean_cell. rewrite bool_decide_eq_false_2 by done.
  destruct x as [|q|s|t]; simpl; [by left|right; by exists q| |by left].
  destruct (to_numeric _) as [q|]; simpl; [right; by exists q|by left].
Qed.

Lemma clean_cell_idemp c x : clean_cell c (clean_cell c x) = clean_cell c x.
Proof.
  destruct (decide (c ∈ key_columns)) as [Hc|Hc].
  - by rewrite !clean_cell_key.
  - destruct (clean_cell_numeric c x Hc) as [->|[q ->]];
      unfold clean_cell; by rewrite bool_decide_eq_false_2.
Qed.

Lemma lookup_parse_fecha (r : Row) c :
  parse_fecha r !! c =
  if bool_decide (c = "month")
  then Some (month_of_time (to_datetime (cell_at r "fecha")))
  else if bool_decide (c = "fecha")
  then Some (cell_of_time (to_datetime (cell_at r "fecha")))
  else r !! c.
Proof.
  unfold parse_fecha. case_bool_decide as Hm.
  { subst c. by rewrite lookup_insert_eq. }
  rewrite lookup_insert_ne by done. case_bool_decide as Hf.
  { subst c. by rewrite lookup_insert_eq. }
  by rewrite lookup_insert_ne.
Qed.

Lemma columns_clean_daily_payload df :
  "fecha" ∈ columns (_clean_daily_payload df) ↔ "fecha" ∈ columns df.
Proof.
  destruct (df_empty df) eqn:He.
  { unfold _clean_daily_payload. by rewrite He. }
  rewrite clean_daily_payload_rows by done. rewrite !elem_of_columns. split.
  - intros (r' & [r [-> Hr]]%list_elem_of_fmap & Hc).
    case_bool_decide as Hf; [by apply elem_of_columns in Hf|].
    exists r. split; [done|]. rewrite lookup_clean_row in Hc.
    by apply fmap_is_Some in Hc.
  - intros (r & Hr & Hc).
    assert ("fecha" ∈ columns df) as Hf by (apply elem_of_columns; eauto).
    eexists. split; [apply list_elem_of_fmap; by exists r|].
    rewrite bool_decide_eq_true_2 by done.
    rewrite lookup_clean_row, lookup_parse_fecha. by simpl.
Qed.

Lemma df_empty_clean_daily_payload df :
  df_empty (_clean_daily_payload df) = df_empty df.
Proof.
  destruct (df_empty df) eqn:He.
  { unfold _clean_daily_payload. by rewrite He, He. }
  rewrite clean_daily_payload_rows by done.
  destruct df as [|r0 df]; [done|]. simpl in He. apply bool_decide_eq_false in He.
  assert (∃ c, c ∈ columns (r0 :: df)) as [c Hc].
  { apply set_choose_L. done. }
  apply elem_of_columns in Hc as (r & Hr & Hc).
  apply (df_empty_false_columns _ c). apply elem_of_columns.
  eexists. split; [apply list_elem_of_fmap; by exists r|].
  rewrite lookup_clean_row. apply fmap_is_Some.
  case_bool_decide; [|done]. rewrite lookup_parse_fecha.
  repeat case_bool_decide; done.
Qed.

End Cleaning.

(** X7.  After cleaning, no measurement is left as text: every cell
    outside the key columns [indicativo], [nombre], [provincia], [fecha]
    and [month] is a number or NaN, whatever the payload held there. *)
Theorem clean_daily_payload_numeric_cells `{Externals} (df : DataFrame) (r : Row)
    (c : string) :
  r ∈ _clean_daily_payload df → c ∉ key_columns →
  cell_at r c = CNaN ∨ ∃ x, cell_at r c = CNum x.
Proof.
  intros Hr Hc. destruct (df_empty df) eqn:He.
  - unfold _clean_daily_payload in Hr. rewrite He in Hr.
    rewrite (df_empty_rows df r He Hr). by left.
  - rewrite clean_daily_payload_rows in Hr by done.
    apply list_elem_of_fmap in Hr as [r0 [-> Hr0]].
    unfold cell_at. rewrite lookup_clean_row.
    destruct (_ !! c) as [x|]; simpl; [|by left].
    by apply clean_cell_numeric.
Qed.

Lemma clean_daily_payload_numeric_cells_witness :
  let r : Row := {[ "fecha" := CTime (mkTimestamp 2017 3 1 0 0 0);
                    "month" := CNum 3; "prec" := CNum 0 ]} in
  cell_at r "prec" = CNaN ∨ ∃ x, cell_at r "prec" = CNum x.
Proof.
  intros r.
  apply (clean_daily_payload_numeric_cells (H := sample_externals) [one_record]).
  - rewrite raw_cache_hit_cleaned. apply list_elem_of_here.
  - unfold key_columns. set_solver.
Defined.

(** X8.  Cleaning keeps the rows and the station's text: the output has
    as many rows as the input, and the columns [indicativo], [nombre] and
    [provincia] hold, row by row, exactly what they held (or are missing
    where they were). *)
Theorem clean_daily_payload_keeps_text (E : Externals) (df : DataFrame) :
  length (_clean_daily_payload df) = length df
  ∧ ∀ c, c ∈ ["indicativo"; "nombre"; "provincia"] →
         (λ r : Row, r !! c) <$> _clean_daily_payload df = (λ r : Row, r !! c) <$> df.
Proof.
  destruct (df_empty df) eqn:He.
  { unfold _clean_daily_payload. by rewrite He. }
  rewrite clean_daily_payload_rows by done. split; [by rewrite length_fmap|].
  intros c Hc. rewrite <- list_fmap_compose. apply list_fmap_ext. intros _ r _.
  cbn [compose]. rewrite lookup_clean_row.
  assert (c ∈ key_columns) as Hkey by (unfold key_columns; set_solver).
  assert (c ≠ "month" ∧ c ≠ "fecha") as [Hm Hf] by set_solver.
  assert ((if bool_decide ("fecha" ∈ columns df) then parse_fecha r else r) !! c
          = r !! c) as ->.
  { case_bool_decide; [|done]. rewrite lookup_parse_fecha.
    by rewrite !bool_decide_eq_false_2. }
  destruct (r !! c) as [x|]; simpl; [|done]. by rewrite clean_cell_key.
Qed.

(** X9.  When the payload has a [fecha] column, every row of the cleaned
    frame carries a parsed date together with the month of that very date,
    or NaT together with NaN: [month] never disagrees with [fecha], and
    neither is left as text. *)
Theorem clean_daily_payload_month_follows_fecha `{Externals} (df : DataFrame)
    (r : Row) :
  "fecha" ∈ columns df → r ∈ _clean_daily_payload df →
  (∃ t, r !! "fecha" = Some (CTime t)
        ∧ r !! "month" = Some (CNum (inject_Z (ts_month t))))
  ∨ (r !! "fecha" = Some CNaN ∧ r !! "month" = Some CNaN).
Proof.
  intros Hf Hr.
  rewrite clean_daily_payload_rows in Hr by by eapply df_empty_false_columns.
  apply list_elem_of_fmap in Hr as [r0 [-> Hr0]].
  rewrite bool_decide_eq_true_2 by done.
  rewrite !lookup_clean_row, !lookup_parse_fecha. simpl.
  rewrite !clean_cell_key by (unfold key_columns; set_solver).
  destruct (to_datetime (cell_at r0 "fecha")) as [t|]; simpl; [left|right]; eauto.
Qed.

Lemma clean_daily_payload_month_follows_fecha_witness :
  let r : Row := {[ "fecha" := CTime (mkTimestamp 2017 3 1 0 0 0);
                    "month" := CNum 3; "prec" := CNum 0 ]} in
  (∃ t, r !! "fecha" = Some (CTime t)
        ∧ r !! "month" = Some (CNum (inject_Z (ts_month t))))
  ∨ (r !! "fecha" = Some CNaN ∧ r !! "month" = Some CNaN).
Proof.
  intros r.
  apply (clean_daily_payload_month_follows_fecha (H := sample_externals) [one_record]).
  - apply elem_of_columns. exists one_record. split; [apply list_elem_of_here|].
    by exists (CStr "2017-03-01").
  - rewrite raw_cache_hit_cleaned. apply list_elem_of_here.
Defined.

(** X10.  Cleaning twice is cleaning once, as long as [pd.to_datetime]
    hands a timestamp back as it is and takes NaN to NaT.  This is what a
    cache hit relies on: the year downloader stores the cleaned frame and
    cleans it again when it reads the file back. *)
Theorem clean_daily_payload_idempotent `{Externals} (df : DataFrame) :
  (∀ t, to_datetime (CTime t) = Some t) → to_datetime CNaN = None →
  _clean_daily_payload (_clean_daily_payload df) = _clean_daily_payload df.
Proof.
  intros Htime Hnan. destruct (df_empty df) eqn:He.
  { unfold _clean_daily_payload. by rewrite He, He. }
  rewrite (clean_daily_payload_rows (_clean_daily_payload df))
    by by rewrite df_empty_clean_daily_payload.
  rewrite (bool_decide_ext _ _ (columns_clean_daily_payload df)).
  rewrite clean_daily_payload_rows by done.
  rewrite <- list_fmap_compose. apply list_fmap_ext. intros _ r _. cbn [compose].
  apply map_eq. intros c. rewrite !lookup_clean_row.
  case_bool_decide as Hf.
  - remember (to_datetime (cell_at r "fecha")) as t eqn:Et.
    assert (to_datetime (cell_at (map_imap (λ col c0, Some (clean_cell col c0))
                                    (parse_fecha r)) "fecha") = t) as Ht.
    { unfold cell_at. rewrite lookup_clean_row, lookup_parse_fecha. simpl.
      rewrite clean_cell_key by (unfold key_columns; set_solver).
      fold (cell_at r "fecha"). rewrite <- Et.
      destruct t; simpl; [apply Htime|apply Hnan]. }
    rewrite (lookup_parse_fecha (map_imap _ _)), Ht, lookup_clean_row.
    rewrite lookup_parse_fecha, <- Et.
    repeat case_bool_decide; subst; simpl;
      rewrite ?clean_cell_key by (unfold key_columns; set_solver); try done.
    destruct (r !! c); simpl; [|done]. by rewrite clean_cell_idemp.
  - rewrite lookup_clean_row. destruct (r !! c); simpl; [|done].
    by rewrite clean_cell_idemp.
Qed.

Lemma clean_daily_payload_idempotent_witness :
  _clean_daily_payload (H := sample_externals)
    (_clean_daily_payload (H := sample_externals) [one_record])
  = _clean_daily_payload (H := sample_externals) [one_record].
Proof.
  apply (clean_daily_payload_idempotent (H := sample_externals) [one_record]).
  - intros t. reflexivity.
  - reflexivity.
Defined.

(** ** The year downloader and its cache *)

Section YearCache.
Context `{Externals}.

Lemma GetsOnly_fetch_levels stid levels : GetsOnly (fetch_levels stid levels).
Proof.
  induction levels as [|rr levels IH]; [apply GetsOnly_ret|].
  intros w. rewrite fetch_levels_cons.
  pose proof (level_result_gets_only stid rr w) as Hlevel.
  destruct (level_result stid rr w).1; simpl; [|done].
  eapply gets_only_trans; [done|apply IH].
Qed.

Lemma fetch_levels_ok stid levels w :
  ∃ frames w1, fetch_levels stid levels w = (Ok frames, w1)
               ∧ Forall (λ df, df_empty df = false) frames.
Proof.
  revert w. induction levels as [|rr levels IH]; intros w.
  { by eexists _, _. }
  rewrite fetch_levels_cons.
  pose proof (level_result_nonempty stid rr w) as Hn.
  destruct (level_result stid rr w).1 as [|f fs] eqn:E; [apply IH|].
  by eexists _, _.
Qed.

(** What a download leaves behind: GETs, and the frame under its cache
    name when there is one. *)
Lemma download_year_effect stid year w :
  ∃ df w1,
    gets_only w w1
    ∧ download_year stid year w
      = (Ok df,
         if df_empty df then w1
         else set_cache_files (<[cache_name stid year := Stored df]> (cache_files w1)) w1).
Proof.
  destruct (fetch_levels_ok stid (ranges year) w) as (frames & w1 & Hl & Hn).
  pose proof (GetsOnly_fetch_levels stid (ranges year) w) as Hg.
  rewrite Hl in Hg. simpl in Hg.
  rewrite (download_year_frames stid year frames w1 w Hl Hn).
  destruct frames as [|f fs].
  - by exists [], w1.
  - exists (concat (f :: fs)), w1. split; [done|].
    by rewrite df_empty_concat.
Qed.

End YearCache.

(** X11.  [get_daily_climate_year] never raises: an unreadable cache
    file, a failed sub-range, a dead short URL all end in a frame, possibly
    empty.  Of the world it changes the request log and at most one file,
    the cache entry of this station and year; the ledgers and every other
    cache entry are as they were. *)
Theorem climate_year_never_raises (E : Externals) (stid : string) (year : Z)
    (w : World) :
  ∃ df w',
    get_daily_climate_year stid year w = (Ok df, w')
    ∧ requests w `suffix_of` requests w'
    ∧ done_file w' = done_file w ∧ fail_file w' = fail_file w
    ∧ ∀ name, name ≠ cache_name stid year →
              cache_files w' !! name = cache_files w !! name.
Proof.
  unfold get_daily_climate_year.
  destruct (cache_files w !! cache_name stid year) as [[|stored]|] eqn:Hc;
    [|by eexists _, _|];
    destruct (download_year_effect stid year w) as (df & w1 & [l ->] & ->);
    exists df; eexists; (split; [done|]);
    destruct (df_empty df); simpl; (split_and!; [by exists l|done|done|]);
    intros name Hname; by rewrite ?lookup_insert_ne.
Qed.



(** ** The ledger *)

(** X13.  Marking and loading: after [_mark_done stid] the done set read
    by [_load_done] is the set read before together with [stid] stripped
    of surrounding whitespace, unless nothing is left of it; so a station
    is recognised on the next run exactly when its id has no surrounding
    whitespace and is not empty, or was in the ledger already.
    [_mark_fail] does not change what [_load_done] reads. *)
Theorem mark_done_then_load_done (stid : string) (w : World) :
  let before := ledger_ids (lines (done_file w)) in
  (∃ w', (_ <- _mark_done stid ;; _load_done) w
         = (Ok (before ∪ (if bool_decide (strip stid = "") then ∅
                          else {[ strip stid ]})), w')
         ∧ (stid ∈ ledger_ids (lines (done_file w'))
            ↔ stid ∈ before ∨ (strip stid = stid ∧ stid ≠ "")))
  ∧ (∃ w', (_ <- _mark_fail stid ;; _load_done) w = (Ok before, w')).
Proof.
  intros before. split.
  - exists (set_done_file (Some (lines (done_file w) ++ [stid])) w).
    assert (ledger_ids (lines (done_file w) ++ [stid])
            = before ∪ (if bool_decide (strip stid = "") then ∅
                        else {[ strip stid ]})) as Happ by apply ledger_ids_app.
    split.
    { unfold bind, _mark_done. rewrite load_done_eq. simpl.
      fold (lines (done_file w)). by rewrite Happ. }
    simpl. rewrite Happ. case_bool_decide as He.
    + rewrite elem_of_union, elem_of_empty. split; [intros [?|[]]; by left|].
      intros [?|[Hs Hn]]; [by left|]. congruence.
    + rewrite elem_of_union, elem_of_singleton. split.
      * intros [?|Hs]; [by left|right]. split; congruence.
      * intros [?|[Hs Hn]]; [by left|by right].
  - eexists. unfold bind, _mark_fail. by rewrite load_done_eq.
Qed.

(** ** The orchestrator *)

Lemma elem_of_ledger_ids ls x :
  x ∈ ledger_ids ls ↔ x ≠ "" ∧ ∃ l, l ∈ ls ∧ strip l = x.
Proof.
  unfold ledger_ids. rewrite elem_of_list_to_set, list_elem_of_filter.
  rewrite list_elem_of_fmap. split.
  - intros [Hx (l & -> & Hl)]. split; [done|]. by exists l.
  - intros [Hx (l & Hl & <-)]. split; [done|]. by exists l.
Qed.

Lemma NoDup_pd_unique_from seen l : NoDup (pd_unique_from seen l).
Proof.
  revert seen. induction l as [|x l IH]; intros seen; simpl; [constructor|].
  case_bool_decide; [apply IH|]. constructor; [|apply IH].
  rewrite elem_of_pd_unique_from. intros [_ Hx]. apply Hx. apply list_elem_of_here.
Qed.

Lemma sublist_pd_unique_from seen l : pd_unique_from seen l `sublist_of` l.
Proof.
  revert seen. induction l as [|x l IH]; intros seen; simpl; [done|].
  case_bool_decide; [apply sublist_cons|apply sublist_skip]; apply IH.
Qed.


Section Resume.
Context `{Externals}.

Lemma process_stations_all_done done stids station_frames w :
  (∀ stid, stid ∈ stids → stid ∈ done) →
  process_stations done stids station_frames w = (Ok station_frames, w).
Proof.
  induction stids as [|stid stids IH]; intros Hall; [done|].
  cbn [process_stations]. unfold bind.
  rewrite process_station_done by (apply Hall, list_elem_of_here).
  apply IH. intros s Hs. apply Hall. by apply list_elem_of_further.
Qed.

(** One frame for each station attempted, labelled with it on every row. *)
Lemma process_stations_frames done stids station_frames w :
  ∃ new w',
    process_stations done stids station_frames w = (Ok (station_frames ++ new), w')
    ∧ Forall2 (λ stid (df : DataFrame),
                 ∀ r, r ∈ df → r !! "nearest_station" = Some (CStr stid))
        (filter (λ s, s ∉ done) stids) new.
Proof.
  revert station_frames w. induction stids as [|stid stids IH]; intros fr w.
  - exists [], w. rewrite app_nil_r. by split; [|constructor].
  - cbn [process_stations]. unfold bind at 1.
    destruct (decide (stid ∈ done)) as [Hin|Hnot].
    + rewrite process_station_done by done.
      rewrite filter_cons_False by auto. apply IH.
    + destruct (process_station_todo done stid fr w Hnot) as (df & w1 & _ & ->).
      destruct (IH (fr ++ [with_station stid (if df_empty df then [] else df)])
                   (set_done_file (Some (lines (done_file w) ++ [stid])) w1))
        as (new & w' & -> & Hnew).
      eexists (_ :: new), w'. rewrite <- app_assoc. split; [done|].
      rewrite filter_cons_True by done. constructor; [|done].
      intros r [r0 [-> _]]%list_elem_of_fmap. by rewrite lookup_insert_eq.
Qed.

End Resume.

(** X15.  A run never raises and never writes the failed ledger: the year
    downloader turns every failure into an empty frame, so each station
    attempted ends as a line of the done ledger, in the order of the visit.
    The frame returned holds one block per station attempted, each row
    labelled with its station; stations already in the done ledger
    contribute no row. *)
Theorem run_marks_every_attempt_done `{Externals}
    (perfiles : list (string * option string)) (w : World) :
  let todo := filter (λ stid, stid ∉ ledger_ids (lines (done_file w)))
                (unique_stations perfiles) in
  ∃ frames w',
    build_and_save_climate_2017 perfiles w = (Ok (concat frames), w')
    ∧ lines (done_file w') = lines (done_file w) ++ todo
    ∧ fail_file w' = fail_file w
    ∧ Forall2 (λ stid (df : DataFrame),
                 ∀ r, r ∈ df → r !! "nearest_station" = Some (CStr stid))
        todo frames.
Proof.
  intros todo. unfold build_and_save_climate_2017. unfold bind at 1.
  rewrite load_done_eq. unfold bind.
  destruct (process_stations_frames (ledger_ids (lines (done_file w)))
              (unique_stations perfiles) [] w) as (new & w' & Hrun & Hnew).
  destruct (process_stations_ledgers (ledger_ids (lines (done_file w)))
              (unique_stations perfiles) [] w) as (fr & w'' & Hrun' & Hd & Hf).
  rewrite Hrun in Hrun'. injection Hrun' as <- <-.
  rewrite Hrun. by exists new, w'.
Qed.



(** ** The station inventory *)

Section InventoryCache.
Context `{Externals}.

Lemma parse_inventory_in_range dates_required df st :
  parse_inventory dates_required df = Ok st →
  Forall (λ s, coords_in_range s = true) st.
Proof.
  unfold parse_inventory.
  destruct (negb _ || negb _); [done|].
  destruct (dates_required && _); [done|].
  intros [= <-]. apply Forall_forall. intros s Hs.
  apply list_elem_of_filter in Hs as [_ Hs].
  by apply list_elem_of_filter in Hs as [Hr _].
Qed.

Lemma get_aemet_stations_in_range w stations w' :
  get_aemet_stations w = (Ok stations, w') →
  stations ≠ [] ∧ Forall (λ s, coords_in_range s = true) stations.
Proof.
  unfold get_aemet_stations, bind, lift, ret, raise.
  destruct (read_stations_cache w) as [[df|e] w1]; [|done].
  destruct (parse_inventory false df) as [st|e] eqn:Hst; [|done].
  destruct st as [|s st].
  - destruct (_load w1) as [[df2|e] w2]; [|done].
    destruct (parse_inventory true df2) as [st2|e] eqn:Hst2; [|done].
    destruct st2 as [|s2 st2]; [done|].
    intros [= <- <-]. split; [done|]. by eapply parse_inventory_in_range.
  - intros [= <- <-]. split; [done|]. by eapply parse_inventory_in_range.
Qed.

Lemma coords_in_range_has_coords s :
  coords_in_range s = true → has_coords (lat s) (lon s) = true.
Proof.
  unfold coords_in_range, has_coords, between.
  destruct (lat s), (lon s); simpl; try done.
  by rewrite andb_false_r.
Qed.

Lemma Spends_load : Spends (5 + 6) _load.
Proof.
  unfold _load. apply Spends_bind; [apply Spends_get_json|]. intros meta.
  change 6%nat with (0 + (6 + (0 + (0 + 0))))%nat.
  apply Spends_bind; [apply Spends_lift|]. intros short.
  apply Spends_bind; [apply Spends_get_json_at|]. intros payload.
  apply Spends_bind; [apply Spends_lift|]. intros df.
  apply Spends_bind; [|intros _; apply Spends_ret]. intros w. by exists [].
Qed.

(** [_load] starts with a GET of the inventory URL. *)
Lemma load_first_get w :
  ∃ l, requests (_load w).2 = l ++ inventory_url :: requests w ∧ (length l < 5 + 6)%nat.
Proof.
  destruct (Spends_load w) as (l' & Hl' & Hlen).
  assert (∃ l, requests (_load w).2 = l ++ inventory_url :: requests w) as [l Hl].
  { unfold _load. unfold bind at 1.
    destruct (gets_from_get_json inventory_url 4 w) as [l0 Hl0].
    destruct (_get_json inventory_url 5 w) as [[meta|e] w1]; simpl in Hl0; subst w1;
      [|by exists l0].
    match goal with |- context [(?c ?w0).2] =>
      assert (∃ l1, requests (c w0).2 = l1 ++ requests w0) as [l1 Hl1]
    end.
    { match goal with |- context [(?c ?w0).2] =>
        destruct (Spends_bind 0 (6 + (0 + (0 + 0))) (lift (meta_index_datos meta))
                    (λ short, payload <- _get_json_at short 6 ;;
                              df <- lift (data_frame_of payload) ;;
                              _ <- to_json stations_cache df ;; ret df) (Spends_lift _)
                    ltac:(intros short;
                          apply Spends_bind; [apply Spends_get_json_at|]; intros payload;
                          apply Spends_bind; [apply Spends_lift|]; intros df;
                          apply Spends_bind; [|intros _; apply Spends_ret];
                          intros w2; by exists []) w0) as (l1 & Hl1 & _)
      end.
      by exists l1. }
    exists (l1 ++ l0). rewrite Hl1. simpl. by rewrite app_assoc. }
  exists l. split; [done|].
  assert (l' = l ++ [inventory_url]) as ->.
  { apply (app_inv_tail (requests w)). by rewrite <- Hl', <- app_assoc. }
  rewrite length_app in Hlen. simpl in Hlen. lia.
Qed.

End InventoryCache.

(** X17.  An inventory that [get_aemet_stations] returns is never empty,
    and each of its stations has a latitude within [-90, 90] and a
    longitude within [-180, 180]; so the assigner, which drops stations
    without coordinates, drops none of them. *)
Theorem inventory_is_usable `{Externals} (w w' : World) (stations : list Station) :
  get_aemet_stations w = (Ok stations, w') →
  stations ≠ []
  ∧ Forall (λ s, between (-90) 90 (lat s) = true ∧ between (-180) 180 (lon s) = true)
      stations
  ∧ filter (λ s, has_coords (lat s) (lon s) = true) stations = stations.
Proof.
  intros Hget.
  destruct (get_aemet_stations_in_range w stations w' Hget) as [Hne Hall].
  split_and!; [done| |].
  - eapply Forall_impl; [exact Hall|]. intros s Hs.
    by apply andb_true_iff in Hs.
  - clear Hget Hne. induction Hall as [|s st Hs Hall IH]; [done|].
    rewrite filter_cons_True by by apply coords_in_range_has_coords.
    by f_equal.
Qed.

Lemma inventory_is_usable_witness :
  [station_S] ≠ []
  ∧ Forall (λ s, between (-90) 90 (lat s) = true ∧ between (-180) 180 (lon s) = true)
      [station_S]
  ∧ filter (λ s, has_coords (lat s) (lon s) = true) [station_S] = [station_S].
Proof.
  apply (inventory_is_usable (H := sample_externals) inventory_cached inventory_cached).
  vm_compute. reflexivity.
Defined.

(** X18.  The inventory cache is trusted as it is.  An unreadable
    [stations.json] is fatal: the read is not guarded, nothing is
    requested, and the error is the caller's (the climate cache, by
    contrast, falls back to a download).  A readable file with at least one
    station active in 2017 and in range answers the call with no GET and no
    write.  Without a file the first GET asks for the inventory URL, and
    the whole call, reload included, stays within 22 GETs. *)
Theorem inventory_cache_is_trusted `{Externals} (w : World) :
  (cache_files w !! stations_cache = Some Corrupt →
     get_aemet_stations w = (Raise ValueError, w))
  ∧ (∀ df s st,
       cache_files w !! stations_cache = Some (Stored df) →
       parse_inventory false df = Ok (s :: st) →
       get_aemet_stations w = (Ok (s :: st), w))
  ∧ (cache_files w !! stations_cache = None →
     ∃ l, requests (get_aemet_stations w).2 = l ++ inventory_url :: requests w
          ∧ (length l < 22)%nat).
Proof.
  split_and!.
  - intros Hc. unfold get_aemet_stations, read_stations_cache. unfold bind at 1.
    by rewrite Hc.
  - intros df s st Hc Hparse.
    unfold get_aemet_stations, read_stations_cache. unfold bind at 1.
    rewrite Hc. unfold bind, lift. by rewrite Hparse.
  - intros Hc. unfold get_aemet_stations, read_stations_cache. unfold bind at 1.
    rewrite Hc. destruct (load_first_get w) as (l & Hl & Hlen).
    destruct (_load w) as [[df|e] w1]; simpl in Hl; [|exists l; split; [done|lia]].
    unfold bind at 1. unfold lift at 1.
    destruct (parse_inventory false df) as [[|s st]|e];
      [|exists l; split; [done|lia]..].
    destruct (Spends_bind (5 + 6) (0 + 0) _load
                (λ df, st <- lift (parse_inventory true df) ;;
                       match st with [] => raise RuntimeError | _ => ret st end)
                Spends_load
                ltac:(intros df2; apply Spends_bind; [apply Spends_lift|];
                      intros [|s2 st2]; [apply Spends_raise|apply Spends_ret]) w1)
      as (l2 & Hl2 & Hlen2).
    exists (l2 ++ l). split.
    + rewrite Hl2, Hl. by rewrite app_assoc.
    + rewrite length_app. lia.
Qed.

Lemma inventory_cache_is_trusted_witness :
  get_aemet_stations (H := sample_externals) inventory_cached
  = (Ok [station_S], inventory_cached).
Proof.
  destruct (inventory_cache_is_trusted (H := sample_externals) inventory_cached)
    as (_ & Hhit & _).
  apply (Hhit (match cache_files inventory_cached !! stations_cache with
               | Some (Stored df) => df
               | _ => []
               end));
    vm_compute; reflexivity.
Defined.

(** ** The assigner *)

Section NearestActive.
Context `{Externals}.

(** What the choice of [chosen_for] means in terms of distances alone. *)
Lemma chosen_for_nearest_active st year p a :
  st ≠ [] → chosen_for st year p a →
  (1 ≤ station_rank_used a ≤ length st)%nat
  ∧ (station_active_2017 a = true ↔ ∃ s, s ∈ st ∧ active_in_year year s = true)
  ∧ ∀ j s x, st !! j = Some s → distances st p !! j = Some x →
             active_in_year year s = true ∨ station_active_2017 a = false →
             (distance_km a <= x)%Q.
Proof.
  intros Hst [(k & j0 & s0 & Hk & Hnames & Hact & Hmin & Hrank & Hflag)
             |(Hnone & j0 & s0 & Hhead & Hnames & Hnear & Hrank & Hflag)].
  - destruct Hnames as (Hs0 & _ & _ & _ & _ & Hd0). split; [|split].
    + rewrite Hrank. apply lookup_lt_Some in Hk.
      rewrite argsort_length, length_distances in Hk. lia.
    + split; [|done]. intros _. exists s0. split; [|done].
      by eapply list_elem_of_lookup_2.
    + intros j s x Hs Hx [Hon|Hoff]; [|congruence].
      assert (j ∈ argsort (distances st p)) as [k' Hk']%list_elem_of_lookup.
      { rewrite argsort_perm. apply elem_of_seq. apply lookup_lt_Some in Hx. lia. }
      destruct (decide (k' < k)%nat) as [Hlt|Hge].
      { rewrite (Hmin k' j s Hlt Hk' Hs) in Hon. done. }
      apply (argsort_ascending (distances st p) k k' j0 j); [lia|done..].
  - destruct Hnames as (Hs0 & _ & _ & _ & _ & Hd0). split; [|split].
    + rewrite Hrank. destruct st; [done|]. simpl. lia.
    + rewrite Hflag. split; [done|]. intros (s & Hs & Hon).
      by rewrite (Hnone s Hs) in Hon.
    + intros j s x Hs Hx _. apply Hnear. by eapply list_elem_of_lookup_2.
Qed.

End NearestActive.

(** X19.  The station assigned is the nearest active one.  With [st] the
    stations that have coordinates: the active flag of an assignment is set
    exactly when some station of [st] is active in [year]; when it is set,
    no station active in [year] is nearer to the profile than the one
    assigned; when it is cleared, no station at all is nearer.  The rank
    used lies between 1 and the number of stations. *)
Theorem assigned_station_is_nearest_active `{Externals} (perfiles : list Profile)
    (stations : list Station) (year : Z) (out : list Assignment) :
  assign_nearest_station perfiles stations year = Ok out →
  let pfv := filter (λ p, has_coords (pf_lat p) (pf_lon p) = true) perfiles in
  let st := filter (λ s, has_coords (lat s) (lon s) = true) stations in
  Forall2 (λ p a,
      (1 ≤ station_rank_used a ≤ length st)%nat
      ∧ (station_active_2017 a = true ↔ ∃ s, s ∈ st ∧ active_in_year year s = true)
      ∧ ∀ j s x, st !! j = Some s → distances st p !! j = Some x →
                 active_in_year year s = true ∨ station_active_2017 a = false →
                 (distance_km a <= x)%Q)
    pfv out.
Proof.
  intros Hout pfv st. unfold assign_nearest_station in Hout. fold pfv st in Hout.
  destruct pfv as [|p0 pfv']; [done|].
  destruct st as [|s0 st'] eqn:Est; [done|].
  destruct (result_map_Forall2
              (assign_profile (s0 :: st') (_active_mask_for_year (s0 :: st') year))
              (chosen_for (s0 :: st') year) (p0 :: pfv')) as (out' & Hout' & Hall).
  { intros q _. by apply assign_profile_chosen. }
  rewrite Hout in Hout'. injection Hout' as <-.
  eapply Forall2_impl; [exact Hall|]. intros p a Hchosen.
  by apply chosen_for_nearest_active.
Qed.

Lemma assigned_station_is_nearest_active_witness :
  let st := [station_S; station_T] in
  Forall2 (λ p a,
      (1 ≤ station_rank_used a ≤ length st)%nat
      ∧ (station_active_2017 a = true ↔ ∃ s, s ∈ st ∧ active_in_year 2017 s = true)
      ∧ ∀ j s x, st !! j = Some s →
                 distances (H := sample_externals) st p !! j = Some x →
                 active_in_year 2017 s = true ∨ station_active_2017 a = false →
                 (distance_km a <= x)%Q)
    [profile_P] [mkAssignment "P" "S" "Sur" "MADRID" (22200 # 10000)%Q true 2].
Proof.
  apply (assigned_station_is_nearest_active (H := sample_externals) [profile_P]
           [station_S; station_T] 2017).
  vm_compute. reflexivity.
Defined.

(** ** The activity mask *)

Lemma lex_leb_upper_mono x a y y' b :
  y ≤ y' → lex_leb (x :: a) (y :: b) = true → lex_leb (x :: a) (y' :: b) = true.
Proof.
  intros Hy. cbn [lex_leb].
  destruct (Z.ltb_spec x y), (Z.ltb_spec x y'), (Z.eqb_spec x y), (Z.eqb_spec x y');
    simpl; try done; lia.
Qed.

Lemma lex_leb_lower_mono y y' a x b :
  y' ≤ y → lex_leb (y :: a) (x :: b) = true → lex_leb (y' :: a) (x :: b) = true.
Proof.
  intros Hy. cbn [lex_leb].
  destruct (Z.ltb_spec y x), (Z.ltb_spec y' x), (Z.eqb_spec y x), (Z.eqb_spec y' x);
    simpl; try done; lia.
Qed.

Lemma active_in_year_between s y1 y2 y3 :
  y1 ≤ y2 ≤ y3 →
  active_in_year y1 s = true → active_in_year y3 s = true →
  active_in_year y2 s = true.
Proof.
  intros [H12 H23]. unfold active_in_year, active_between.
  rewrite !andb_true_iff. intros [Halta _] [_ Hbaja]. split.
  - destruct (fechaAlta s) as [t|]; [|done].
    by apply (lex_leb_upper_mono _ _ y1).
  - destruct (fechaBaja s) as [t|]; [|done].
    by apply (lex_leb_lower_mono y3).
Qed.

(** X20.  The years in which a station counts as active form an
    interval: a station that the mask marks active for [y1] and for [y3] is
    marked active for every year in between.  (A station without dates is
    active in every year.) *)
Theorem active_years_form_interval (stations : list Station) (y1 y2 y3 : Z)
    (j : nat) :
  y1 ≤ y2 ≤ y3 →
  _active_mask_for_year stations y1 !! j = Some true →
  _active_mask_for_year stations y3 !! j = Some true →
  _active_mask_for_year stations y2 !! j = Some true.
Proof.
  intros Hy. rewrite !lookup_active_mask.
  destruct (stations !! j) as [s|]; simpl; [|done].
  intros [= H1] [= H3]. f_equal. by apply (active_in_year_between s y1 y2 y3).
Qed.

Lemma active_years_form_interval_witness :
  _active_mask_for_year [station_S; station_T] 2003 !! 1%nat = Some true.
Proof.
  apply (active_years_form_interval [station_S; station_T] 1990 2003 2016 1).
  - lia.
  - reflexivity.
  - reflexivity.
Defined.

(** ** The imputation cascade *)

Lemma Qmean_between (lo hi a b : Q) :
  (lo <= a <= hi)%Q → (lo <= b <= hi)%Q → (lo <= (a + b) / 2 <= hi)%Q.
Proof.
  intros [Ha1 Ha2] [Hb1 Hb2]. split.
  - apply Qle_shift_div_l; [reflexivity|]. assert (lo * 2 == lo + lo)%Q as -> by ring.
    by apply Qplus_le_compat.
  - apply Qle_shift_div_r; [reflexivity|]. assert (hi * 2 == hi + hi)%Q as -> by ring.
    by apply Qplus_le_compat.
Qed.

Lemma median_between xs m (lo hi : Q) :
  (∀ x, x ∈ xs → (lo <= x <= hi)%Q) → median xs = Some m → (lo <= m <= hi)%Q.
Proof.
  intros Hall. unfold median.
  assert (∀ i x, merge_sort Qle xs !! i = Some x → (lo <= x <= hi)%Q) as Hs.
  { intros i x Hx. apply Hall. rewrite <- (merge_sort_Permutation Qle xs).
    by eapply list_elem_of_lookup_2. }
  destruct (length (merge_sort Qle xs)) as [|n]; [done|].
  destruct (Nat.odd (S n)).
  - apply Hs.
  - intros (a & Ha & (b & Hb & [= <-])%bind_Some)%bind_Some.
    apply Qmean_between; eauto.
Qed.

Lemma col_values_between c rows (lo hi : Q) :
  (∀ r v, r ∈ rows → cr_values r !! c = Some v → (lo <= v <= hi)%Q) →
  ∀ x, x ∈ col_values c rows → (lo <= x <= hi)%Q.
Proof.
  intros Hall x (r & Hr & Hx)%list_elem_of_omap. by eapply Hall.
Qed.

Lemma fillna_between cols fill rows c (lo hi : Q) :
  (∀ r v, r ∈ rows → cr_values r !! c = Some v → (lo <= v <= hi)%Q) →
  (∀ r m, r ∈ rows → fill r c = Some m → (lo <= m <= hi)%Q) →
  ∀ r v, r ∈ fillna cols fill rows → cr_values r !! c = Some v → (lo <= v <= hi)%Q.
Proof.
  intros Hrows Hfill r' v [r [-> Hr]]%list_elem_of_fmap. simpl.
  rewrite fill_values_lookup.
  destruct (cr_values r !! c) as [v0|] eqn:Hv0.
  - intros [= <-]. by eapply Hrows.
  - case_bool_decide; [|done]. by apply Hfill.
Qed.

Lemma medians_between rows c (lo hi : Q) :
  (∀ r v, r ∈ rows → cr_values r !! c = Some v → (lo <= v <= hi)%Q) →
  (∀ r m, station_month_median rows r c = Some m → (lo <= m <= hi)%Q)
  ∧ (∀ r m, station_median rows r c = Some m → (lo <= m <= hi)%Q)
  ∧ (∀ m, global_median rows c = Some m → (lo <= m <= hi)%Q).
Proof.
  intros Hrows. split_and!.
  - intros r m. unfold station_month_median. destruct (cr_month r); [|done].
    apply median_between, col_values_between.
    intros r' v [_ Hr']%list_elem_of_filter. by apply Hrows.
  - intros r m. apply median_between, col_values_between.
    intros r' v [_ Hr']%list_elem_of_filter. by apply Hrows.
  - intros m. by apply median_between, col_values_between.
Qed.

(** X21.  Imputation invents no extreme: when the values present in a
    column of the input all lie between [lo] and [hi], so do all the values
    of that column in the output, imputed ones included. *)
Theorem impute_within_observed_range (df : ClimaFrame) (c : string) (lo hi : Q) :
  (∀ r v, r ∈ cf_rows df → cr_values r !! c = Some v → (lo <= v <= hi)%Q) →
  ∀ r v, r ∈ cf_rows (impute_station_climate_2017 df) →
         cr_values r !! c = Some v → (lo <= v <= hi)%Q.
Proof.
  intros Hin. unfold impute_station_climate_2017.
  destruct (cf_rows df) as [|r0 rows] eqn:Hrows.
  { intros r v Hr. by apply elem_of_nil in Hr. }
  rewrite <- Hrows in Hin. clear Hrows. simpl.
  assert (∀ r v, r ∈ impute_station_month df → cr_values r !! c = Some v →
                 (lo <= v <= hi)%Q) as H1.
  { apply fillna_between; [done|]. intros r m _.
    by apply (medians_between (cf_rows df) c lo hi). }
  assert (∀ r v, r ∈ impute_station df → cr_values r !! c = Some v →
                 (lo <= v <= hi)%Q) as H2.
  { apply fillna_between; [done|]. intros r m _.
    by apply (medians_between (impute_station_month df) c lo hi). }
  apply fillna_between; [done|]. intros r m _.
  by apply (medians_between (impute_station df) c lo hi).
Qed.

Lemma impute_within_observed_range_witness :
  Forall (λ r, ∀ v, cr_values r !! "tmed" = Some v → (0 <= v <= 20)%Q)
    (cf_rows (impute_station_climate_2017 skewed_station)).
Proof.
  apply Forall_forall. intros r Hr v. revert r v Hr.
  apply (impute_within_observed_range skewed_station "tmed" 0%Q 20%Q).
  intros r v Hr Hv. simpl in Hr.
  repeat (apply elem_of_cons in Hr as [->|Hr];
          [vm_compute in Hv; try discriminate Hv; injection Hv as <-;
           split; discriminate|]).
  by apply elem_of_nil in Hr.
Defined.

Lemma fillna_fixed cols fill rows :
  (∀ r c, r ∈ rows → c ∈ cols → cr_values r !! c = None → fill r c = None) →
  fillna cols fill rows = rows.
Proof.
  intros Hfill. unfold fillna.
  induction rows as [|r rows IH]; [done|]. rewrite fmap_cons. f_equal.
  - destruct r as [s m vals]. simpl. f_equal.
    apply map_eq. intros c. rewrite fill_values_lookup.
    destruct (vals !! c) as [v|] eqn:Hv; [done|].
    case_bool_decide; [|done]. apply Hfill; [apply list_elem_of_here|done..].
  - apply IH. intros r' c Hr'. apply Hfill. by apply list_elem_of_further.
Qed.

(** After the cascade a numeric column has a value on every row or on
    none. *)
Lemma impute_column_full_or_null df c :
  c ∈ num_cols df →
  let out := cf_rows (impute_station_climate_2017 df) in
  (∀ r, r ∈ out → is_Some (cr_values r !! c))
  ∨ (∀ r, r ∈ out → cr_values r !! c = None).
Proof.
  intros Hc out.
  destruct (col_values c (cf_rows df)) as [|v0 vs] eqn:Hcol.
  - right.
    assert (∀ i, value_at (cf_rows df) i c = None) as Hnull.
    { intros i. destruct (value_at (cf_rows df) i c) as [v|] eqn:Hv; [|done].
      apply value_at_Some_elem in Hv as (r & Hr & Hv).
      pose proof (col_values_elem c _ r v Hr Hv) as Hin.
      rewrite Hcol in Hin. by apply elem_of_nil in Hin. }
    assert (∀ i, value_at out i c = None) as Hout.
    { intros i. unfold out. rewrite impute_value_at by done.
      unfold cascade_in_sequence.
      destruct (cf_rows df !! i) as [r|] eqn:Hr; [|done]. simpl.
      rewrite <- (value_at_lookup _ i r c Hr), Hnull.
      destruct (medians_of_null_column (cf_rows df) c (all_null_elem _ _ Hnull))
        as (-> & _ & _).
      assert (∀ i, value_at (impute_station_month df) i c = None) as Hnull1.
      { apply fillna_null_column; [done|].
        by destruct (medians_of_null_column (cf_rows df) c (all_null_elem _ _ Hnull)). }
      destruct (medians_of_null_column _ c (all_null_elem _ _ Hnull1))
        as (_ & -> & _).
      assert (∀ i, value_at (impute_station df) i c = None) as Hnull2.
      { apply fillna_null_column; [done|].
        by destruct (medians_of_null_column _ c (all_null_elem _ _ Hnull1))
          as (_ & ? & _). }
      by destruct (medians_of_null_column _ c (all_null_elem _ _ Hnull2))
        as (_ & _ & ->). }
    by apply all_null_elem.
  - left.
    assert (v0 ∈ col_values c (cf_rows df)) as Hv0 by (rewrite Hcol; left).
    apply list_elem_of_omap in Hv0 as (r0 & Hr0 & Hv0).
    apply list_elem_of_lookup in Hr0 as [i0 Hi0].
    assert (value_at (cf_rows df) i0 c = Some v0) as Hat
      by by rewrite (value_at_lookup _ i0 r0 c Hi0).
    assert (value_at (impute_station df) i0 c = Some v0) as Hkept.
    { unfold impute_station, impute_station_month. by do 2 apply fillna_keeps_values. }
    apply value_at_Some_elem in Hkept as (r2 & Hr2 & Hv2).
    intros r [i Hi]%list_elem_of_lookup.
    rewrite <- (value_at_lookup out i r c Hi). unfold out.
    rewrite impute_value_at by done. unfold cascade_in_sequence.
    destruct (cf_rows df !! i) as [ri|] eqn:Hri.
    2:{ exfalso. apply lookup_lt_Some in Hi. apply lookup_ge_None in Hri.
        unfold out, impute_station_climate_2017 in Hi.
        destruct (cf_rows df) as [|x xs] eqn:Hrows; [simpl in Hi; lia|].
        simpl in Hi. unfold impute_station, impute_station_month in Hi.
        rewrite !length_fillna, Hrows in Hi. lia. }
    simpl.
    destruct (cr_values ri !! c); [done|].
    destruct (station_month_median _ _ _); [done|].
    destruct (station_median _ _ _); [done|].
    by eapply global_median_is_Some.
Qed.

(** X22.  Imputing an imputed frame changes nothing: after the cascade
    each numeric column is either complete or entirely null, and in both
    cases the three passes find nothing to fill. *)
Theorem impute_idempotent (df : ClimaFrame) :
  impute_station_climate_2017 (impute_station_climate_2017 df)
  = impute_station_climate_2017 df.
Proof.
  pose proof (λ c Hc, impute_column_full_or_null df c Hc) as Hcols.
  unfold impute_station_climate_2017 at 2 3.
  unfold impute_station_climate_2017 in Hcols.
  destruct (cf_rows df) as [|r0 rows0] eqn:Hrows; [done|].
  simpl in Hcols.
  set (out := fillna (num_cols df) (λ _, global_median (impute_station df))
                (impute_station df)) in *.
  assert (out ≠ []) as Hne.
  { intros Hnil. apply (f_equal length) in Hnil. unfold out in Hnil.
    unfold impute_station, impute_station_month in Hnil.
    rewrite !length_fillna, Hrows in Hnil. done. }
  assert (∀ fill : list ClimaRow → ClimaRow → string → option Q,
            (∀ c, (∀ r, r ∈ out → cr_values r !! c = None) → ∀ r, fill out r c = None) →
            fillna (num_cols df) (fill out) out = out) as Hfixed.
  { intros fill Hfill. apply fillna_fixed. intros r c Hr Hc Hnone.
    destruct (Hcols c Hc) as [Hfull|Hnull].
    - destruct (Hfull r Hr) as [v Hv]. congruence.
    - by apply Hfill. }
  unfold impute_station_climate_2017. simpl.
  destruct out as [|r1 rows1] eqn:Hout; [done|]. rewrite <- Hout in *.
  unfold impute_station, impute_station_month. simpl.
  rewrite (Hfixed station_month_median)
    by (intros c Hnull; by apply medians_of_null_column).
  rewrite (Hfixed station_median)
    by (intros c Hnull; by apply medians_of_null_column).
  rewrite (Hfixed (λ rows _, global_median rows))
    by (intros c Hnull _; by apply medians_of_null_column).
  done.
Qed.

(** ** Header detection *)

Lemma scan_lines_snoc step i l x b :
  scan_lines step i (l ++ [x]) b = step (scan_lines step i l b) (i + length l)%nat x.
Proof.
  revert i b. induction l as [|y l IH]; intros i b; simpl.
  - by rewrite Nat.add_0_r.
  - rewrite IH. f_equal. lia.
Qed.

Lemma count_char_nonneg a s : 0 ≤ count_char a s.
Proof. induction s as [|b s IH]; simpl; [done|]. destruct (Ascii.eqb a b); lia. Qed.

(** What the first loop holds after the lines [seen]. *)
Lemma header_scan_invariant seen :
  let b := scan_lines header_step 0 seen (mkBest None (-1) (-1)) in
  match best_idx b with
  | None =>
      best_tabs b = -1
      ∧ ∀ j raw, seen !! j = Some raw → header_candidate raw = false
  | Some k =>
      ∃ best, seen !! k = Some best ∧ header_candidate best = true
              ∧ best_tabs b = tabs_of best ∧ best_score b = header_score best
              ∧ ∀ j raw, seen !! j = Some raw → header_candidate raw = true →
                         ¬ better_header best raw
                         ∧ ((j < k)%nat → better_header raw best)
  end.
Proof.
  induction seen as [|x seen IH] using rev_ind; [done|].
  rewrite scan_lines_snoc. simpl in *.
  set (b := scan_lines header_step 0 seen _) in *.
  unfold header_step.
  assert (∀ j raw, (seen ++ [x]) !! j = Some raw →
            (seen !! j = Some raw ∧ (j < length seen)%nat)
            ∨ (j = length seen ∧ raw = x)) as Hsplit.
  { intros j raw Hj. destruct (decide (j < length seen)%nat) as [Hlt|Hge].
    - left. by rewrite lookup_app_l in Hj.
    - right. rewrite lookup_app_r in Hj by lia.
      destruct (j - length seen)%nat as [|n] eqn:Hn; [|done].
      simpl in Hj. injection Hj as <-. split; [lia|done]. }
  assert (header_candidate x
          = negb (is_comment x) && (5 <=? tabs_of x) && (3 <=? header_score x))
    as Hcand by done.
  destruct (is_comment x) eqn:Hcom; simpl in Hcand.
  { destruct (best_idx b) as [k|].
    - destruct IH as (best & Hk & Hbest & Ht & Hs & Hall).
      exists best. split_and!; [by apply lookup_app_l_Some|done..|].
      intros j raw Hj Hraw. destruct (Hsplit j raw Hj) as [[Hj' _]|[_ ->]]; [eauto|].
      congruence.
    - destruct IH as [Ht Hall]. split; [done|].
      intros j raw Hj. destruct (Hsplit j raw Hj) as [[Hj' _]|[_ ->]]; eauto. }
  destruct (Z.ltb_spec (tabs_of x) 5) as [Hfew|Hmany].
  { assert (header_candidate x = false) as Hx.
    { rewrite Hcand. apply andb_false_intro1. apply Z.leb_gt. lia. }
    destruct (best_idx b) as [k|].
    - destruct IH as (best & Hk & Hbest & Ht & Hs & Hall).
      exists best. split_and!; [by apply lookup_app_l_Some|done..|].
      intros j raw Hj Hraw. destruct (Hsplit j raw Hj) as [[Hj' _]|[_ ->]]; [eauto|].
      congruence.
    - destruct IH as [Ht Hall]. split; [done|].
      intros j raw Hj. destruct (Hsplit j raw Hj) as [[Hj' _]|[_ ->]]; eauto. }
  assert ((5 <=? tabs_of x) = true) as H5 by (apply Z.leb_le; lia).
  rewrite H5 in Hcand. simpl in Hcand.
  destruct (Z.leb_spec 3 (header_score x)) as [Hscore|Hlow]; simpl.
  2:{ destruct (best_idx b) as [k|].
      - destruct IH as (best & Hk & Hbest & Ht & Hs & Hall).
        exists best. split_and!; [by apply lookup_app_l_Some|done..|].
        intros j raw Hj Hraw. destruct (Hsplit j raw Hj) as [[Hj' _]|[_ ->]]; [eauto|].
        congruence.
      - destruct IH as [Ht Hall]. split; [done|].
        intros j raw Hj. destruct (Hsplit j raw Hj) as [[Hj' _]|[_ ->]]; eauto. }
  destruct (best_idx b) as [k|] eqn:Hidx.
  - destruct IH as (best & Hk & Hbest & Ht & Hs & Hall).
    pose proof (lookup_lt_Some _ _ _ Hk) as Hklt.
    destruct ((best_tabs b <? tabs_of x)
              || ((tabs_of x =? best_tabs b) && (best_score b <? header_score x)))
      eqn:Hbeats; simpl.
    + assert (better_header best x) as Hbetter.
      { unfold better_header. rewrite <- Ht, <- Hs.
        apply orb_true_iff in Hbeats as [Hb|Hb]; [left; lia|right].
        apply andb_true_iff in Hb as [Hb1 Hb2]. lia. }
      exists x. split_and!; [|done..|].
      { rewrite lookup_app_r by lia. by rewrite Nat.sub_diag. }
      intros j raw Hj Hraw. destruct (Hsplit j raw Hj) as [[Hj' Hlt]|[-> ->]].
      * destruct (Hall j raw Hj' Hraw) as [Hnot _].
        unfold better_header in *. split; [lia|]. intros _. lia.
      * unfold better_header. split; [lia|]. lia.
    + rewrite Hidx.
      exists best. split_and!; [by apply lookup_app_l_Some|done..|].
      intros j raw Hj Hraw. destruct (Hsplit j raw Hj) as [[Hj' Hlt]|[-> ->]]; [eauto|].
      split; [|lia]. unfold better_header. rewrite <- Ht, <- Hs.
      apply orb_false_iff in Hbeats as [Hb1 Hb2].
      apply andb_false_iff in Hb2. intros [Hgt|[Heq Hgt]]; [lia|].
      destruct Hb2 as [Hb2|Hb2]; lia.
  - destruct IH as [Ht Hall]. rewrite Ht.
    assert ((-1 <? tabs_of x) = true) as -> by (apply Z.ltb_lt; lia). simpl.
    exists x. split_and!; [|done..|].
    { rewrite lookup_app_r by lia. by rewrite Nat.sub_diag. }
    intros j raw Hj Hraw. destruct (Hsplit j raw Hj) as [[Hj' Hlt]|[-> ->]].
    + rewrite (Hall j raw Hj') in Hraw. done.
    + unfold better_header. split; [lia|]. lia.
Qed.

(** What the fallback loop holds after the lines [seen], started from a
    first loop that found nothing. *)
Lemma fallback_scan_invariant seen score :
  let b := scan_lines fallback_step 0 seen (mkBest None (-1) score) in
  match best_idx b with
  | None => best_tabs b = -1 ∧ ∀ j raw, seen !! j = Some raw → is_comment raw = true
  | Some k =>
      ∃ best, seen !! k = Some best ∧ is_comment best = false
              ∧ best_tabs b = tabs_of best
              ∧ ∀ j raw, seen !! j = Some raw → is_comment raw = false →
                         tabs_of raw ≤ tabs_of best
                         ∧ ((j < k)%nat → tabs_of raw < tabs_of best)
  end.
Proof.
  induction seen as [|x seen IH] using rev_ind; [done|].
  rewrite scan_lines_snoc. simpl in *.
  set (b := scan_lines fallback_step 0 seen _) in *.
  unfold fallback_step.
  assert (∀ j raw, (seen ++ [x]) !! j = Some raw →
            (seen !! j = Some raw ∧ (j < length seen)%nat)
            ∨ (j = length seen ∧ raw = x)) as Hsplit.
  { intros j raw Hj. destruct (decide (j < length seen)%nat) as [Hlt|Hge].
    - left. by rewrite lookup_app_l in Hj.
    - right. rewrite lookup_app_r in Hj by lia.
      destruct (j - length seen)%nat as [|n] eqn:Hn; [|done].
      simpl in Hj. injection Hj as <-. split; [lia|done]. }
  pose proof (count_char_nonneg "009"%char x) as Hnonneg. fold (tabs_of x) in Hnonneg.
  destruct (is_comment x) eqn:Hcom.
  { destruct (best_idx b) as [k|].
    - destruct IH as (best & Hk & Hbest & Ht & Hall).
      exists best. split_and!; [by apply lookup_app_l_Some|done..|].
      intros j raw Hj Hraw. destruct (Hsplit j raw Hj) as [[Hj' _]|[_ ->]]; [eauto|].
      congruence.
    - destruct IH as [Ht Hall]. split; [done|].
      intros j raw Hj. destruct (Hsplit j raw Hj) as [[Hj' _]|[_ ->]]; eauto. }
  destruct (best_idx b) as [k|] eqn:Hidx.
  - destruct IH as (best & Hk & Hbest & Ht & Hall).
    pose proof (lookup_lt_Some _ _ _ Hk) as Hklt.
    destruct (Z.ltb_spec (best_tabs b) (tabs_of x)) as [Hmore|Hless]; simpl.
    + exists x. split_and!; [|done..|].
      { rewrite lookup_app_r by lia. by rewrite Nat.sub_diag. }
      intros j raw Hj Hraw. destruct (Hsplit j raw Hj) as [[Hj' Hlt]|[-> ->]].
      * destruct (Hall j raw Hj' Hraw) as [Hle _]. split; [lia|]. intros _. lia.
      * split; lia.
    + rewrite Hidx.
      exists best. split_and!; [by apply lookup_app_l_Some|done..|].
      intros j raw Hj Hraw. destruct (Hsplit j raw Hj) as [[Hj' Hlt]|[-> ->]]; [eauto|].
      split; lia.
  - destruct IH as [Ht Hall]. rewrite Ht.
    assert ((-1 <? tabs_of x) = true) as -> by (apply Z.ltb_lt; lia). simpl.
    exists x. split_and!; [|done..|].
    { rewrite lookup_app_r by lia. by rewrite Nat.sub_diag. }
    intros j raw Hj Hraw. destruct (Hsplit j raw Hj) as [[Hj' Hlt]|[-> ->]].
    + rewrite (Hall j raw Hj') in Hraw. done.
    + split; lia.
Qed.

(** X23.  The header line picked among the first 1000 lines.  If some
    line qualifies as a header (no comment, at least 5 tabs, at least 3
    keywords), the index returned is that of a qualifying line that no
    qualifying line beats (in tabs, then in score), and every qualifying
    line before it is strictly worse: it is the first of the best.  If no
    line qualifies, the index is that of the first line with the most tabs
    among the lines that are no comments; and if all lines are comments, or
    there is none, the index is 0. *)
Theorem detect_header_idx_first_of_the_best (lines : list string) :
  let head := take 1000 lines in
  let i := _detect_header_idx lines in
  (∀ j raw, head !! j = Some raw → header_candidate raw = true →
     ∃ best, head !! i = Some best ∧ header_candidate best = true
             ∧ ¬ better_header best raw
             ∧ ((j < i)%nat → better_header raw best))
  ∧ ((∀ j raw, head !! j = Some raw → header_candidate raw = false) →
     (∀ j raw, head !! j = Some raw → is_comment raw = false →
        ∃ best, head !! i = Some best ∧ is_comment best = false
                ∧ tabs_of raw ≤ tabs_of best
                ∧ ((j < i)%nat → tabs_of raw < tabs_of best))
     ∧ ((∀ j raw, head !! j = Some raw → is_comment raw = true) → i = 0%nat)).
Proof.
  intros head i. unfold i, _detect_header_idx. fold head.
  pose proof (header_scan_invariant head) as H1. simpl in H1.
  set (b := scan_lines header_step 0 head _) in *.
  destruct (best_idx b) as [k|] eqn:Hidx.
  - destruct H1 as (best & Hk & Hbest & _ & _ & Hall). split.
    + intros j raw Hj Hraw. exists best. destruct (Hall j raw Hj Hraw). eauto.
    + intros Hnone. rewrite (Hnone k best Hk) in Hbest. done.
  - destruct H1 as [Ht Hnone]. split.
    { intros j raw Hj Hraw. rewrite (Hnone j raw Hj) in Hraw. done. }
    intros _.
    assert (b = mkBest None (-1) (best_score b)) as Hb.
    { destruct b as [bi bt bs]. simpl in *. by subst. }
    pose proof (fallback_scan_invariant head (best_score b)) as H2. simpl in H2.
    rewrite <- Hb in H2.
    destruct (best_idx (scan_lines fallback_step 0 head b)) as [k|].
    + destruct H2 as (best & Hk & Hbest & _ & Hall). split.
      * intros j raw Hj Hraw. exists best. destruct (Hall j raw Hj Hraw). eauto.
      * intros Hcom. rewrite (Hcom k best Hk) in Hbest. done.
    + destruct H2 as [_ Hcom]. split; [|done].
      intros j raw Hj Hraw. rewrite (Hcom j raw Hj) in Hraw. done.
Qed.

(** On the sample file the second header-like line wins: as many tabs as
    the first, one keyword more. *)
Example detect_header_idx_sample : _detect_header_idx sample_tab_file = 3%nat.
Proof. vm_compute. reflexivity. Qed.

(** ** The table of sub-ranges *)

(** X24.  Each level of the table cuts the year into whole months: the
    year, two semesters, four quarters, twelve months, every sub-range
    running from the first day of a month to the last day of a month (the
    day numbers written into the table are the month ends of any year), and
    each level starting where the previous sub-range stopped.  So at every
    level the sub-ranges cover the year from 1 January to 31 December with
    no day missing and none asked for twice. *)
Theorem ranges_tile_the_year (year : Z) :
  ranges year
  = [ [month_span year 1 12];
      [month_span year 1 6; month_span year 7 12];
      [month_span year 1 3; month_span year 4 6; month_span year 7 9;
       month_span year 10 12];
      (λ m, month_span year m m) <$> seqZ 1 12 ].
Proof.
  unfold ranges, whole_year, halves, quarters, months, month_span.
  assert (∀ m, m ≠ 2 → _last_day_of_month year m
                       = if (m =? 4) || (m =? 6) || (m =? 9) || (m =? 11)
                         then 30 else 31) as Hlast.
  { intros m Hm. unfold _last_day_of_month.
    by rewrite (proj2 (Z.eqb_neq m 2) Hm). }
  rewrite !Hlast by lia. reflexivity.
Qed.

(** ** The coordinate parser *)

Lemma in_range_spec hem val v :
  Dms.in_range hem val = Some v →
  (-180 <= v <= 180)%Q
  ∧ (hem = Some "S"%char ∨ hem = Some "W"%char → (v <= 0)%Q)
  ∧ (hem = Some "N"%char ∨ hem = Some "E"%char → (0 <= v)%Q).
Proof.
  unfold Dms.in_range.
  destruct (Qle_bool (-180) _ && Qle_bool _ 180) eqn:Hr; [|done].
  intros [= <-]. apply andb_true_iff in Hr as [Hlo Hhi].
  apply Qle_bool_iff in Hlo, Hhi. split; [done|]. split.
  - intros [->| ->]; simpl;
      (apply (Qopp_le_compat 0 (Qabs val)), Qabs_nonneg).
  - intros [->| ->]; simpl; apply Qabs_nonneg.
Qed.

(** X25.  Whatever [float] makes of free text, a coordinate that
    [_parse_aemet_dms] returns lies between -180 and 180 degrees; with a
    final S or W it is not positive, with a final N or E not negative.
    (The bound is 180 for latitudes too: the range of a latitude is left to
    the caller.) *)
Theorem parse_aemet_dms_range_and_sign `{Externals} (float : string → Dms.PyFloat)
    (s : Cell) (v : Q) :
  Dms._parse_aemet_dms float s = Some v →
  (-180 <= v <= 180)%Q
  ∧ (hemisphere_of s = Some "S"%char ∨ hemisphere_of s = Some "W"%char → (v <= 0)%Q)
  ∧ (hemisphere_of s = Some "N"%char ∨ hemisphere_of s = Some "E"%char → (0 <= v)%Q).
Proof.
  unfold hemisphere_of. intros Hparse.
  assert (∃ val, Dms.in_range
                   (Dms.split_hemisphere (Dms.upper (strip (Dms.py_str s)))).1 val
                 = Some v) as [val Hval].
  { unfold Dms._parse_aemet_dms in Hparse.
    destruct s as [|x|str|ts]; [done|..];
      (case_bool_decide; [done|]);
      destruct (Dms.split_hemisphere _) as [hem t]; simpl;
      (destruct (_ && _ && _); [eauto|]);
      (destruct (float _) as [| |val]; [|done|eauto]);
      (destruct (Dms.findall _) as [|deg rest]; [done|]); eauto. }
  by eapply in_range_spec.
Qed.

Lemma parse_aemet_dms_range_and_sign_witness :
  let v := (-623340 # 216000)%Q in
  (-180 <= v <= 180)%Q
  ∧ (hemisphere_of (H := sample_externals) (CStr "025309W") = Some "S"%char
     ∨ hemisphere_of (H := sample_externals) (CStr "025309W") = Some "W"%char →
     (v <= 0)%Q)
  ∧ (hemisphere_of (H := sample_externals) (CStr "025309W") = Some "N"%char
     ∨ hemisphere_of (H := sample_externals) (CStr "025309W") = Some "E"%char →
     (0 <= v)%Q).
Proof.
  intros v.
  apply (parse_aemet_dms_range_and_sign (H := sample_externals) Dms.sample_float
           (CStr "025309W")).
  vm_compute. reflexivity.
Defined.

(** Strings, for the compact form. *)

Lemma string_app_cons c s t : String c s +:+ t = String c (s +:+ t).
Proof. done. Qed.

Lemma string_app_nil_r s : s +:+ "" = s.
Proof. induction s as [|c s IH]; [done|]. by rewrite string_app_cons, IH. Qed.

Lemma string_app_assoc s t u : (s +:+ t) +:+ u = s +:+ t +:+ u.
Proof. induction s as [|c s IH]; [done|]. by rewrite !string_app_cons, IH. Qed.

Lemma string_length_app s t :
  String.length (s +:+ t) = (String.length s + String.length t)%nat.
Proof. induction s as [|c s IH]; [done|]. rewrite string_app_cons. simpl. by rewrite IH. Qed.

Lemma string_all_app P s t :
  string_all P (s +:+ t) = string_all P s && string_all P t.
Proof.
  induction s as [|c s IH]; [done|]. rewrite string_app_cons. simpl.
  by rewrite IH, andb_assoc.
Qed.

Lemma string_all_impl (P Q : ascii → bool) s :
  (∀ c, P c = true → Q c = true) → string_all P s = true → string_all Q s = true.
Proof.
  intros HPQ. induction s as [|c s IH]; [done|]. simpl.
  rewrite !andb_true_iff. intros [Hc Hs]. auto.
Qed.

Lemma rev_app_spec s t : String.rev_app s t = String.rev s +:+ t.
Proof.
  unfold String.rev. revert t. induction s as [|c s IH]; intros t; [done|]. simpl.
  rewrite (IH (String c "")), IH, string_app_assoc. done.
Qed.

Lemma rev_app_app s u t :
  String.rev_app (s +:+ u) t = String.rev_app u (String.rev_app s t).
Proof.
  revert t. induction s as [|d s IH]; intros t; [done|].
  rewrite string_app_cons. simpl. apply IH.
Qed.

Lemma string_rev_snoc s c : String.rev (s +:+ String c "") = String c (String.rev s).
Proof. unfold String.rev. by rewrite rev_app_app. Qed.

Lemma string_rev_cons c s : String.rev (String c s) = String.rev s +:+ String c "".
Proof. unfold String.rev at 1. simpl. apply rev_app_spec. Qed.

Lemma string_rev_involutive s : String.rev (String.rev s) = s.
Proof.
  induction s as [|c s IH]; [done|].
  by rewrite string_rev_cons, string_rev_snoc, IH.
Qed.

Lemma string_all_rev P s : string_all P (String.rev s) = string_all P s.
Proof.
  induction s as [|c s IH]; [done|].
  rewrite string_rev_cons, string_all_app, IH. simpl.
  by rewrite andb_true_r, andb_comm.
Qed.

Lemma lstrip_no_space s :
  string_all (λ c, negb (is_space c)) s = true → lstrip s = s.
Proof.
  destruct s as [|c s]; [done|]. simpl. intros [Hc _]%andb_true_iff.
  by apply negb_true_iff in Hc as ->.
Qed.

Lemma strip_no_space s :
  string_all (λ c, negb (is_space c)) s = true → strip s = s.
Proof.
  intros Hs. unfold strip. rewrite (lstrip_no_space s Hs).
  rewrite lstrip_no_space by by rewrite string_all_rev.
  apply string_rev_involutive.
Qed.

Lemma is_digit_code c :
  Dms.is_digit c = true → (48 ≤ nat_of_ascii c ≤ 57)%nat.
Proof.
  unfold Dms.is_digit. intros [H1 H2]%andb_true_iff.
  apply Nat.leb_le in H1, H2. lia.
Qed.

Lemma is_hemisphere_cases c :
  Dms.is_hemisphere c = true →
  c = "N"%char ∨ c = "S"%char ∨ c = "E"%char ∨ c = "W"%char.
Proof.
  unfold Dms.is_hemisphere. rewrite !orb_true_iff, !Ascii.eqb_eq. tauto.
Qed.

Lemma digit_no_space c : Dms.is_digit c = true → is_space c = false.
Proof.
  intros Hc%is_digit_code. unfold is_space.
  destruct (Nat.leb_spec 9 (nat_of_ascii c)), (Nat.leb_spec (nat_of_ascii c) 13),
    (Nat.leb_spec 28 (nat_of_ascii c)), (Nat.leb_spec (nat_of_ascii c) 32);
    simpl; try done; lia.
Qed.

Lemma digit_upper c : Dms.is_digit c = true → Dms.upper_ascii c = c.
Proof.
  intros Hc%is_digit_code. unfold Dms.upper_ascii.
  destruct (Nat.leb_spec 97 (nat_of_ascii c)); [lia|done].
Qed.

Lemma upper_digits s : string_all Dms.is_digit s = true → Dms.upper s = s.
Proof.
  induction s as [|c s IH]; [done|]. simpl. intros [Hc Hs]%andb_true_iff.
  by rewrite digit_upper, IH.
Qed.

Lemma upper_app s t : Dms.upper (s +:+ t) = Dms.upper s +:+ Dms.upper t.
Proof.
  induction s as [|c s IH]; [done|]. rewrite string_app_cons. simpl.
  by rewrite IH.
Qed.

Lemma prefix_cons o old c s :
  String.prefix (String o old) (String c s)
  = match ascii_dec o c with
    | left _ => String.prefix old s
    | right _ => false
    end.
Proof. done. Qed.

Lemma prefix_head_differs o old c s :
  o ≠ c → String.prefix (String o old) (String c s) = false.
Proof. intros Hoc. simpl. by destruct (ascii_dec o c). Qed.

Lemma replace_digits o old new s :
  Dms.is_digit o = false → string_all Dms.is_digit s = true →
  Dms.replace (String o old) new s = s.
Proof.
  intros Ho. unfold Dms.replace. induction s as [|c s IH]; [done|].
  intros [Hc Hs]%andb_true_iff. cbn [Dms.replace_from].
  rewrite prefix_head_differs by congruence. by rewrite IH.
Qed.

Lemma normalise_digits s :
  string_all Dms.is_digit s = true → Dms.normalise s = s.
Proof.
  intros Hs. unfold Dms.normalise, Dms.degree_signs. cbn [foldl].
  rewrite !(replace_digits _ _ _ s) by done.
  apply strip_no_space. eapply string_all_impl; [|done].
  intros c Hc. by rewrite digit_no_space.
Qed.

Lemma only_digits_digits s :
  string_all Dms.is_digit s = true → Dms.only_digits s = s.
Proof.
  induction s as [|c s IH]; [done|]. simpl. intros [Hc Hs]%andb_true_iff.
  by rewrite Hc, IH.
Qed.

Lemma substring_prefix s t :
  String.substring 0 (String.length s) (s +:+ t) = s.
Proof.
  induction s as [|c s IH]; [by destruct t|].
  rewrite string_app_cons. simpl. by rewrite IH.
Qed.

Lemma substring_skip s t n m :
  String.substring (String.length s + n) m (s +:+ t) = String.substring n m t.
Proof. induction s as [|c s IH]; [done|]. by rewrite string_app_cons. Qed.

Lemma substring_all s : String.substring 0 (String.length s) s = s.
Proof. induction s as [|c s IH]; [done|]. simpl. by rewrite IH. Qed.

(** X26.  AEMET's compact coordinates are read as written: two or more
    digits of degrees, two of minutes, two of seconds and a hemisphere
    letter give degrees + minutes/60 + seconds/3600, signed by the
    hemisphere and checked against the range, whatever [float] does with
    free text.  So "394924N" is 39 degrees 49 minutes 24 seconds north. *)
Theorem parse_aemet_dms_compact `{Externals} (float : string → Dms.PyFloat)
    (dd mm ss : string) (h : ascii) :
  string_all Dms.is_digit dd = true → (2 ≤ String.length dd)%nat →
  string_all Dms.is_digit mm = true → String.length mm = 2%nat →
  string_all Dms.is_digit ss = true → String.length ss = 2%nat →
  Dms.is_hemisphere h = true →
  Dms._parse_aemet_dms float (CStr (dd +:+ mm +:+ ss +:+ String h ""))
  = Dms.in_range (Some h)
      (Dms.float_of_digits dd + Dms.float_of_digits mm / 60
       + Dms.float_of_digits ss / 3600)%Q.
Proof.
  intros Hdd Hldd Hmm Hlmm Hss Hlss Hh.
  set (d := dd +:+ mm +:+ ss).
  assert (dd +:+ mm +:+ ss +:+ String h "" = d +:+ String h "") as ->.
  { unfold d. by rewrite !string_app_assoc. }
  assert (string_all Dms.is_digit d = true) as Hd.
  { unfold d. by rewrite !string_all_app, Hdd, Hmm, Hss. }
  assert (String.length d = (String.length dd + 4)%nat) as Hld.
  { unfold d. rewrite !string_length_app. lia. }
  assert (is_space h = false ∧ Dms.upper_ascii h = h) as [Hhs Hhu].
  { destruct (is_hemisphere_cases h Hh) as [->|[->|[->| ->]]]; by split. }
  assert (string_all (λ c, negb (is_space c)) d = true) as Hdns.
  { eapply string_all_impl; [|exact Hd]. intros c Hc. by rewrite digit_no_space. }
  unfold Dms._parse_aemet_dms, Dms.py_str.
  rewrite strip_no_space by (rewrite string_all_app, Hdns; simpl; by rewrite Hhs).
  rewrite upper_app, upper_digits by done. simpl Dms.upper. rewrite Hhu.
  rewrite bool_decide_eq_false_2 by by destruct d.
  unfold Dms.split_hemisphere, Dms.last_char, Dms.drop_last.
  rewrite string_rev_snoc, Hh, string_rev_involutive, strip_no_space by done.
  rewrite normalise_digits, only_digits_digits by done.
  rewrite (replace_digits " " "" "" d) by done.
  rewrite bool_decide_eq_false_2 by (intros Hnil; rewrite Hnil in Hld; simpl in Hld; lia).
  rewrite bool_decide_eq_true_2 by done.
  assert ((4 <=? String.length d)%nat = true) as -> by (apply Nat.leb_le; lia).
  simpl negb. cbn [andb]. unfold Dms.compact_value. rewrite Hld.
  assert ((6 <=? String.length dd + 4)%nat = true) as -> by (apply Nat.leb_le; lia).
  replace (String.length dd + 4 - 4)%nat with (String.length dd) by lia.
  replace (String.length dd + 4 - 2)%nat with (String.length dd + 2)%nat by lia.
  unfold d. rewrite substring_prefix.
  rewrite <- (Nat.add_0_r (String.length dd)) at 1. rewrite substring_skip.
  rewrite substring_skip.
  rewrite <- Hlmm at 1. rewrite substring_prefix.
  rewrite <- Hlmm at 1. rewrite <- (Nat.add_0_r (String.length mm)), substring_skip.
  rewrite <- Hlss, substring_all. done.
Qed.

Lemma parse_aemet_dms_compact_witness :
  Dms._parse_aemet_dms (H := sample_externals) Dms.sample_float (CStr "394924N")
  = Dms.in_range (Some "N"%char)
      (Dms.float_of_digits "39" + Dms.float_of_digits "49" / 60
       + Dms.float_of_digits "24" / 3600)%Q.
Proof.
  apply (parse_aemet_dms_compact (H := sample_externals) Dms.sample_float
           "39" "49" "24" "N"%char); reflexivity || (simpl; lia).
Defined.

Lemma string_rev_app s t : String.rev (s +:+ t) = String.rev t +:+ String.rev s.
Proof.
  unfold String.rev at 1. rewrite rev_app_app, rev_app_spec. done.
Qed.

Lemma strip_trimmed x s y r :
  is_space x = false → is_space y = false →
  String.rev (String x s) = String y r → strip (String x s) = String x s.
Proof.
  intros Hx Hy Hrev. unfold strip. cbn [lstrip]. rewrite Hx, Hrev.
  cbn [lstrip]. rewrite Hy, <- Hrev. apply string_rev_involutive.
Qed.

Lemma replace_absent o old new s :
  string_all (λ c, negb (Ascii.eqb o c)) s = true →
  Dms.replace (String o old) new s = s.
Proof.
  unfold Dms.replace. induction s as [|c s IH]; [done|].
  intros [Hc Hs]%andb_true_iff. cbn [Dms.replace_from].
  rewrite prefix_head_differs; [by rewrite IH|].
  apply negb_true_iff, Ascii.eqb_neq in Hc. done.
Qed.

Lemma only_digits_app s t :
  Dms.only_digits (s +:+ t) = Dms.only_digits s +:+ Dms.only_digits t.
Proof.
  induction s as [|c s IH]; [done|]. rewrite string_app_cons. simpl.
  destruct (Dms.is_digit c); by rewrite IH.
Qed.

(** Through a run of digits followed by a space: [replace(" ", "")] drops
    the space, [replace("  ", " ")] keeps it when a digit follows. *)
Lemma remove_space_after_digits a t :
  string_all Dms.is_digit a = true →
  Dms.replace " " "" (a +:+ String " " t) = a +:+ Dms.replace " " "" t.
Proof.
  unfold Dms.replace. induction a as [|c a IH].
  - intros _. change ("" +:+ String " " t) with (String " " t).
    cbn [Dms.replace_from]. rewrite prefix_cons.
    destruct (ascii_dec " " " ") as [_|Hne]; [|done]. by destruct t.
  - intros [Hc Ha]%andb_true_iff. rewrite !string_app_cons. cbn [Dms.replace_from].
    rewrite prefix_head_differs; [by rewrite IH|].
    intros <-. done.
Qed.

Lemma keep_space_after_digits a x t :
  string_all Dms.is_digit a = true → Dms.is_digit x = true →
  Dms.replace "  " " " (a +:+ String " " (String x t))
  = a +:+ String " " (Dms.replace "  " " " (String x t)).
Proof.
  intros Ha Hx. unfold Dms.replace. induction a as [|c a IH].
  - change ("" +:+ String " " (String x t)) with (String " " (String x t)).
    cbn [Dms.replace_from]. rewrite !prefix_cons.
    destruct (ascii_dec " " " ") as [_|Hne]; [|done].
    destruct (ascii_dec " " x) as [<-|_]; done.
  - apply andb_true_iff in Ha as [Hc Ha]. rewrite !string_app_cons.
    cbn [Dms.replace_from].
    rewrite prefix_head_differs; [by rewrite IH|].
    intros <-. done.
Qed.

Lemma digit_no_hemisphere c : Dms.is_digit c = true → Dms.is_hemisphere c = false.
Proof.
  intros Hc. destruct (Dms.is_hemisphere c) eqn:Hh; [|done].
  destruct (is_hemisphere_cases c Hh) as [->|[->|[->| ->]]]; done.
Qed.

(** X27.  Spaces alone do not separate degrees, minutes and seconds:
    three runs of digits with single spaces between them are read as the
    compact form of the digits run together, the last two digits as
    seconds, the two before as minutes, the rest as degrees, and not as
    three numbers.  So "40 25 30" is 40 degrees 25 minutes 30 seconds, but
    "3 41 15" is 341 degrees 15 minutes, which the range check throws out. *)
Theorem parse_aemet_dms_spaces_do_not_separate `{Externals}
    (float : string → Dms.PyFloat) (a b c : string) :
  string_all Dms.is_digit a = true → a ≠ "" →
  string_all Dms.is_digit b = true → b ≠ "" →
  string_all Dms.is_digit c = true → c ≠ "" →
  (4 ≤ String.length (a +:+ b +:+ c))%nat →
  Dms._parse_aemet_dms float (CStr (a +:+ " " +:+ b +:+ " " +:+ c))
  = Dms.in_range None (Dms.compact_value (a +:+ b +:+ c)).
Proof.
  intros Ha Hane Hb Hbne Hc Hcne Hlen.
  set (s := a +:+ " " +:+ b +:+ " " +:+ c).
  destruct a as [|xa a']; [done|]. destruct b as [|xb b']; [done|].
  destruct c as [|xc c']; [done|].
  pose proof Ha as Ha0. pose proof Hb as Hb0. pose proof Hc as Hc0.
  apply andb_true_iff in Ha0 as [Hxa _].
  apply andb_true_iff in Hb0 as [Hxb _].
  apply andb_true_iff in Hc0 as [Hxc _].
  assert (∃ y r, String.rev s = String y r ∧ Dms.is_digit y = true) as (y & r & Hrev & Hy).
  { unfold s. rewrite <- !string_app_assoc, string_rev_app.
    pose proof (string_all_rev Dms.is_digit (String xc c')) as Hall.
    rewrite Hc in Hall.
    destruct (String.rev (String xc c')) as [|y r] eqn:Hr.
    - apply (f_equal String.rev) in Hr. by rewrite string_rev_involutive in Hr.
    - exists y. eexists. rewrite string_app_cons. split; [done|].
      by apply andb_true_iff in Hall as [? _]. }
  assert (strip s = s) as Hstrip.
  { unfold s in *. rewrite string_app_cons in *.
    eapply strip_trimmed; [by apply digit_no_space| |exact Hrev].
    by apply digit_no_space. }
  assert (Dms.upper s = s) as Hupper.
  { unfold s. rewrite !upper_app.
    rewrite (upper_digits (String xa a')), (upper_digits (String xb b')),
      (upper_digits (String xc c')) by done.
    done. }
  assert (∀ o, Dms.is_digit o = false → o ≠ " "%char →
               string_all (λ c, negb (Ascii.eqb o c)) s = true) as Habsent.
  { intros o Ho Hsp.
    assert (∀ d, string_all Dms.is_digit d = true →
                 string_all (λ c, negb (Ascii.eqb o c)) d = true) as Hdig.
    { intros d. apply string_all_impl. intros ch Hch.
      apply negb_true_iff, Ascii.eqb_neq. congruence. }
    unfold s. rewrite !string_all_app.
    rewrite (Hdig (String xa a')), (Hdig (String xb b')), (Hdig (String xc c'))
      by done.
    cbn [string_all]. by rewrite (proj2 (Ascii.eqb_neq o " ") Hsp). }
  assert (Dms.normalise s = s) as Hnorm.
  { unfold Dms.normalise, Dms.degree_signs. cbn [foldl].
    rewrite !(replace_absent _ _ _ s) by (apply Habsent; done).
    assert (Dms.replace "  " " " s = s) as ->; [|done].
    unfold s.
    change (String xa a' +:+ " " +:+ String xb b' +:+ " " +:+ String xc c')
      with (String xa a' +:+ String " " (String xb (b' +:+ String " " (String xc c')))).
    rewrite (keep_space_after_digits (String xa a') xb) by done.
    change (String xb (b' +:+ String " " (String xc c')))
      with (String xb b' +:+ String " " (String xc c')).
    rewrite (keep_space_after_digits (String xb b') xc) by done.
    by rewrite (replace_digits " " " " " " (String xc c')). }
  unfold Dms._parse_aemet_dms, Dms.py_str. fold s.
  rewrite Hstrip, Hupper.
  rewrite bool_decide_eq_false_2 by (unfold s; by rewrite string_app_cons).
  unfold Dms.split_hemisphere, Dms.last_char. rewrite Hrev.
  rewrite digit_no_hemisphere by done. rewrite Hnorm.
  assert (Dms.only_digits s = String xa a' +:+ String xb b' +:+ String xc c') as ->.
  { unfold s. rewrite !only_digits_app.
    rewrite (only_digits_digits (String xa a')), (only_digits_digits (String xb b')),
      (only_digits_digits (String xc c')) by done.
    done. }
  assert (Dms.replace " " "" s = String xa a' +:+ String xb b' +:+ String xc c') as ->.
  { unfold s.
    change (String xa a' +:+ " " +:+ String xb b' +:+ " " +:+ String xc c')
      with (String xa a' +:+ String " " (String xb b' +:+ String " " (String xc c'))).
    rewrite !remove_space_after_digits by done.
    by rewrite (replace_digits " " "" "" (String xc c')). }
  rewrite bool_decide_eq_false_2 by by rewrite string_app_cons.
  rewrite bool_decide_eq_true_2 by done.
  assert ((4 <=? String.length (String xa a' +:+ String xb b' +:+ String xc c'))%nat
          = true) as -> by by apply Nat.leb_le.
  done.
Qed.

Lemma parse_aemet_dms_spaces_do_not_separate_witness :
  Dms._parse_aemet_dms (H := sample_externals) Dms.sample_float (CStr "3 41 15")
  = Dms.in_range None (Dms.compact_value "34115").
Proof.
  apply (parse_aemet_dms_spaces_do_not_separate (H := sample_externals)
           Dms.sample_float "3" "41" "15"); (reflexivity || discriminate || (simpl; lia)).
Defined.

(** Separators made of degree signs and spaces alone do not separate: the
    text is read as compact, here as 341 degrees 15 minutes west, which the
    range check throws out.  With a decimal point in the seconds the three
    numbers are read one by one. *)
Example dms_with_bare_separators :
  Dms._parse_aemet_dms (H := sample_externals) Dms.sample_float (CStr "3 41 15 W") = None
  ∧ ∃ v, Dms._parse_aemet_dms (H := sample_externals) Dms.sample_float
           (CStr "3 41 15.0 W") = Some v
         ∧ (v == - (3 + 41 / 60 + 15 / 3600))%Q.
Proof. split; [vm_compute; reflexivity|]. eexists. split; vm_compute; reflexivity. Qed.

(** Minutes are added to the degrees as they stand: under a negative
    degree they pull the value towards zero. *)
Example dms_negative_degrees :
  ∃ v, Dms._parse_aemet_dms (H := sample_externals) Dms.sample_float (CStr "-3 30 0")
       = Some v
       ∧ (v == - (5 # 2))%Q.
Proof. eexists. split; vm_compute; reflexivity. Qed.

(** ** Climate aggregates *)

Lemma Qsum_between xs (lo hi : Q) :
  (∀ x, x ∈ xs → (lo <= x <= hi)%Q) →
  (inject_Z (Z.of_nat (length xs)) * lo <= Qsum xs
   <= inject_Z (Z.of_nat (length xs)) * hi)%Q.
Proof.
  induction xs as [|x xs IH]; intros Hall.
  - change (inject_Z (Z.of_nat (length []))) with 0%Q. simpl Qsum. lra.
  - destruct (Hall x (list_elem_of_here _ _)) as [Hlo Hhi].
    destruct IH as [IHlo IHhi].
    { intros y Hy. apply Hall. by apply list_elem_of_further. }
    assert (inject_Z (Z.of_nat (length (x :: xs)))
            == 1 + inject_Z (Z.of_nat (length xs)))%Q as ->.
    { cbn [length]. rewrite Nat2Z.inj_succ. unfold Z.succ. rewrite inject_Z_plus.
      apply Qplus_comm. }
    simpl Qsum. lra.
Qed.

Lemma mean_between xs m (lo hi : Q) :
  (∀ x, x ∈ xs → (lo <= x <= hi)%Q) → mean xs = Some m → (lo <= m <= hi)%Q.
Proof.
  intros Hall. destruct (Qsum_between xs lo hi Hall) as [Hlo Hhi].
  unfold mean. destruct xs as [|x xs]; [done|]. intros [= <-].
  assert (0 < inject_Z (Z.of_nat (length (x :: xs))))%Q as Hpos.
  { change 0%Q with (inject_Z 0). rewrite <- Zlt_Qlt. simpl. lia. }
  split.
  - apply Qle_shift_div_l; [done|]. by rewrite Qmult_comm.
  - apply Qle_shift_div_r; [done|]. by rewrite Qmult_comm.
Qed.

Lemma count_positive_cons x xs :
  count_positive (x :: xs)
  = ((if Qle_bool x 0 then 0 else 1) + count_positive xs)%nat.
Proof.
  unfold count_positive. rewrite filter_cons.
  destruct (Qle_bool x 0); by case_decide.
Qed.

Lemma count_positive_le xs : (count_positive xs ≤ length xs)%nat.
Proof. apply length_filter. Qed.

Lemma Qsum_nonneg xs : (∀ x, x ∈ xs → (0 <= x)%Q) → (0 <= Qsum xs)%Q.
Proof.
  induction xs as [|x xs IH]; intros Hall; simpl; [lra|].
  pose proof (Hall x (list_elem_of_here _ _)).
  assert (0 <= Qsum xs)%Q by (apply IH; intros y Hy; apply Hall; by right).
  lra.
Qed.

(** With no negative value, the sum is zero exactly when no value is
    positive. *)
Lemma count_positive_zero xs :
  (∀ x, x ∈ xs → (0 <= x)%Q) → count_positive xs = 0%nat ↔ (Qsum xs == 0)%Q.
Proof.
  induction xs as [|x xs IH]; intros Hall; [done|].
  pose proof (Hall x (list_elem_of_here _ _)) as Hx.
  assert (∀ y, y ∈ xs → (0 <= y)%Q) as Hall' by (intros y Hy; apply Hall; by right).
  pose proof (Qsum_nonneg xs Hall') as Hsum.
  rewrite count_positive_cons. simpl Qsum.
  destruct (Qle_bool x 0) eqn:Hle.
  - apply Qle_bool_iff in Hle. rewrite Nat.add_0_l, (IH Hall').
    split; intros; lra.
  - assert (¬ (x <= 0)%Q) as Hpos by (rewrite <- Qle_bool_iff; congruence).
    split; [done|]. intros Hzero. exfalso. apply Hpos. lra.
Qed.

Lemma aggregate_group_cons rows a aggs id :
  ag_values (aggregate_group rows (a :: aggs) id)
  = match agg_apply a.2.2 (group_values rows id a.2.1) with
    | Some v => <[a.1 := v]> (ag_values (aggregate_group rows aggs id))
    | None => ag_values (aggregate_group rows aggs id)
    end.
Proof. done. Qed.

Lemma lookup_aggregate_absent rows aggs id name :
  name ∉ aggs.*1 → ag_values (aggregate_group rows aggs id) !! name = None.
Proof.
  induction aggs as [|a aggs IH]; [done|]. rewrite fmap_cons.
  intros [Hne Hnot]%not_elem_of_cons. rewrite aggregate_group_cons.
  destruct (agg_apply _ _); [rewrite lookup_insert_ne by congruence|]; by apply IH.
Qed.

Lemma lookup_aggregate rows aggs id name c f :
  NoDup aggs.*1 → (name, (c, f)) ∈ aggs →
  ag_values (aggregate_group rows aggs id) !! name
  = agg_apply f (group_values rows id c).
Proof.
  induction aggs as [|a aggs IH]; intros Hnd Hin; [by apply elem_of_nil in Hin|].
  rewrite fmap_cons in Hnd. apply NoDup_cons in Hnd as [Hfresh Hnd].
  rewrite aggregate_group_cons.
  apply elem_of_cons in Hin as [<-|Hin]; cbn [fst snd] in *.
  - destruct (agg_apply f _) as [v|] eqn:Hv; [by rewrite lookup_insert_eq|].
    by apply lookup_aggregate_absent.
  - assert (name ≠ a.1) as Hne.
    { intros ->. apply Hfresh. apply list_elem_of_fmap. by exists (a.1, (c, f)). }
    destruct (agg_apply a.2.2 _); [rewrite lookup_insert_ne by congruence|];
      by apply IH.
Qed.

Lemma NoDup_named_aggs cols : NoDup (named_aggs cols).*1.
Proof.
  unfold named_aggs. repeat case_bool_decide; simpl;
    repeat (apply NoDup_cons; split; [set_solver|]); apply NoDup_nil_2.
Qed.

Lemma group_keys_spec rows :
  NoDup (group_keys rows)
  ∧ Sorted String.le (group_keys rows)
  ∧ ∀ id, id ∈ group_keys rows ↔ ∃ r, r ∈ rows ∧ pd_profile_id r = id.
Proof.
  unfold group_keys. split_and!.
  - rewrite merge_sort_Permutation. apply NoDup_remove_dups.
  - apply Sorted_merge_sort. apply _.
  - intros id. rewrite merge_sort_Permutation, elem_of_remove_dups, list_elem_of_fmap.
    split; intros (r & H1 & H2); exists r; done.
Qed.



